(** * make_translation.py: the translation asset compiler of IronOS

    A shallow embedding of [Translations/make_translation.py]: the symbol
    index encoder, the language-code validation, the CJK glyph rasterizer,
    the symbol collector with the font map builder, and the suffix-merging
    string table writer, together with the properties stated about them.

    Python values are modelled as follows.
    - [int] is [Z] (unbounded), [//] and [%] by a positive divisor are
      [Z.div] and [Z.modulo], [&], [|] and [<<] are [Z.land], [Z.lor] and
      [Z.shiftl].
    - a one-character [str] (a symbol) is its code point ([ord]), a [N];
      a [str] is the list of its code points.
    - [bytes] is a list of [Z], each in the range 0..255.
    - a [dict] is a [gmap], except where the code iterates over it: there
      it is an association list in insertion order.
    - a raised exception or a [sys.exit] is the [Raise] branch of
      [result]. *)

From Stdlib Require Import ZArith NArith List Lia Bool Sorting.Sorted Sorting.Permutation.
From stdpp Require Import base option list sorting gmap strings.

Local Open Scope Z_scope.

(** ** Exceptions and the error monad *)

Module Py.

(** What [logging.error] printed just before a [sys.exit]. *)
Inductive logmsg :=
| TooManyUsedSymbols (total : Z)
| MissingLargeFont (sym : N)
| MissingSmallFont (sym : N)
| MissingFontDefinition (c : N)
| FailedToDecode (filename : list N).

Inductive exn :=
| ValueError (msg : string)
| TypeError
| KeyError
| IndexError
| AssertionError
| JSONDecodeError
| OSError
| SystemExit (status : Z) (logged : logmsg).

Inductive result (A : Type) :=
| Ok (a : A)
| Raise (e : exn).
Arguments Ok {A} a.
Arguments Raise {A} e.

Definition bind {A B} (r : result A) (k : A -> result B) : result B :=
  match r with
  | Ok a => k a
  | Raise e => Raise e
  end.

Definition returns {A} (r : result A) : bool :=
  match r with Ok _ => true | Raise _ => false end.

End Py.
Export Py.

Declare Scope py_scope.
Delimit Scope py_scope with py.
Notation "x <- c ;; k" := (bind c (fun x => k))
  (at level 60, c at next level, right associativity) : py_scope.
Local Open Scope py_scope.

(** ** Python built-ins used by the program *)

(** A [str] is the list of its code points; [py_str] reads a literal. *)
Abbreviation str := (list N).

Definition py_str (s : string) : str :=
  map Ascii.N_of_ascii (String.list_ascii_of_string s).

(** [l[k]] for a possibly negative [k]. *)
Definition py_index {A} (l : list A) (k : Z) : result A :=
  let n := Z.of_nat (length l) in
  let k' := if k <? 0 then k + n else k in
  if (k' <? 0) || (n <=? k') then Raise IndexError
  else match l !! Z.to_nat k' with
       | Some a => Ok a
       | None => Raise IndexError
       end.

(** [s[start:stop]]: both bounds are clamped as Python does. *)
Definition py_slice {A} (s : list A) (start stop : Z) : list A :=
  let n := Z.of_nat (length s) in
  let clamp k := if k <? 0 then Z.max (k + n) 0 else Z.min k n in
  let a := clamp start in
  let b := clamp stop in
  take (Z.to_nat (b - a)) (drop (Z.to_nat a) s).

(** [s.replace(c, empty)]: the one-character [c] is removed. *)
Definition remove_char (c : N) (s : str) : str :=
  filter (fun x => x <> c) s.

(** [s.replace(old, new)] for the two-character [old = a b]: occurrences are
    replaced from the left and do not overlap. *)
Fixpoint replace2 (a b : N) (new : str) (s : str) : str :=
  match s with
  | [] => []
  | c :: t =>
      match t with
      | d :: r =>
          if (c =? a)%N && (d =? b)%N then new ++ replace2 a b new r
          else c :: replace2 a b new t
      | [] => [c]
      end
  end.

(** [b.startswith(prefix)] on bytes. *)
Fixpoint startswith (b prefix : list Z) {struct prefix} : bool :=
  match prefix, b with
  | [], _ => true
  | _ :: _, [] => false
  | p :: prefix', x :: b' => (x =? p) && startswith b' prefix'
  end.

(** The order of [bytes]: lexicographic on the byte values. *)
Fixpoint bytes_leb (a b : list Z) : bool :=
  match a, b with
  | [], _ => true
  | _ :: _, [] => false
  | x :: a', y :: b' =>
      if x <? y then true else if y <? x then false else bytes_leb a' b'
  end.

(** [sorted(l, key=...)], with [leb x y] the comparison [key x <= key y].
    Python's sort is stable; so is this insertion sort, and a stable sort
    has one possible output. *)
Fixpoint insert_by {A} (leb : A -> A -> bool) (x : A) (l : list A) : list A :=
  match l with
  | [] => [x]
  | y :: l' => if leb x y then x :: y :: l' else y :: insert_by leb x l'
  end.

Fixpoint sorted {A} (leb : A -> A -> bool) (l : list A) : list A :=
  match l with
  | [] => []
  | x :: l' => insert_by leb x (sorted leb l')
  end.

(** [enumerate(l)]. *)
Definition enumerate {A} (l : list A) : list (nat * A) := imap pair l.

(** The characters the program names. *)
Definition chr_LF : N := 10.
Definition chr_CR : N := 13.
Definition chr_backslash : N := 92.
Definition chr_n : N := 110.
Definition chr_r : N := 114.

(** What [json.loads] returns: a JSON object is a [dict], and a file can
    hold any other JSON value as well. *)
#[local] Unset Elimination Schemes.
Inductive json :=
| JNull
| JBool (b : bool)
| JNum (n : Z)
| JStr (s : str)
| JList (l : list json)
| JObj (o : gmap str json).
#[local] Set Elimination Schemes.

(** ** Reading a translation: [validate_langcode_matches_content] *)

(** [str.upper] is Python's, over all of Unicode: it is a parameter of the
    model. [ascii_upper] is its restriction to texts of ASCII characters,
    on which the two agree. *)
Definition ascii_upper (s : str) : str :=
  map (fun c => if (97 <=? c)%N && (c <=? 122)%N then (c - 32)%N else c) s.

(** [content["languageCode"]] raises [KeyError], which is caught, on a
    [dict] without the key, and [TypeError], which is not, on a value that
    is no [dict]: a list and a string take no such index, the other values
    take none. *)
Definition validate_langcode_matches_content
    (upper : str -> str) (filename : str) (content : json) : result unit :=
  let lang_code := upper (py_slice filename 12 (-5)) in
  lang_code_from_json <-
    match content with
    | JObj o =>
        match o !! py_str "languageCode" with
        | Some v => Ok v
        | None => Ok (JStr (py_str "(missing)"))
        end
    | _ => Raise TypeError
    end ;;
  (* a [str] differs from every value that is not a [str] *)
  match lang_code_from_json with
  | JStr s =>
      if decide (lang_code <> s)
      then Raise (ValueError "Invalid languageCode")
      else Ok tt
  | _ => Raise (ValueError "Invalid languageCode")
  end.

(** [load_json] reads and parses a file; the file system and the parser
    are the parameter [load_json]. Of what it raises only
    [json.decoder.JSONDecodeError] is caught. *)
Definition read_translation
    (upper : str -> str) (load_json : str -> result json)
    (lang_code : str) : result json :=
  let filename := py_str "translation_" ++ lang_code ++ py_str ".json" in
  match load_json filename with
  | Raise JSONDecodeError => Raise (SystemExit 2 (FailedToDecode filename))
  | Raise e => Raise e
  | Ok lang =>
      _ <- validate_langcode_matches_content upper filename lang ;;
      Ok lang
  end.

(** [main] after the arguments and the build version are read: the
    translation is read and validated, then [write_language] (the symbol
    collection, the font tables and the string table) runs on it. *)
Definition main {Out : Type}
    (upper : str -> str) (load_json : str -> result json)
    (write_language : json -> result Out)
    (languageCode : str) : result Out :=
  lang_ <- read_translation upper load_json languageCode ;;
  write_language lang_.

(** ** Symbol Index Encoder: [get_bytes_from_font_index] *)

Definition get_bytes_from_font_index (index : Z) : result (list Z) :=
  if index <? 0 then Raise (ValueError "index must be positive") else
  let page := (index + 0x0E) / 0xFF in
  if page >? 0x0F then Raise (ValueError "page value out of range") else
  if page =? 0 then Ok [index]
  else
    let leader := page + 0xF0 in
    let value := ((index + 0x0E) mod 0xFF) + 0x01 in
    if (leader >? 0xFF) || (value >? 0xFF)
    then Raise (ValueError "value is out of range")
    else Ok [leader; value].

(** The decoder of the specification, which is also the mapping table of
    the comment in the source: one byte [b] is the index [b]; a leader
    [0xF0 + page] followed by [t] is [page * 255 + t - 15]. *)
Definition decode_font_index (bs : list Z) : option Z :=
  match bs with
  | [b] => Some b
  | [leader; t] => Some ((leader - 0xF0) * 0xFF + t - 15)
  | _ => None
  end.

(** ** Glyph Rasterizer: [get_cjk_glyph] *)

(** A [bdflib] glyph: [data] and what [get_bounding_box] returns. *)
Record Glyph := {
  data : list Z;
  src_left : Z;
  src_bottom : Z;
  src_w : Z;
  src_h : Z
}.

Definition dst_w : Z := 12.
Definition dst_h : Z := 16.

Definition get_cell (glyph : Glyph) (x y : Z) : result bool :=
  let adj_x := x - src_left glyph in
  if (adj_x <? 0) || (adj_x >=? src_w glyph) then Ok false else
  let adj_y := y - (dst_h - src_h glyph - src_bottom glyph - 3) in
  if (adj_y <? 0) || (adj_y >=? src_h glyph) then Ok false else
  row <- py_index (data glyph) (src_h glyph - adj_y - 1) ;;
  if Z.land row (Z.shiftl 1 (src_w glyph - adj_x - 1)) =? 0
  then Ok false else Ok true.

(** The loop [for r in range(8)] that builds the byte [b] of a column. *)
Fixpoint column_loop (glyph : Glyph) (block c : Z) (rs : list Z) (b : Z) : result Z :=
  match rs with
  | [] => Ok b
  | r :: rs' =>
      lit <- get_cell glyph c (r + 8 * block) ;;
      column_loop glyph block c rs' (if lit then Z.lor b (Z.shiftl 0x01 r) else b)
  end.

Definition range (n : nat) : list Z := map Z.of_nat (seq 0 n).

(** The loops over [block] and [c], which append one byte each time. *)
Fixpoint cells_loop (glyph : Glyph) (cells : list (Z * Z)) (s : list Z) : result (list Z) :=
  match cells with
  | [] => Ok s
  | (block, c) :: cells' =>
      b <- column_loop glyph block c (range 8) 0 ;;
      cells_loop glyph cells' (s ++ [b])
  end.

Definition glyph_cells : list (Z * Z) :=
  block ← range 2; c ← range (Z.to_nat dst_w); [(block, c)].

(** The bytes that [get_cjk_glyph] prints. *)
Definition get_cjk_glyph_bytes (glyph : Glyph) : result (list Z) :=
  cells_loop glyph glyph_cells [].

Definition hex_digit (d : Z) : string :=
  match d with
  | 0 => "0" | 1 => "1" | 2 => "2" | 3 => "3" | 4 => "4" | 5 => "5" | 6 => "6"
  | 7 => "7" | 8 => "8" | 9 => "9" | 10 => "A" | 11 => "B" | 12 => "C"
  | 13 => "D" | 14 => "E" | _ => "F"
  end.

(** [f"{b:02X}"] for a byte [b]. *)
Definition format_02X (b : Z) : string :=
  hex_digit (b / 16) +:+ hex_digit (b mod 16).

(** [cjk_font()[ord(sym)]] raises [KeyError] on a code point the font
    lacks; the parsed font is the parameter [cjk_font]. *)
Definition get_cjk_glyph (cjk_font : gmap Z Glyph) (sym : N) : result string :=
  match cjk_font !! Z.of_N sym with
  | None => Raise KeyError
  | Some glyph =>
      bs <- get_cjk_glyph_bytes glyph ;;
      Ok (foldl (fun s b => s +:+ "0x" +:+ format_02X b +:+ ",") String.EmptyString bs)
  end.

(** ** Symbol Collector: [get_letter_counts] *)

(** [symbol_counts[letter] = symbol_counts.get(letter, 0) + 1] on a dict
    kept in insertion order. *)
Fixpoint count_letter (letter : N) (symbol_counts : list (N * Z)) : list (N * Z) :=
  match symbol_counts with
  | [] => [(letter, 0 + 1)]
  | (k, v) :: d =>
      if (k =? letter)%N then (k, v + 1) :: d else (k, v) :: count_letter letter d
  end.

(** The two [replace] lines at the head of the counting loop. *)
Definition strip_line (line : str) : str :=
  let line := remove_char chr_CR (remove_char chr_LF line) in
  replace2 chr_backslash chr_r [] (replace2 chr_backslash chr_n [] line).

Definition count_line (symbol_counts : list (N * Z)) (line : str) : list (N * Z) :=
  foldl (fun d letter => count_letter letter d) symbol_counts (strip_line line).

Definition symbol_counts (text_list : list str) : list (N * Z) :=
  foldl count_line [] text_list.

(** The sort key [(kv[1], kv[0])]: tuples compare lexicographically. *)
Definition item_leb (x y : N * Z) : bool :=
  (x.2 <? y.2) || ((x.2 =? y.2) && (x.1 <=? y.1)%N).

(** [get_letter_counts] from the point where [text_list] is complete; the
    walk over the two JSON documents that fills [text_list] is its input
    here. *)
Definition get_letter_counts (text_list : list str) : list N :=
  let symbols_by_occurrence := map fst (sorted item_leb (symbol_counts text_list)) in
  rev symbols_by_occurrence.

(** ** Symbol Index Encoder: [get_font_map_and_table] *)

Record FontMap := {
  font12 : gmap N string;
  font06 : gmap N string
}.

Definition forced_first_symbols : list N :=
  [48; 49; 50; 51; 52; 53; 54; 55; 56; 57]%N.

Definition ordered_normal_sym_list (font_table : gmap N string) (text_list : list N) : list N :=
  forced_first_symbols ++
  List.filter (fun x => negb (bool_decide (x ∈ forced_first_symbols))
                        && bool_decide (is_Some (font_table !! x))) text_list.

Definition ordered_cjk_sym_list (font_table : gmap N string) (text_list : list N) : list N :=
  List.filter (fun x => negb (bool_decide (x ∈ forced_first_symbols))
                        && negb (bool_decide (is_Some (font_table !! x)))) text_list.

Definition total_symbol_count (font_table : gmap N string) (text_list : list N) : Z :=
  Z.of_nat (length (ordered_normal_sym_list font_table text_list))
  + Z.of_nat (length (ordered_cjk_sym_list font_table text_list)).

(** The loop that fills [symbol_map]. *)
Fixpoint symbol_loop (sym_list : list N) (index : Z) (symbol_map : gmap N (list Z))
  : result (gmap N (list Z)) :=
  match sym_list with
  | [] => Ok symbol_map
  | sym :: rest =>
      match symbol_map !! sym with
      | Some _ => Raise (ValueError "Symbol not found in symbol map")
      | None =>
          b <- get_bytes_from_font_index index ;;
          symbol_loop rest (index + 1) (<[sym := b]> symbol_map)
      end
  end.

(** The loop over [ordered_normal_sym_list]. *)
Fixpoint normal_loop (font_table font_small_table : gmap N string)
    (syms : list N) (fm : FontMap) : result FontMap :=
  match syms with
  | [] => Ok fm
  | sym :: rest =>
      match font_table !! sym with
      | None => Raise (SystemExit 1 (MissingLargeFont sym))
      | Some big =>
          match font_small_table !! sym with
          | None => Raise (SystemExit 1 (MissingSmallFont sym))
          | Some small =>
              normal_loop font_table font_small_table rest
                {| font12 := <[sym := big]> (font12 fm);
                   font06 := <[sym := small]> (font06 fm) |}
          end
      end
  end.

Definition placeholder : string := "//                                 ".

(** The loop over [ordered_cjk_sym_list]. *)
Fixpoint cjk_loop (font_table : gmap N string) (cjk_font : gmap Z Glyph)
    (syms : list N) (fm : FontMap) : result FontMap :=
  match syms with
  | [] => Ok fm
  | sym :: rest =>
      match font_table !! sym with
      | Some _ => Raise (ValueError "Symbol already exists in font_table")
      | None =>
          font_line <- get_cjk_glyph cjk_font sym ;;
          cjk_loop font_table cjk_font rest
            {| font12 := <[sym := font_line]> (font12 fm);
               font06 := <[sym := placeholder]> (font06 fm) |}
      end
  end.

(** [font_tables.get_font_map()], [font_tables.get_small_font_map()] and
    the font that [cjk_font()] loads are the parameters [font_table],
    [font_small_table] and [cjk_font]. *)
Definition get_font_map_and_table
    (font_table font_small_table : gmap N string) (cjk_font : gmap Z Glyph)
    (text_list : list N) : result (list N * FontMap * gmap N (list Z)) :=
  let symbol_map : gmap N (list Z) := {[ chr_LF := [1] ]} in
  let index := 2 in
  let normal := ordered_normal_sym_list font_table text_list in
  let cjk := ordered_cjk_sym_list font_table text_list in
  let total := total_symbol_count font_table text_list in
  if total >? (0x10 * 0xFF - 15) - 2
  then Raise (SystemExit 1 (TooManyUsedSymbols total)) else
  let sym_list := normal ++ cjk in
  symbol_map <- symbol_loop sym_list index symbol_map ;;
  fm <- normal_loop font_table font_small_table normal
          {| font12 := ∅; font06 := ∅ |} ;;
  fm <- cjk_loop font_table cjk_font cjk fm ;;
  Ok (sym_list, fm, symbol_map).

(** ** [convert_string_bytes] *)

Fixpoint convert_loop (symbol_conversion_table : gmap N (list Z))
    (text : str) (output_string : list Z) : result (list Z) :=
  match text with
  | [] => Ok output_string
  | c :: text' =>
      match symbol_conversion_table !! c with
      | None => Raise (SystemExit 1 (MissingFontDefinition c))
      | Some b => convert_loop symbol_conversion_table text' (output_string ++ b)
      end
  end.

Definition convert_string_bytes (symbol_conversion_table : gmap N (list Z))
    (text : str) : result (list Z) :=
  let text := replace2 chr_backslash chr_n [chr_LF]
                (replace2 chr_backslash chr_r [] text) in
  convert_loop symbol_conversion_table text [].

(** ** String Table Compressor: the suffix merging of
    [get_translation_strings_and_indices_text]

    The function first fills [str_table] from the two JSON documents; the
    model starts from the filled [str_table]. *)

Record RemappedTranslationItem := {
  str_index : nat;
  str_start_offset : Z
}.

(** An item of [backward_sorted_table]: the index in [str_table], the
    string, and its converted bytes reversed. *)
Abbreviation entry := (nat * str * list Z)%type.

Fixpoint convert_entries (symbol_conversion_table : gmap N (list Z))
    (items : list (nat * str)) : result (list entry) :=
  match items with
  | [] => Ok []
  | (i, s) :: items' =>
      b <- convert_string_bytes symbol_conversion_table s ;;
      rest <- convert_entries symbol_conversion_table items' ;;
      Ok ((i, s, rev b) :: rest)
  end.

Definition entry_leb (x y : entry) : bool := bytes_leb x.2 y.2.

Definition backward_sorted_table (symbol_conversion_table : gmap N (list Z))
    (str_table : list str) : result (list entry) :=
  entries <- convert_entries symbol_conversion_table (enumerate str_table) ;;
  Ok (sorted entry_leb entries).

(** The [while] loop: [rest] is [backward_sorted_table[j + 1:]], so its
    head is [backward_sorted_table[j + 1]], and reading past the end of
    the table raises [IndexError]. *)
Fixpoint scan_run (converted : list Z) (rest : list entry) (j : nat) : result nat :=
  match rest with
  | [] => Raise IndexError
  | e :: rest' =>
      if startswith e.2 converted then scan_run converted rest' (S j) else Ok j
  end.

Definition table_at (table : list entry) (j : nat) : result entry :=
  match table !! j with
  | Some e => Ok e
  | None => Raise IndexError
  end.

(** The [for] loop over [enumerate(backward_sorted_table[:-1])]: [entries]
    is [backward_sorted_table[i:]], whose last item is not visited. *)
Fixpoint remap_loop (table : list entry) (i : nat) (entries : list entry)
    (str_remapping : list (option RemappedTranslationItem))
  : result (list (option RemappedTranslationItem)) :=
  match entries with
  | [] => Ok str_remapping
  | (idx, source_str, converted) :: rest =>
      match rest with
      | [] => Ok str_remapping
      | _ :: _ =>
          j <- scan_run converted rest i ;;
          if decide (j <> i) then
            ej <- table_at table j ;;
            remap_loop table (S i) rest
              (<[idx := Some {| str_index := ej.1.1;
                                str_start_offset :=
                                  Z.of_nat (length ej.2) - Z.of_nat (length converted) |}]>
                 str_remapping)
          else remap_loop table (S i) rest str_remapping
      end
  end.

Definition str_remapping (symbol_conversion_table : gmap N (list Z))
    (str_table : list str) : result (list (option RemappedTranslationItem)) :=
  table <- backward_sorted_table symbol_conversion_table str_table ;;
  remap_loop table 0 table (replicate (length str_table) None).

(** What is written to [translation_strings_text] that ends up in the C
    array: the separator ["\0"] and the escaped bytes of a string. The
    comment lines are left out. [DataLiteral i b] is written by the
    iteration for [str_table[i]]. *)
Inductive literal :=
| NulLiteral
| DataLiteral (i : nat) (converted_bytes : list Z).

Record writer := {
  str_offsets : list Z;
  offset : Z;
  write_null : bool;
  translation_strings_text : list literal
}.

Definition str_used_by (remapping : list (option RemappedTranslationItem)) (i : nat)
  : list nat :=
  i :: map fst
         (List.filter
            (fun jr => match jr.2 with
                       | Some r => Nat.eqb (str_index r) i
                       | None => false
                       end)
            (enumerate remapping)).

(** The loop [for j in str_used_by]. *)
Fixpoint used_loop (remapping : list (option RemappedTranslationItem))
    (i : nat) (offset : Z) (used : list nat) (offsets : list Z) : result (list Z) :=
  match used with
  | [] => Ok offsets
  | j :: used' =>
      if decide (j = i) then used_loop remapping i offset used' (<[j := offset]> offsets)
      else
        match remapping !! j with
        | Some (Some remapped) =>
            used_loop remapping i offset used'
              (<[j := offset + str_start_offset remapped]> offsets)
        | Some None => Raise AssertionError
        | None => Raise IndexError
        end
  end.

(** The loop [for i, source_str in enumerate(str_table)]. *)
Fixpoint write_loop (symbol_conversion_table : gmap N (list Z))
    (remapping : list (option RemappedTranslationItem))
    (items : list (nat * str)) (w : writer) : result writer :=
  match items with
  | [] => Ok w
  | (i, source_str) :: items' =>
      match remapping !! i with
      | None => Raise IndexError
      | Some (Some _) => write_loop symbol_conversion_table remapping items' w
      | Some None =>
          let text := if write_null w
                      then translation_strings_text w ++ [NulLiteral]
                      else translation_strings_text w in
          offsets <- used_loop remapping i (offset w) (str_used_by remapping i)
                       (str_offsets w) ;;
          converted_bytes <- convert_string_bytes symbol_conversion_table source_str ;;
          write_loop symbol_conversion_table remapping items'
            {| str_offsets := <[i := offset w]> offsets;
               offset := offset w + (Z.of_nat (length converted_bytes) + 1);
               write_null := true;
               translation_strings_text := text ++ [DataLiteral i converted_bytes] |}
      end
  end.

(** The result is the data part of [translation_strings_text] and the
    offsets that [get_offset] reads while [translation_indices_text] is
    written. Every index of [str_table] belongs to an item of one of the
    groups, so [get_offset] asserts [str_offsets[idx] >= 0] for each. *)
Definition get_translation_strings_and_indices_text
    (symbol_conversion_table : gmap N (list Z)) (str_table : list str)
  : result (list literal * list Z) :=
  remapping <- str_remapping symbol_conversion_table str_table ;;
  w <- write_loop symbol_conversion_table remapping (enumerate str_table)
         {| str_offsets := replicate (length str_table) (-1);
            offset := 0;
            write_null := false;
            translation_strings_text := [] |} ;;
  if forallb (fun o => 0 <=? o) (str_offsets w)
  then Ok (translation_strings_text w, str_offsets w)
  else Raise AssertionError.

(** The bytes of the C array [TranslationStringsData] that the adjacent
    string literals of [translation_strings_text] define: C appends one
    terminating NUL to the concatenation. *)
Definition literal_bytes (l : literal) : list Z :=
  match l with
  | NulLiteral => [0]
  | DataLiteral _ b => b
  end.

Definition TranslationStringsData (text : list literal) : list Z :=
  concat (map literal_bytes text) ++ [0].

(** The indices of the strings whose bytes were written. *)
Definition emitted (text : list literal) : list nat :=
  omap (fun l => match l with DataLiteral i _ => Some i | NulLiteral => None end) text.

(** ** [bytes_to_escaped], [convert_string] and [make_font_table_cpp] *)

(** The join of [f"\\x{i:02X}"] over the bytes. *)
Definition bytes_to_escaped (b : list Z) : string :=
  foldr (fun i s => "\x" +:+ format_02X i +:+ s) String.EmptyString b.

Definition convert_string (symbol_conversion_table : gmap N (list Z))
    (text : str) : result string :=
  b <- convert_string_bytes symbol_conversion_table text ;;
  Ok (bytes_to_escaped b).

(** One of the two loops of [make_font_table_cpp]: a line
    [f"{font[sym]}//{bytes_to_escaped(symbol_map[sym])} -> {sym}\n"] for
    each symbol; a missing key raises [KeyError]. *)
Fixpoint font_rows (font : gmap N string) (symbol_map : gmap N (list Z))
    (sym_list : list N) (output_table : str) : result str :=
  match sym_list with
  | [] => Ok output_table
  | sym :: rest =>
      match font !! sym with
      | None => Raise KeyError
      | Some glyph =>
          match symbol_map !! sym with
          | None => Raise KeyError
          | Some code =>
              font_rows font symbol_map rest
                (output_table ++ py_str glyph ++ py_str "//"
                 ++ py_str (bytes_to_escaped code) ++ py_str " -> "
                 ++ [sym] ++ [chr_LF])
          end
      end
  end.

Definition make_font_table_cpp (sym_list : list N) (font_map : FontMap)
    (symbol_map : gmap N (list Z)) : result str :=
  let output_table := py_str "const uint8_t USER_FONT_12[] = {" ++ [chr_LF] in
  output_table <- font_rows (font12 font_map) symbol_map sym_list output_table ;;
  let output_table := output_table ++ py_str "};" ++ [chr_LF] in
  let output_table :=
    output_table ++ py_str "const uint8_t USER_FONT_6x8[] = {" ++ [chr_LF] in
  output_table <- font_rows (font06 font_map) symbol_map sym_list output_table ;;
  Ok (output_table ++ py_str "};" ++ [chr_LF]).

(** * Properties *)

Lemma bind_Ok_inv {A B} (r : result A) (k : A -> result B) (b : B) :
  bind r k = Ok b -> exists a, r = Ok a /\ k a = Ok b.
Proof. destruct r as [a|e]; simpl; [eauto | discriminate]. Qed.

Lemma bind_Ok {A B} (r : result A) (k : A -> result B) (a : A) :
  r = Ok a -> bind r k = k a.
Proof. intros ->. reflexivity. Qed.

Lemma bind_Raise_inv {A B} (r : result A) (k : A -> result B) (e : exn) :
  bind r k = Raise e -> r = Raise e \/ exists a, r = Ok a /\ k a = Raise e.
Proof. destruct r as [a|e']; simpl; intros H; [right; eauto | left; congruence]. Qed.

Ltac inv_bind H :=
  let a := fresh "a" in
  let Ha := fresh "Ha" in
  apply bind_Ok_inv in H; destruct H as (a & Ha & H).

(** ** The symbol index encoder *)

Module Encoder.

(** The encoder as the specification words it: one byte below 240, two
    bytes from 240 on. *)
Definition spec_get_bytes_from_font_index (i : Z) : result (list Z) :=
  if i <? 240 then Ok [i]
  else
    let page := (i + 14) / 255 in
    if page >? 15 then Raise (ValueError "page value out of range")
    else Ok [0xF0 + page; ((i + 14) mod 255) + 1].

Example enc_2 : get_bytes_from_font_index 2 = Ok [2].
Proof. reflexivity. Qed.
Example enc_239 : get_bytes_from_font_index 239 = Ok [0xEF].
Proof. reflexivity. Qed.
Example enc_241 : get_bytes_from_font_index 241 = Ok [0xF1; 0x01].
Proof. reflexivity. Qed.
Example enc_495 : get_bytes_from_font_index 495 = Ok [0xF1; 0xFF].
Proof. reflexivity. Qed.
Example enc_496 : get_bytes_from_font_index 496 = Ok [0xF2; 0x01].
Proof. reflexivity. Qed.
Example enc_4065 : get_bytes_from_font_index 4065 = Ok [0xFF; 0xFF].
Proof. reflexivity. Qed.
Example enc_4066 :
  get_bytes_from_font_index 4066 = Raise (ValueError "page value out of range").
Proof. reflexivity. Qed.
Example enc_negative :
  get_bytes_from_font_index (-1) = Raise (ValueError "index must be positive").
Proof. reflexivity. Qed.

(** The page is zero exactly up to index 240. *)
Lemma page_zero_iff (i : Z) : 0 <= i -> ((i + 0x0E) / 0xFF = 0 <-> i <= 240).
Proof. intros Hi. split; intros H; Z.div_mod_to_equations; lia. Qed.

Lemma page_gt_iff (i : Z) : (i + 0x0E) / 0xFF > 0x0F <-> 4066 <= i.
Proof. split; intros H; Z.div_mod_to_equations; lia. Qed.

(** The three outcomes of the encoder, by the range of the index. *)
Lemma get_bytes_single (i : Z) :
  0 <= i <= 240 -> get_bytes_from_font_index i = Ok [i].
Proof.
  intros Hi. unfold get_bytes_from_font_index.
  destruct (Z.ltb_spec i 0); [lia|].
  assert (Hp : (i + 0x0E) / 0xFF = 0) by (apply page_zero_iff; lia).
  rewrite Hp. reflexivity.
Qed.

Lemma get_bytes_double (i : Z) :
  241 <= i <= 4065 ->
  get_bytes_from_font_index i
  = Ok [(i + 14) / 255 + 0xF0; ((i + 14) mod 255) + 1].
Proof.
  intros Hi. unfold get_bytes_from_font_index.
  destruct (Z.ltb_spec i 0); [lia|].
  change 0x0E with 14. change 0xFF with 255. change 0x0F with 15.
  change 0x01 with 1. change 0xF0 with 240.
  assert (1 <= (i + 14) / 255 <= 15) by (Z.div_mod_to_equations; lia).
  assert (0 <= (i + 14) mod 255 < 255) by (apply Z.mod_pos_bound; lia).
  destruct (Z.gtb_spec ((i + 14) / 255) 15); [lia|].
  destruct (Z.eqb_spec ((i + 14) / 255) 0); [lia|].
  destruct (Z.gtb_spec ((i + 14) / 255 + 240) 255); [lia|].
  destruct (Z.gtb_spec ((i + 14) mod 255 + 1) 255); [lia|].
  reflexivity.
Qed.

Lemma get_bytes_raises (i : Z) :
  4066 <= i ->
  get_bytes_from_font_index i = Raise (ValueError "page value out of range").
Proof.
  intros Hi. unfold get_bytes_from_font_index.
  destruct (Z.ltb_spec i 0); [lia|].
  assert ((i + 0x0E) / 0xFF > 0x0F) by (apply page_gt_iff; lia).
  destruct (Z.gtb_spec ((i + 0x0E) / 0xFF) 0x0F); [reflexivity | lia].
Qed.

(** Every byte the encoder returns is a byte. *)
Lemma get_bytes_range (i : Z) (bs : list Z) :
  get_bytes_from_font_index i = Ok bs -> Forall (fun b => 0 <= b <= 255) bs.
Proof.
  intros H.
  destruct (Z.lt_ge_cases i 0) as [Hn|Hn].
  { unfold get_bytes_from_font_index in H.
    destruct (Z.ltb_spec i 0); [discriminate | lia]. }
  destruct (Z.le_gt_cases i 240) as [H1|H1].
  { rewrite get_bytes_single in H by lia. injection H as <-.
    repeat constructor; lia. }
  destruct (Z.le_gt_cases i 4065) as [H2|H2].
  - rewrite get_bytes_double in H by lia. injection H as <-.
    assert (0 <= (i + 14) mod 255 < 255) by (apply Z.mod_pos_bound; lia).
    repeat constructor; try lia; Z.div_mod_to_equations; lia.
  - rewrite get_bytes_raises in H by lia. discriminate.
Qed.

(** C3, as amended. For every index [i >= 0]: up to 240 the encoder
    returns the single byte [i]; from 241 on it returns the leader
    [0xF0 + page] and the trailing byte [((i + 14) mod 255) + 1], where
    [page = (i + 14) div 255]; and it raises exactly when [page > 15]. *)
Theorem get_bytes_from_font_index_cases (i : Z) :
  0 <= i ->
  let page := (i + 14) / 255 in
  (i <= 240 -> get_bytes_from_font_index i = Ok [i])
  /\ (241 <= i -> page <= 15 ->
      get_bytes_from_font_index i = Ok [0xF0 + page; ((i + 14) mod 255) + 1])
  /\ (returns (get_bytes_from_font_index i) = false <-> page > 15).
Proof.
  intros Hi page. subst page.
  split; [|split].
  - intros. apply get_bytes_single. lia.
  - intros H1 H2.
    assert (i <= 4065) by (Z.div_mod_to_equations; lia).
    rewrite get_bytes_double by lia. f_equal. f_equal. lia.
  - rewrite (page_gt_iff i).
    destruct (Z.le_gt_cases i 240) as [H1|H1].
    { rewrite get_bytes_single by lia. simpl. split; [discriminate | lia]. }
    destruct (Z.le_gt_cases i 4065) as [H2|H2].
    + rewrite get_bytes_double by lia. simpl. split; [discriminate | lia].
    + rewrite get_bytes_raises by lia. simpl. split; [lia | reflexivity].
Qed.

Lemma get_bytes_from_font_index_cases_witness :
  0 <= 496
  /\ (496 <= 240 -> get_bytes_from_font_index 496 = Ok [496])
  /\ (241 <= 496 -> (496 + 14) / 255 <= 15 ->
      get_bytes_from_font_index 496
      = Ok [0xF0 + (496 + 14) / 255; ((496 + 14) mod 255) + 1])
  /\ (returns (get_bytes_from_font_index 496) = false <-> (496 + 14) / 255 > 15).
Proof.
  split; [lia|]. apply (get_bytes_from_font_index_cases 496). lia.
Defined.

(** C3 as stated fails at index 240: the code returns the single byte
    0xF0 (the line [0xF0 => 240] of the mapping in the source), where the
    statement asks for the two bytes 0xF0 0xFF. *)
Lemma get_bytes_from_font_index_240 :
  get_bytes_from_font_index 240 = Ok [0xF0]
  /\ spec_get_bytes_from_font_index 240 = Ok [0xF0; 0xFF].
Proof. split; reflexivity. Qed.

(** Away from 240 the code and the specification's wording agree on what
    is returned. *)
Lemma get_bytes_agrees_with_spec (i : Z) (bs : list Z) :
  0 <= i -> i <> 240 ->
  (get_bytes_from_font_index i = Ok bs <-> spec_get_bytes_from_font_index i = Ok bs).
Proof.
  intros Hi Hne. unfold spec_get_bytes_from_font_index.
  destruct (Z.ltb_spec i 240).
  { rewrite get_bytes_single by lia. reflexivity. }
  destruct (Z.le_gt_cases i 4065) as [H2|H2].
  - rewrite get_bytes_double by lia.
    destruct (Z.gtb_spec ((i + 14) / 255) 15) as [Hp|Hp].
    { exfalso. Z.div_mod_to_equations. lia. }
    replace (0xF0 + (i + 14) / 255) with ((i + 14) / 255 + 0xF0) by lia.
    reflexivity.
  - rewrite get_bytes_raises by lia.
    destruct (Z.gtb_spec ((i + 14) / 255) 15) as [Hp|Hp].
    + split; discriminate.
    + exfalso. Z.div_mod_to_equations. lia.
Qed.

(** C2. For every index in the assignable range 2..4065 the encoder
    returns bytes, the decoder maps them back to the index, and no other
    index of the range has the same bytes. *)
Theorem font_index_roundtrip (i : Z) :
  2 <= i <= 4065 ->
  exists bs,
    get_bytes_from_font_index i = Ok bs
    /\ decode_font_index bs = Some i
    /\ (forall j, 2 <= j <= 4065 -> get_bytes_from_font_index j = Ok bs -> j = i).
Proof.
  intros Hi.
  assert (Hdec : forall k bs, 2 <= k <= 4065 ->
            get_bytes_from_font_index k = Ok bs -> decode_font_index bs = Some k).
  { intros k bs Hk H.
    destruct (Z.le_gt_cases k 240).
    - rewrite get_bytes_single in H by lia. injection H as <-. reflexivity.
    - rewrite get_bytes_double in H by lia. injection H as <-. simpl.
      f_equal. Z.div_mod_to_equations. lia. }
  destruct (get_bytes_from_font_index i) as [bs|e] eqn:E.
  - exists bs. split; [reflexivity|]. split; [eauto|].
    intros j Hj Ej. apply Hdec in Ej; [|lia].
    rewrite (Hdec i bs Hi E) in Ej. congruence.
  - exfalso. destruct (Z.le_gt_cases i 240).
    + rewrite get_bytes_single in E by lia. discriminate.
    + rewrite get_bytes_double in E by lia. discriminate.
Qed.

Lemma font_index_roundtrip_witness :
  2 <= 1000 <= 4065
  /\ exists bs,
       get_bytes_from_font_index 1000 = Ok bs
       /\ decode_font_index bs = Some 1000
       /\ (forall j, 2 <= j <= 4065 -> get_bytes_from_font_index j = Ok bs -> j = 1000).
Proof.
  split; [lia|]. apply (font_index_roundtrip 1000). lia.
Defined.

(** C8. Whenever the encoder returns two bytes, the second one lies in
    1..255: it is never 0x00. *)
Theorem second_byte_never_zero (i leader value : Z) :
  0 <= i ->
  get_bytes_from_font_index i = Ok [leader; value] ->
  1 <= value <= 255 /\ value <> 0.
Proof.
  intros Hi H.
  destruct (Z.le_gt_cases i 240) as [H1|H1].
  { rewrite get_bytes_single in H by lia. discriminate. }
  destruct (Z.le_gt_cases i 4065) as [H2|H2].
  - rewrite get_bytes_double in H by lia. injection H as <- <-.
    assert (0 <= (i + 14) mod 255 < 255) by (apply Z.mod_pos_bound; lia).
    lia.
  - rewrite get_bytes_raises in H by lia. discriminate.
Qed.

Lemma second_byte_never_zero_witness :
  0 <= 495
  /\ get_bytes_from_font_index 495 = Ok [0xF1; 0xFF]
  /\ 1 <= 0xFF <= 255 /\ 0xFF <> 0.
Proof.
  split; [lia|]. split; [reflexivity|].
  apply (second_byte_never_zero 495 0xF1 0xFF); [lia | reflexivity].
Defined.

End Encoder.

(** ** The language code validation *)

Module Validation.

(** A match of two codes without regard to case, as the specification
    words it: the two are equal once both are upper-cased. *)
Definition spec_matches_ignoring_case (upper : str -> str) (a b : str) : Prop :=
  upper a = upper b.

(** [s[len(p):-len(q)]] takes [p] and [q] off [p + c + q]. *)
Lemma py_slice_middle {A} (p c q : list A) :
  q <> [] ->
  py_slice (p ++ c ++ q) (Z.of_nat (length p)) (- Z.of_nat (length q)) = c.
Proof.
  intros Hq. unfold py_slice.
  assert (0 < length q)%nat by (destruct q; [congruence | simpl; lia]).
  rewrite !length_app.
  destruct (Z.ltb_spec (Z.of_nat (length p)) 0); [lia|].
  destruct (Z.ltb_spec (- Z.of_nat (length q)) 0); [|lia].
  rewrite Z.min_l by lia. rewrite Z.max_l by lia.
  rewrite Nat2Z.id.
  rewrite drop_app_length.
  replace (Z.to_nat _) with (length c) by lia.
  apply take_app_length.
Qed.

Lemma filename_lang_code (code : str) :
  py_slice (py_str "translation_" ++ code ++ py_str ".json") 12 (-5) = code.
Proof.
  apply (py_slice_middle (py_str "translation_") code (py_str ".json")).
  discriminate.
Qed.

(** The upper-cased text has no lower-case ASCII letter. *)
Lemma ascii_upper_no_lower (s : str) (c : N) :
  c ∈ ascii_upper s -> ~ (97 <= c <= 122)%N.
Proof.
  unfold ascii_upper. intros Hc.
  apply list_elem_of_fmap in Hc as (x & -> & _).
  destruct (N.leb_spec 97 x); destruct (N.leb_spec x 122); simpl; lia.
Qed.

Lemma ascii_upper_not_missing (s : str) : ascii_upper s <> py_str "(missing)".
Proof.
  intros H. apply (ascii_upper_no_lower s 109%N); [|lia].
  rewrite H. vm_compute. repeat constructor.
Qed.

Section WithUpper.

Variable upper : str -> str.

(** No upper-cased text is the stand-in ["(missing)"], which has
    lower-case letters. *)
Hypothesis upper_not_missing : forall s, upper s <> py_str "(missing)".

(** What [validate_langcode_matches_content] compares. *)
Lemma validate_Ok_iff (filename : str) (content : gmap str json) :
  validate_langcode_matches_content upper filename (JObj content) = Ok tt
  <-> content !! py_str "languageCode"
      = Some (JStr (upper (py_slice filename 12 (-5)))).
Proof.
  unfold validate_langcode_matches_content.
  destruct (content !! py_str "languageCode") as [v|] eqn:E; cbn [bind].
  - destruct v; try (split; [discriminate | congruence]).
    destruct (decide (upper (py_slice filename 12 (-5)) <> s)) as [Hne|Heq].
    + split; [discriminate | congruence].
    + apply dec_stable in Heq. subst s. split; reflexivity.
  - destruct (decide _) as [Hne|Heq]; split; try discriminate.
    exfalso. apply Heq, upper_not_missing.
Qed.

Lemma validate_raises (filename : str) (content : gmap str json) :
  validate_langcode_matches_content upper filename (JObj content) <> Ok tt ->
  validate_langcode_matches_content upper filename (JObj content)
  = Raise (ValueError "Invalid languageCode").
Proof.
  unfold validate_langcode_matches_content.
  destruct (content !! py_str "languageCode") as [v|]; cbn [bind].
  - destruct v; try reflexivity. destruct (decide _); [reflexivity | congruence].
  - destruct (decide _); [reflexivity | congruence].
Qed.

(** A document that is no [dict] takes no index ["languageCode"]. *)
Lemma validate_not_a_dict (filename : str) (content : json) :
  (forall o, content <> JObj o) ->
  validate_langcode_matches_content upper filename content = Raise TypeError.
Proof.
  intros Hno. unfold validate_langcode_matches_content.
  destruct content; try reflexivity. exfalso. exact (Hno _ eq_refl).
Qed.

(** C10, as amended. For a file named [translation_<CODE>.json] the
    validation succeeds if and only if the document has a [languageCode]
    that is a string equal to the upper-cased [<CODE>]; otherwise it
    raises, and a run of [main] that loaded the document ends with that
    error whatever [write_language] is: no symbol processing has begun. *)
Theorem validate_langcode_matches_content_iff (code : str) (content : gmap str json) :
  (validate_langcode_matches_content upper
     (py_str "translation_" ++ code ++ py_str ".json") (JObj content) = Ok tt
   <-> content !! py_str "languageCode" = Some (JStr (upper code)))
  /\ (content !! py_str "languageCode" <> Some (JStr (upper code)) ->
      forall (Out : Type) (load_json : str -> result json)
             (write_language : json -> result Out),
        load_json (py_str "translation_" ++ code ++ py_str ".json")
        = Ok (JObj content) ->
        main upper load_json write_language code
        = Raise (ValueError "Invalid languageCode")).
Proof.
  pose proof (validate_Ok_iff (py_str "translation_" ++ code ++ py_str ".json") content)
    as Hiff.
  rewrite filename_lang_code in Hiff.
  split; [exact Hiff|].
  intros Hne Out load_json write_language Hload.
  unfold main, read_translation. rewrite Hload.
  rewrite validate_raises; [reflexivity|].
  intros Hok. apply Hne, Hiff, Hok.
Qed.

End WithUpper.

Lemma validate_langcode_matches_content_iff_witness :
  (forall s, ascii_upper s <> py_str "(missing)")
  /\ (validate_langcode_matches_content ascii_upper
        (py_str "translation_" ++ py_str "zh_cn" ++ py_str ".json")
        (JObj {[ py_str "languageCode" := JStr (py_str "ZH_CN") ]}) = Ok tt
      <-> ({[ py_str "languageCode" := JStr (py_str "ZH_CN") ]} : gmap str json)
            !! py_str "languageCode"
          = Some (JStr (ascii_upper (py_str "zh_cn"))))
  /\ (({[ py_str "languageCode" := JStr (py_str "ZH_CN") ]} : gmap str json)
        !! py_str "languageCode"
      <> Some (JStr (ascii_upper (py_str "zh_cn"))) ->
      forall (Out : Type) (load_json : str -> result json)
             (write_language : json -> result Out),
        load_json (py_str "translation_" ++ py_str "zh_cn" ++ py_str ".json")
        = Ok (JObj {[ py_str "languageCode" := JStr (py_str "ZH_CN") ]}) ->
        main ascii_upper load_json write_language (py_str "zh_cn")
        = Raise (ValueError "Invalid languageCode")).
Proof.
  split; [exact ascii_upper_not_missing|].
  exact (validate_langcode_matches_content_iff ascii_upper ascii_upper_not_missing
           (py_str "zh_cn") {[ py_str "languageCode" := JStr (py_str "ZH_CN") ]}).
Defined.

(** C10 as stated fails: the file [translation_EN.json] with the
    [languageCode] "en" matches without regard to case, and is refused. *)
Lemma validate_langcode_is_case_sensitive :
  spec_matches_ignoring_case ascii_upper (py_str "en") (py_str "EN")
  /\ validate_langcode_matches_content ascii_upper (py_str "translation_EN.json")
       (JObj {[ py_str "languageCode" := JStr (py_str "en") ]})
     = Raise (ValueError "Invalid languageCode").
Proof. split; reflexivity. Qed.

(** The case of the file name does not matter, that of the field does. *)
Example validate_lower_case_filename :
  validate_langcode_matches_content ascii_upper (py_str "translation_en.json")
    (JObj {[ py_str "languageCode" := JStr (py_str "EN") ]})
  = Ok tt.
Proof. reflexivity. Qed.

Example validate_missing_field :
  validate_langcode_matches_content ascii_upper (py_str "translation_EN.json")
    (JObj ∅)
  = Raise (ValueError "Invalid languageCode").
Proof. reflexivity. Qed.

Example validate_number_field :
  validate_langcode_matches_content ascii_upper (py_str "translation_EN.json")
    (JObj {[ py_str "languageCode" := JNum 7 ]})
  = Raise (ValueError "Invalid languageCode").
Proof. reflexivity. Qed.

(** A mismatch ends [main] before [write_language] is entered; a file
    that does not parse ends it with status 2. *)
Example main_stops_on_mismatch :
  main ascii_upper
    (fun _ => Ok (JObj {[ py_str "languageCode" := JStr (py_str "en") ]}))
    (fun _ => Ok tt) (py_str "EN")
  = Raise (ValueError "Invalid languageCode").
Proof. reflexivity. Qed.

Example main_runs_on_match :
  main ascii_upper
    (fun _ => Ok (JObj {[ py_str "languageCode" := JStr (py_str "EN") ]}))
    (fun _ => Ok tt) (py_str "en")
  = Ok tt.
Proof. reflexivity. Qed.

(** A file that holds a JSON list is loaded, and refused by the index
    [content["languageCode"]]. *)
Example main_raises_on_list :
  main (Out := unit) ascii_upper (fun _ => Ok (JList [])) (fun _ => Ok tt) (py_str "EN")
  = Raise TypeError.
Proof. reflexivity. Qed.

Example main_exits_on_decode_error :
  main (Out := unit) ascii_upper (fun _ => Raise JSONDecodeError)
    (fun _ => Ok tt) (py_str "EN")
  = Raise (SystemExit 2 (FailedToDecode (py_str "translation_EN.json"))).
Proof. reflexivity. Qed.

End Validation.

(** ** The glyph rasterizer *)

Module Rasterizer.

(** Whether the cell [(x, y)] of the 12x16 target is lit. *)
Definition cell_lit (glyph : Glyph) (x y : Z) : bool :=
  let adj_x := x - src_left glyph in
  let adj_y := y - (16 - src_h glyph - src_bottom glyph - 3) in
  (0 <=? adj_x) && (adj_x <? src_w glyph)
  && (0 <=? adj_y) && (adj_y <? src_h glyph)
  && Z.testbit (nth (Z.to_nat (src_h glyph - adj_y - 1)) (data glyph) 0)
       (src_w glyph - adj_x - 1).

(** The byte of column [c] of a block, bit by bit. *)
Definition column_byte (glyph : Glyph) (block c : Z) : Z :=
  fold_left
    (fun b r => if cell_lit glyph c (r + 8 * block) then Z.lor b (Z.shiftl 0x01 r) else b)
    (range 8) 0.

Lemma land_bit_eqb (row k : Z) :
  0 <= k -> (Z.land row (Z.shiftl 1 k) =? 0) = negb (Z.testbit row k).
Proof.
  intros Hk. rewrite Z.shiftl_1_l.
  destruct (Z.testbit row k) eqn:E; simpl.
  - apply Z.eqb_neq. intros H0.
    assert (Hb : Z.testbit (Z.land row (2 ^ k)) k = true).
    { rewrite Z.land_spec, E, Z.pow2_bits_true by lia. reflexivity. }
    rewrite H0, Z.bits_0 in Hb. discriminate.
  - apply Z.eqb_eq. apply Z.bits_inj'. intros n Hn.
    rewrite Z.land_spec, Z.bits_0, Z.pow2_bits_eqb by lia.
    destruct (Z.eqb_spec k n) as [<-|]; [rewrite E; reflexivity | apply andb_false_r].
Qed.

Lemma py_index_in_range {A} (l : list A) (k : Z) (d : A) :
  0 <= k < Z.of_nat (length l) -> py_index l k = Ok (nth (Z.to_nat k) l d).
Proof.
  intros Hk. unfold py_index.
  destruct (Z.ltb_spec k 0); [lia|].
  destruct (Z.ltb_spec k 0); [lia|].
  destruct (Z.leb_spec (Z.of_nat (length l)) k); [lia|]. cbn [orb].
  destruct (l !! Z.to_nat k) as [a|] eqn:E.
  - rewrite (nth_lookup_Some _ _ d _ E). reflexivity.
  - apply lookup_ge_None in E. lia.
Qed.

Section WithGlyph.

Variable glyph : Glyph.

(** [bdflib] stores one row of bits for each row of the bounding box. *)
Hypothesis data_rows : Z.of_nat (length (data glyph)) = src_h glyph.

Lemma get_cell_lit (x y : Z) : get_cell glyph x y = Ok (cell_lit glyph x y).
Proof.
  unfold get_cell, cell_lit.
  set (adj_x := x - src_left glyph).
  set (adj_y := y - (dst_h - src_h glyph - src_bottom glyph - 3)).
  change (y - (16 - src_h glyph - src_bottom glyph - 3)) with adj_y.
  destruct (Z.ltb_spec adj_x 0); destruct (Z.geb_spec adj_x (src_w glyph));
    destruct (Z.leb_spec 0 adj_x); destruct (Z.ltb_spec adj_x (src_w glyph));
    try lia; simpl; try reflexivity.
  destruct (Z.ltb_spec adj_y 0); destruct (Z.geb_spec adj_y (src_h glyph));
    destruct (Z.leb_spec 0 adj_y); destruct (Z.ltb_spec adj_y (src_h glyph));
    try lia; simpl; try reflexivity.
  rewrite (py_index_in_range _ _ 0) by lia. cbn [bind].
  rewrite land_bit_eqb by lia.
  destruct (Z.testbit _ _); reflexivity.
Qed.

Lemma column_loop_fold (block c : Z) (rs : list Z) (b : Z) :
  column_loop glyph block c rs b
  = Ok (fold_left
          (fun b r => if cell_lit glyph c (r + 8 * block)
                      then Z.lor b (Z.shiftl 0x01 r) else b) rs b).
Proof.
  revert b. induction rs as [|r rs IH]; intros b; simpl; [reflexivity|].
  rewrite get_cell_lit. simpl. apply IH.
Qed.

Lemma cells_loop_map (cells : list (Z * Z)) (s : list Z) :
  cells_loop glyph cells s
  = Ok (s ++ map (fun bc => column_byte glyph bc.1 bc.2) cells).
Proof.
  revert s. induction cells as [|[block c] cells IH]; intros s; cbn [cells_loop map].
  - rewrite app_nil_r. reflexivity.
  - rewrite column_loop_fold. cbn [bind]. rewrite IH, <- app_assoc. reflexivity.
Qed.

Lemma get_cjk_glyph_bytes_map :
  get_cjk_glyph_bytes glyph
  = Ok (map (fun bc => column_byte glyph bc.1 bc.2) glyph_cells).
Proof. unfold get_cjk_glyph_bytes. apply cells_loop_map. Qed.

End WithGlyph.

(** The bits of a byte that is built by or-ing in [1 << r]. *)
Lemma fold_lor_testbit (lit : Z -> bool) (rs : list Z) (b k : Z) :
  0 <= k -> Forall (fun r => 0 <= r) rs ->
  Z.testbit (fold_left (fun b r => if lit r then Z.lor b (Z.shiftl 0x01 r) else b) rs b) k
  = Z.testbit b k || existsb (fun r => (r =? k) && lit r) rs.
Proof.
  intros Hk. revert b. induction rs as [|r rs IH]; intros b Hrs; simpl.
  - rewrite orb_false_r. reflexivity.
  - inversion Hrs as [|? ? Hr Hrs']; subst. rewrite IH by assumption.
    destruct (lit r); simpl.
    + rewrite Z.lor_spec, Z.shiftl_1_l, Z.pow2_bits_eqb by lia.
      rewrite andb_true_r, orb_assoc. reflexivity.
    + rewrite andb_false_r. reflexivity.
Qed.

Lemma fold_lor_nonneg (lit : Z -> bool) (rs : list Z) (b : Z) :
  0 <= b -> Forall (fun r => 0 <= r) rs ->
  0 <= fold_left (fun b r => if lit r then Z.lor b (Z.shiftl 0x01 r) else b) rs b.
Proof.
  revert b. induction rs as [|r rs IH]; intros b Hb Hrs; simpl; [assumption|].
  inversion Hrs as [|? ? Hr Hrs']; subst. apply IH; [|assumption].
  destruct (lit r); [|assumption].
  apply Z.lor_nonneg. split; [assumption|]. apply Z.shiftl_nonneg. lia.
Qed.

Lemma range_8_nonneg : Forall (fun r => 0 <= r) (range 8).
Proof. repeat constructor; lia. Qed.

Lemma column_byte_testbit (glyph : Glyph) (block c r : Z) :
  0 <= r ->
  Z.testbit (column_byte glyph block c) r
  = (r <? 8) && cell_lit glyph c (r + 8 * block).
Proof.
  intros Hr. unfold column_byte.
  rewrite (fold_lor_testbit (fun r => cell_lit glyph c (r + 8 * block)))
    by (auto using range_8_nonneg).
  rewrite Z.bits_0. change (range 8) with [0; 1; 2; 3; 4; 5; 6; 7].
  cbn [existsb orb].
  destruct (Z.ltb_spec r 8) as [Hlt|Hge]; cbn [andb].
  - assert (Hc : r = 0 \/ r = 1 \/ r = 2 \/ r = 3 \/ r = 4 \/ r = 5 \/ r = 6 \/ r = 7)
      by lia.
    destruct Hc as [->|[->|[->|[->|[->|[->|[->| ->]]]]]]];
      cbn [Z.eqb Pos.eqb andb orb]; rewrite ?orb_false_r; reflexivity.
  - repeat match goal with
           | |- context [?a =? r] =>
               destruct (Z.eqb_spec a r); [lia|]
           end.
    reflexivity.
Qed.

Lemma column_byte_range (glyph : Glyph) (block c : Z) :
  0 <= column_byte glyph block c <= 255.
Proof.
  assert (Hn : 0 <= column_byte glyph block c).
  { unfold column_byte. apply fold_lor_nonneg; [lia | apply range_8_nonneg]. }
  split; [assumption|].
  assert (Hm : column_byte glyph block c = column_byte glyph block c mod 2 ^ 8).
  { apply Z.bits_inj'. intros n Hn'.
    rewrite Z.testbit_mod_pow2 by lia.
    rewrite column_byte_testbit by lia.
    destruct (n <? 8); reflexivity. }
  pose proof (Z.mod_pos_bound (column_byte glyph block c) (2 ^ 8) ltac:(lia)).
  change (2 ^ 8) with 256 in *. lia.
Qed.

Lemma glyph_cells_lookup (block x : Z) :
  0 <= block < 2 -> 0 <= x < 12 ->
  glyph_cells !! Z.to_nat (12 * block + x) = Some (block, x).
Proof.
  intros Hb Hx.
  assert (Hb' : block = 0 \/ block = 1) by lia.
  assert (Hx' : x = 0 \/ x = 1 \/ x = 2 \/ x = 3 \/ x = 4 \/ x = 5 \/ x = 6
                \/ x = 7 \/ x = 8 \/ x = 9 \/ x = 10 \/ x = 11) by lia.
  destruct Hb' as [-> | ->];
    destruct Hx' as [->|[->|[->|[->|[->|[->|[->|[->|[->|[->|[->| ->]]]]]]]]]]];
    reflexivity.
Qed.

(** Whether a cell is lit, in the words of the bounding box: the cell lies
    in the box and its bit is set in the row of the box it falls in. *)
Lemma cell_lit_spec (glyph : Glyph) (x y : Z) :
  cell_lit glyph x y = true
  <-> 0 <= x - src_left glyph < src_w glyph
      /\ 0 <= y - (16 - src_h glyph - src_bottom glyph - 3) < src_h glyph
      /\ exists row,
           data glyph
             !! Z.to_nat (src_h glyph
                          - (y - (16 - src_h glyph - src_bottom glyph - 3)) - 1)
           = Some row
           /\ Z.testbit row (src_w glyph - (x - src_left glyph) - 1) = true.
Proof.
  unfold cell_lit. cbv zeta.
  set (adj_x := x - src_left glyph).
  set (adj_y := y - (16 - src_h glyph - src_bottom glyph - 3)).
  rewrite !andb_true_iff, !Z.leb_le, !Z.ltb_lt.
  split.
  - intros [[[[H1 H2] H3] H4] H5]. repeat split; try assumption.
    rewrite nth_lookup in H5.
    destruct (data glyph !! Z.to_nat (src_h glyph - adj_y - 1)) as [row|].
    + exists row. split; [reflexivity | exact H5].
    + simpl in H5. rewrite Z.bits_0 in H5. discriminate.
  - intros ([H1 H2] & [H3 H4] & row & E & H5). repeat split; try assumption.
    rewrite (nth_lookup_Some _ _ 0 _ E). exact H5.
Qed.

Lemma py_index_past_the_end {A} (l : list A) (k : Z) :
  0 <= k -> Z.of_nat (length l) <= k -> py_index l k = Raise IndexError.
Proof.
  intros H0 Hk. unfold py_index.
  destruct (Z.ltb_spec k 0); [lia|].
  destruct (Z.ltb_spec k 0); [lia|].
  destruct (Z.leb_spec (Z.of_nat (length l)) k); [reflexivity | lia].
Qed.

(** A cell is read as it is lit, unless its row is missing from [data]:
    the one way in which [get_cell] raises. *)
Lemma get_cell_cases (glyph : Glyph) (x y : Z) :
  get_cell glyph x y = Ok (cell_lit glyph x y)
  \/ (get_cell glyph x y = Raise IndexError
      /\ Z.of_nat (length (data glyph)) < src_h glyph).
Proof.
  unfold get_cell, cell_lit.
  set (adj_x := x - src_left glyph).
  set (adj_y := y - (dst_h - src_h glyph - src_bottom glyph - 3)).
  change (y - (16 - src_h glyph - src_bottom glyph - 3)) with adj_y.
  destruct (Z.ltb_spec adj_x 0); destruct (Z.geb_spec adj_x (src_w glyph));
    destruct (Z.leb_spec 0 adj_x); destruct (Z.ltb_spec adj_x (src_w glyph));
    try lia; simpl; try (left; reflexivity).
  destruct (Z.ltb_spec adj_y 0); destruct (Z.geb_spec adj_y (src_h glyph));
    destruct (Z.leb_spec 0 adj_y); destruct (Z.ltb_spec adj_y (src_h glyph));
    try lia; simpl; try (left; reflexivity).
  destruct (Z.lt_ge_cases (src_h glyph - adj_y - 1) (Z.of_nat (length (data glyph))))
    as [Hin|Hout].
  - left. rewrite (py_index_in_range _ _ 0) by lia. cbn [bind].
    rewrite land_bit_eqb by lia.
    destruct (Z.testbit _ _); reflexivity.
  - right. rewrite py_index_past_the_end by lia. split; [reflexivity | lia].
Qed.

Lemma column_loop_cases (glyph : Glyph) (block c : Z) (rs : list Z) (b : Z) :
  column_loop glyph block c rs b
  = Ok (fold_left
          (fun b r => if cell_lit glyph c (r + 8 * block)
                      then Z.lor b (Z.shiftl 0x01 r) else b) rs b)
  \/ (column_loop glyph block c rs b = Raise IndexError
      /\ Z.of_nat (length (data glyph)) < src_h glyph).
Proof.
  revert b. induction rs as [|r rs IH]; intros b; cbn [column_loop fold_left].
  - left. reflexivity.
  - destruct (get_cell_cases glyph c (r + 8 * block)) as [-> | [-> Hshort]];
      cbn [bind]; [apply IH | right; auto].
Qed.

Lemma cells_loop_cases (glyph : Glyph) (cells : list (Z * Z)) (s : list Z) :
  cells_loop glyph cells s
  = Ok (s ++ map (fun bc => column_byte glyph bc.1 bc.2) cells)
  \/ (cells_loop glyph cells s = Raise IndexError
      /\ Z.of_nat (length (data glyph)) < src_h glyph).
Proof.
  revert s. induction cells as [|[block c] cells IH]; intros s; cbn [cells_loop map].
  - left. rewrite app_nil_r. reflexivity.
  - destruct (column_loop_cases glyph block c (range 8) 0) as [-> | [-> Hshort]];
      cbn [bind]; [|right; auto].
    destruct (IH (s ++ [fold_left
                          (fun b r => if cell_lit glyph c (r + 8 * block)
                                      then Z.lor b (Z.shiftl 0x01 r) else b)
                          (range 8) 0])) as [-> | [-> Hshort]]; [|right; auto].
    left. rewrite <- app_assoc. reflexivity.
Qed.

(** What [get_cjk_glyph] does for a glyph of the font: it prints the 24
    column bytes, or a row is missing and it raises [IndexError]. *)
Lemma get_cjk_glyph_cases (cjk_font : gmap Z Glyph) (sym : N) (glyph : Glyph) :
  cjk_font !! Z.of_N sym = Some glyph ->
  get_cjk_glyph cjk_font sym
  = Ok (foldl (fun s b => s +:+ "0x" +:+ format_02X b +:+ ",") String.EmptyString
          (map (fun bc => column_byte glyph bc.1 bc.2) glyph_cells))
  \/ (get_cjk_glyph cjk_font sym = Raise IndexError
      /\ Z.of_nat (length (data glyph)) < src_h glyph).
Proof.
  intros Hg. unfold get_cjk_glyph, get_cjk_glyph_bytes. rewrite Hg.
  destruct (cells_loop_cases glyph glyph_cells []) as [-> | [-> Hshort]];
    cbn [bind]; [left; reflexivity | right; auto].
Qed.

(** The 24 column bytes, bit by bit. *)
Lemma column_bytes_spec (glyph : Glyph) (block x : Z) :
  0 <= block < 2 -> 0 <= x < 12 ->
  exists b,
    map (fun bc => column_byte glyph bc.1 bc.2) glyph_cells
      !! Z.to_nat (12 * block + x) = Some b
    /\ 0 <= b <= 255
    /\ forall r, 0 <= r < 8 ->
       let y := r + 8 * block in
       let adj_x := x - src_left glyph in
       let adj_y := y - (16 - src_h glyph - src_bottom glyph - 3) in
       (Z.testbit b r = true
        <-> 0 <= adj_x < src_w glyph
            /\ 0 <= adj_y < src_h glyph
            /\ exists row,
                 data glyph !! Z.to_nat (src_h glyph - adj_y - 1) = Some row
                 /\ Z.testbit row (src_w glyph - adj_x - 1) = true).
Proof.
  intros Hb Hx. exists (column_byte glyph block x).
  split.
  { rewrite list_lookup_fmap, glyph_cells_lookup by assumption. reflexivity. }
  split; [apply column_byte_range|].
  intros r Hr y adj_x adj_y.
  rewrite column_byte_testbit by lia.
  destruct (Z.ltb_spec r 8); [|lia]. cbn [andb].
  apply cell_lit_spec.
Qed.

(** C9. For every glyph of the font, [get_cjk_glyph] produces the text of
    exactly 24 bytes, each printed as [0xNN,]: the byte of column [x] of
    block [block] is at position [12 * block + x], it lies in 0..255, and
    its bit [r] is set if and only if, for [y = r + 8 * block], the
    adjusted [x - left_offset] lies in [0, width), the adjusted
    [y - (16 - height - bottom_offset - 3)] lies in [0, height), and bit
    [width - adj_x - 1] of the source row [height - adj_y - 1] is set.
    It returns whenever [data] has a row for each row of the bounding
    box; the one way in which it does not return is the [IndexError] of a
    glyph with fewer rows than its box is high. *)
Theorem get_cjk_glyph_spec (cjk_font : gmap Z Glyph) (sym : N) (glyph : Glyph) :
  cjk_font !! Z.of_N sym = Some glyph ->
  (src_h glyph <= Z.of_nat (length (data glyph)) ->
   exists text, get_cjk_glyph cjk_font sym = Ok text)
  /\ (forall e, get_cjk_glyph cjk_font sym = Raise e ->
      e = IndexError /\ Z.of_nat (length (data glyph)) < src_h glyph)
  /\ (forall text, get_cjk_glyph cjk_font sym = Ok text ->
      exists bs,
        text = foldl (fun s b => s +:+ "0x" +:+ format_02X b +:+ ",")
                 String.EmptyString bs
        /\ length bs = 24%nat
        /\ forall block x, 0 <= block < 2 -> 0 <= x < 12 ->
           exists b,
             bs !! Z.to_nat (12 * block + x) = Some b
             /\ 0 <= b <= 255
             /\ forall r, 0 <= r < 8 ->
                let y := r + 8 * block in
                let adj_x := x - src_left glyph in
                let adj_y := y - (16 - src_h glyph - src_bottom glyph - 3) in
                (Z.testbit b r = true
                 <-> 0 <= adj_x < src_w glyph
                     /\ 0 <= adj_y < src_h glyph
                     /\ exists row,
                          data glyph !! Z.to_nat (src_h glyph - adj_y - 1) = Some row
                          /\ Z.testbit row (src_w glyph - adj_x - 1) = true)).
Proof.
  intros Hg.
  destruct (get_cjk_glyph_cases cjk_font sym glyph Hg) as [HOk | [HRaise Hshort]].
  - split; [intros _; eauto|]. split; [intros e He; congruence|].
    intros text Htext. rewrite HOk in Htext. injection Htext as <-.
    exists (map (fun bc => column_byte glyph bc.1 bc.2) glyph_cells).
    split; [reflexivity|]. split; [reflexivity|].
    apply column_bytes_spec.
  - split; [intros Hrows; lia|]. split.
    + intros e He. rewrite HRaise in He. injection He as <-. auto.
    + intros text Htext. congruence.
Qed.

(** The text that [get_cjk_glyph] returns is these bytes, each printed as
    [0xNN,]. *)
Lemma get_cjk_glyph_text (cjk_font : gmap Z Glyph) (sym : N) (glyph : Glyph)
    (bs : list Z) :
  cjk_font !! Z.of_N sym = Some glyph ->
  get_cjk_glyph_bytes glyph = Ok bs ->
  get_cjk_glyph cjk_font sym
  = Ok (foldl (fun s b => s +:+ "0x" +:+ format_02X b +:+ ",") String.EmptyString bs).
Proof. intros Hg Hb. unfold get_cjk_glyph. rewrite Hg, Hb. reflexivity. Qed.

(** A 3x3 glyph: the rows, bottom first, are [..#], [.#.] and [###]. *)
Definition sample_glyph : Glyph :=
  {| data := [1; 2; 7]; src_left := 1; src_bottom := 0; src_w := 3; src_h := 3 |}.

Lemma get_cjk_glyph_spec_witness :
  ({[ 20013 := sample_glyph ]} : gmap Z Glyph) !! Z.of_N 20013 = Some sample_glyph
  /\ (src_h sample_glyph <= Z.of_nat (length (data sample_glyph)) ->
      exists text, get_cjk_glyph {[ 20013 := sample_glyph ]} 20013%N = Ok text)
  /\ (forall e, get_cjk_glyph {[ 20013 := sample_glyph ]} 20013%N = Raise e ->
      e = IndexError /\ Z.of_nat (length (data sample_glyph)) < src_h sample_glyph)
  /\ (forall text, get_cjk_glyph {[ 20013 := sample_glyph ]} 20013%N = Ok text ->
      exists bs,
        text = foldl (fun s b => s +:+ "0x" +:+ format_02X b +:+ ",")
                 String.EmptyString bs
        /\ length bs = 24%nat
        /\ forall block x, 0 <= block < 2 -> 0 <= x < 12 ->
           exists b,
             bs !! Z.to_nat (12 * block + x) = Some b
             /\ 0 <= b <= 255
             /\ forall r, 0 <= r < 8 ->
                let y := r + 8 * block in
                let adj_x := x - src_left sample_glyph in
                let adj_y :=
                  y - (16 - src_h sample_glyph - src_bottom sample_glyph - 3) in
                (Z.testbit b r = true
                 <-> 0 <= adj_x < src_w sample_glyph
                     /\ 0 <= adj_y < src_h sample_glyph
                     /\ exists row,
                          data sample_glyph
                            !! Z.to_nat (src_h sample_glyph - adj_y - 1)
                          = Some row
                          /\ Z.testbit row (src_w sample_glyph - adj_x - 1) = true)).
Proof.
  split; [reflexivity|].
  exact (get_cjk_glyph_spec {[ 20013 := sample_glyph ]} 20013 sample_glyph eq_refl).
Defined.

(** The glyph lands in rows 10..12 of columns 1..3, all in the lower block. *)
Example sample_glyph_bytes :
  get_cjk_glyph_bytes sample_glyph
  = Ok [0; 0; 0; 0; 0; 0; 0; 0; 0; 0; 0; 0;
        0; 4; 12; 20; 0; 0; 0; 0; 0; 0; 0; 0].
Proof. reflexivity. Qed.

Example sample_glyph_text :
  get_cjk_glyph {[ 20013 := sample_glyph ]} 20013%N
  = Ok ("0x00,0x00,0x00,0x00,0x00,0x00,0x00,0x00,0x00,0x00,0x00,0x00,"
        +:+ "0x00,0x04,0x0C,0x14,0x00,0x00,0x00,0x00,0x00,0x00,0x00,0x00,").
Proof. reflexivity. Qed.

Example missing_glyph :
  get_cjk_glyph {[ 20013 := sample_glyph ]} 20014%N = Raise KeyError.
Proof. reflexivity. Qed.

(** With fewer rows than the bounding box says, reading a row fails. *)
Example short_data_raises :
  get_cjk_glyph_bytes
    {| data := [1]; src_left := 0; src_bottom := 0; src_w := 1; src_h := 2 |}
  = Raise IndexError.
Proof. reflexivity. Qed.

Example short_data_glyph_raises :
  get_cjk_glyph
    {[ 20013 := {| data := [1]; src_left := 0; src_bottom := 0;
                   src_w := 1; src_h := 2 |} ]} 20013%N
  = Raise IndexError.
Proof. reflexivity. Qed.

End Rasterizer.

(** ** [sorted] sorts *)

(** [before x y l]: [x] occurs in [l] at a position before one of [y]. *)
Definition before {A} (x y : A) (l : list A) : Prop :=
  exists l1 l2 l3, l = l1 ++ x :: l2 ++ y :: l3.

Section Sorted.

Context {A : Type} (leb : A -> A -> bool).

Lemma insert_by_Permutation (x : A) (l : list A) :
  Permutation (insert_by leb x l) (x :: l).
Proof.
  induction l as [|y l IH]; simpl; [reflexivity|].
  destruct (leb x y); [reflexivity|].
  rewrite IH. apply perm_swap.
Qed.

Lemma sorted_Permutation (l : list A) : Permutation (sorted leb l) l.
Proof.
  induction l as [|x l IH]; simpl; [reflexivity|].
  rewrite insert_by_Permutation, IH. reflexivity.
Qed.

Hypothesis leb_total : forall x y, leb x y = true \/ leb y x = true.
Hypothesis leb_trans : forall x y z, leb x y = true -> leb y z = true -> leb x z = true.

Lemma insert_by_StronglySorted (x : A) (l : list A) :
  StronglySorted (fun a b => leb a b = true) l ->
  StronglySorted (fun a b => leb a b = true) (insert_by leb x l).
Proof.
  induction l as [|y l IH]; intros Hs; simpl.
  - constructor; constructor.
  - inversion Hs as [|? ? Hs' Hall]; subst.
    destruct (leb x y) eqn:E.
    + constructor; [assumption|]. constructor; [assumption|].
      eapply Forall_impl; [exact Hall|]. intros z Hz. simpl in Hz. eauto.
    + constructor; [apply IH; assumption|].
      rewrite insert_by_Permutation. constructor; [|assumption].
      destruct (leb_total x y); congruence.
Qed.

Lemma sorted_StronglySorted (l : list A) :
  StronglySorted (fun a b => leb a b = true) (sorted leb l).
Proof.
  induction l as [|x l IH]; simpl; [constructor|].
  apply insert_by_StronglySorted, IH.
Qed.

End Sorted.

Lemma StronglySorted_before {A} (R : A -> A -> Prop) (x y : A) (l : list A) :
  StronglySorted R l -> before x y l -> R x y.
Proof.
  intros Hs (l1 & l2 & l3 & ->).
  apply StronglySorted_app_1_r in Hs.
  inversion Hs as [|? ? _ Hall]; subst.
  rewrite Forall_forall in Hall. apply Hall.
  apply elem_of_app. right. left.
Qed.

Lemma before_or {A} (x y : A) (l : list A) :
  x ∈ l -> y ∈ l -> x <> y -> before x y l \/ before y x l.
Proof.
  intros Hx Hy Hne.
  apply list_elem_of_split in Hx as (l1 & l2 & ->).
  apply elem_of_app in Hy as [Hy|Hy].
  - right. apply list_elem_of_split in Hy as (m1 & m2 & ->).
    exists m1, m2, l2. rewrite <- app_assoc. reflexivity.
  - apply elem_of_cons in Hy as [Hy|Hy]; [congruence|].
    left. apply list_elem_of_split in Hy as (m1 & m2 & ->).
    exists l1, m1, m2. reflexivity.
Qed.

Lemma before_rev {A} (x y : A) (l : list A) : before x y l -> before y x (rev l).
Proof.
  intros (l1 & l2 & l3 & ->).
  exists (rev l3), (rev l2), (rev l1).
  rewrite rev_app_distr. simpl. rewrite rev_app_distr. simpl.
  rewrite <- !app_assoc. reflexivity.
Qed.

Lemma before_map {A B} (f : A -> B) (x y : A) (l : list A) :
  before x y l -> before (f x) (f y) (map f l).
Proof.
  intros (l1 & l2 & l3 & ->).
  exists (map f l1), (map f l2), (map f l3).
  rewrite map_app. simpl. rewrite map_app. reflexivity.
Qed.

Lemma before_filter {A} (p : A -> bool) (x y : A) (l : list A) :
  p x = true -> p y = true -> before x y l -> before x y (List.filter p l).
Proof.
  intros Hx Hy (l1 & l2 & l3 & ->).
  exists (List.filter p l1), (List.filter p l2), (List.filter p l3).
  rewrite List.filter_app. simpl. rewrite Hx.
  rewrite List.filter_app. simpl. rewrite Hy. reflexivity.
Qed.

Lemma before_app_l {A} (x y : A) (l k : list A) : before x y l -> before x y (l ++ k).
Proof.
  intros (l1 & l2 & l3 & ->). exists l1, l2, (l3 ++ k).
  rewrite <- !app_assoc. simpl. rewrite <- app_assoc. reflexivity.
Qed.

Lemma before_app_r {A} (x y : A) (l k : list A) : before x y k -> before x y (l ++ k).
Proof.
  intros (l1 & l2 & l3 & ->). exists (l ++ l1), l2, l3.
  rewrite <- app_assoc. reflexivity.
Qed.

Lemma before_app_lr {A} (x y : A) (l k : list A) : x ∈ l -> y ∈ k -> before x y (l ++ k).
Proof.
  intros Hx Hy.
  apply list_elem_of_split in Hx as (l1 & l2 & ->).
  apply list_elem_of_split in Hy as (k1 & k2 & ->).
  exists l1, (l2 ++ k1), k2. rewrite <- !app_assoc. reflexivity.
Qed.

Lemma elem_of_rev_iff {A} (x : A) (l : list A) : x ∈ rev l <-> x ∈ l.
Proof. rewrite !list_elem_of_In. symmetry. apply in_rev. Qed.

(** Positions: [x] stands before [y] at two indices in increasing order. *)
Lemma before_lookup {A} (x y : A) (l : list A) :
  before x y l ->
  exists i j, l !! i = Some x /\ l !! j = Some y /\ (i < j)%nat.
Proof.
  intros (l1 & l2 & l3 & ->).
  exists (length l1), (length l1 + S (length l2))%nat.
  split; [apply list_lookup_middle; reflexivity|].
  split; [|lia].
  rewrite lookup_app_r by lia.
  replace (length l1 + S (length l2) - length l1)%nat with (S (length l2)) by lia.
  simpl. apply list_lookup_middle. reflexivity.
Qed.

(** ** The font map and the symbol table *)

Module FontTable.

(** The exit of [get_font_map_and_table] on too many symbols. *)
Definition is_too_many (e : exn) : bool :=
  match e with
  | SystemExit _ (TooManyUsedSymbols _) => true
  | _ => false
  end.

Definition is_digit (x : N) : bool := bool_decide (x ∈ forced_first_symbols).

(** The symbols of [text_list] that are not forced first. *)
Definition other_symbols (text_list : list N) : list N :=
  List.filter (fun x => negb (is_digit x)) text_list.

Lemma get_bytes_raise (i : Z) (e : exn) :
  get_bytes_from_font_index i = Raise e -> is_too_many e = false.
Proof.
  unfold get_bytes_from_font_index.
  repeat match goal with
         | |- context [if ?c then _ else _] => destruct c
         end; intros H; inversion H; reflexivity.
Qed.

Lemma symbol_loop_raise (syms : list N) (index : Z) (m : gmap N (list Z)) (e : exn) :
  symbol_loop syms index m = Raise e -> is_too_many e = false.
Proof.
  revert index m. induction syms as [|sym rest IH]; intros index m H; simpl in H.
  - discriminate.
  - destruct (m !! sym); [inversion H; reflexivity|].
    apply bind_Raise_inv in H as [H|(b & _ & H)]; [eapply get_bytes_raise | eapply IH]; eauto.
Qed.

Lemma normal_loop_raise (ft fs : gmap N string) (syms : list N) (fm : FontMap) (e : exn) :
  normal_loop ft fs syms fm = Raise e -> is_too_many e = false.
Proof.
  revert fm. induction syms as [|sym rest IH]; intros fm H; simpl in H.
  - discriminate.
  - destruct (ft !! sym); [|inversion H; reflexivity].
    destruct (fs !! sym); [|inversion H; reflexivity].
    eapply IH; eauto.
Qed.

Lemma py_index_raise {A} (l : list A) (k : Z) (e : exn) :
  py_index l k = Raise e -> e = IndexError.
Proof.
  unfold py_index. destruct (_ || _); [congruence|].
  destruct (l !! _); congruence.
Qed.

Lemma get_cell_raise (glyph : Glyph) (x y : Z) (e : exn) :
  get_cell glyph x y = Raise e -> e = IndexError.
Proof.
  unfold get_cell. destruct (_ || _); [discriminate|].
  destruct (_ || _); [discriminate|].
  intros H. apply bind_Raise_inv in H as [H|(row & _ & H)].
  - eapply py_index_raise; eauto.
  - destruct (_ =? _); discriminate.
Qed.

Lemma column_loop_raise (glyph : Glyph) (block c : Z) (rs : list Z) (b : Z) (e : exn) :
  column_loop glyph block c rs b = Raise e -> e = IndexError.
Proof.
  revert b. induction rs as [|r rs IH]; intros b H; cbn [column_loop] in H.
  - discriminate.
  - apply bind_Raise_inv in H as [H|(lit & _ & H)];
      [eapply get_cell_raise | eapply IH]; eauto.
Qed.

Lemma cells_loop_raise (glyph : Glyph) (cells : list (Z * Z)) (s : list Z) (e : exn) :
  cells_loop glyph cells s = Raise e -> e = IndexError.
Proof.
  revert s. induction cells as [|[block c] cells IH]; intros s H; cbn [cells_loop] in H.
  - discriminate.
  - apply bind_Raise_inv in H as [H|(b & _ & H)];
      [eapply column_loop_raise | eapply IH]; eauto.
Qed.

Lemma get_cjk_glyph_raise (cjk_font : gmap Z Glyph) (sym : N) (e : exn) :
  get_cjk_glyph cjk_font sym = Raise e -> is_too_many e = false.
Proof.
  unfold get_cjk_glyph. destruct (cjk_font !! _) as [glyph|].
  - intros H. apply bind_Raise_inv in H as [H|(bs & _ & H)]; [|discriminate].
    apply cells_loop_raise in H. subst e. reflexivity.
  - intros H. inversion H. reflexivity.
Qed.

Lemma cjk_loop_raise (ft : gmap N string) (cjk_font : gmap Z Glyph)
    (syms : list N) (fm : FontMap) (e : exn) :
  cjk_loop ft cjk_font syms fm = Raise e -> is_too_many e = false.
Proof.
  revert fm. induction syms as [|sym rest IH]; intros fm H; cbn [cjk_loop] in H.
  - discriminate.
  - destruct (ft !! sym); [inversion H; reflexivity|].
    apply bind_Raise_inv in H as [H|(line & _ & H)];
      [eapply get_cjk_glyph_raise | eapply IH]; eauto.
Qed.

(** The two filters of [get_font_map_and_table] split the symbols that
    are not forced first. *)
Lemma filter_split_length {A} (p q : A -> bool) (l : list A) :
  (length (List.filter (fun x => p x && q x) l)
   + length (List.filter (fun x => p x && negb (q x)) l))%nat
  = length (List.filter p l).
Proof.
  induction l as [|x l IH]; simpl; [reflexivity|].
  destruct (p x), (q x); simpl; lia.
Qed.

Lemma total_symbol_count_eq (ft : gmap N string) (text_list : list N) :
  total_symbol_count ft text_list
  = 10 + Z.of_nat (length (other_symbols text_list)).
Proof.
  unfold total_symbol_count, ordered_normal_sym_list, ordered_cjk_sym_list, other_symbols.
  rewrite length_app.
  rewrite <- (filter_split_length (fun x => negb (is_digit x))
                (fun x => bool_decide (is_Some (ft !! x))) text_list).
  unfold is_digit. simpl length. lia.
Qed.

(** What a completed [symbol_loop] has done. *)
Lemma symbol_loop_Ok (syms : list N) (index : Z) (m m' : gmap N (list Z)) :
  symbol_loop syms index m = Ok m' ->
  NoDup syms
  /\ (forall s, s ∈ syms -> m !! s = None)
  /\ (forall k s, syms !! k = Some s ->
      exists b, get_bytes_from_font_index (index + Z.of_nat k) = Ok b
                /\ m' !! s = Some b)
  /\ (forall s, s ∉ syms -> m' !! s = m !! s).
Proof.
  revert index m. induction syms as [|sym rest IH]; intros index m H; simpl in H.
  - injection H as <-. repeat split; try constructor.
    + intros s Hs. inversion Hs.
    + intros k s Hk. destruct k; discriminate.
  - destruct (m !! sym) eqn:Em; [discriminate|].
    inv_bind H. apply IH in H as (Hnd & Hfresh & Hpos & Hother).
    assert (Hni : sym ∉ rest).
    { intros Hin. specialize (Hfresh sym Hin).
      rewrite lookup_insert_eq in Hfresh. discriminate. }
    split; [constructor; assumption|].
    split.
    { intros s Hs. apply elem_of_cons in Hs as [->|Hs]; [assumption|].
      specialize (Hfresh s Hs).
      destruct (decide (sym = s)) as [->|Hne]; [contradiction|].
      rewrite lookup_insert_ne in Hfresh by assumption. assumption. }
    split.
    { intros k s Hk. destruct k as [|k]; simpl in Hk.
      - injection Hk as <-. exists a. rewrite Z.add_0_r. split; [assumption|].
        rewrite (Hother sym Hni). apply lookup_insert_eq.
      - destruct (Hpos k s Hk) as (b & Hb & Hm). exists b.
        split; [|assumption].
        replace (index + Z.of_nat (S k)) with (index + 1 + Z.of_nat k) by lia.
        assumption. }
    intros s Hs. rewrite not_elem_of_cons in Hs. destruct Hs as [Hne Hs].
    rewrite (Hother s Hs). apply lookup_insert_ne. congruence.
Qed.

(** The loop completes on distinct fresh symbols while the indices last. *)
Lemma symbol_loop_returns (syms : list N) (index : Z) (m : gmap N (list Z)) :
  NoDup syms -> (forall s, s ∈ syms -> m !! s = None) ->
  0 <= index -> index + Z.of_nat (length syms) <= 4066 ->
  exists m', symbol_loop syms index m = Ok m'.
Proof.
  revert index m. induction syms as [|sym rest IH]; intros index m Hnd Hfresh Hi Hlen.
  - exists m. reflexivity.
  - simpl in *. inversion Hnd as [|? ? Hni Hnd']; subst.
    rewrite (Hfresh sym) by left.
    assert (Hb : exists b, get_bytes_from_font_index index = Ok b).
    { destruct (Z.le_gt_cases index 240).
      - eexists. apply Encoder.get_bytes_single. lia.
      - eexists. apply Encoder.get_bytes_double. lia. }
    destruct Hb as [b ->]. simpl.
    apply IH; try assumption; try lia.
    intros s Hs. rewrite lookup_insert_ne by (intros ->; contradiction).
    apply Hfresh. right. assumption.
Qed.

(** *** The symbol collector *)

(** [symbol_counts.get(letter, 0)]. *)
Fixpoint count_of (letter : N) (d : list (N * Z)) : Z :=
  match d with
  | [] => 0
  | (k, v) :: d' => if (k =? letter)%N then v else count_of letter d'
  end.

Lemma count_of_count_letter (x y : N) (d : list (N * Z)) :
  count_of x (count_letter y d) = count_of x d + (if (y =? x)%N then 1 else 0).
Proof.
  induction d as [|[k v] d IH]; simpl.
  - destruct (N.eqb_spec y x); lia.
  - destruct (N.eqb_spec k y) as [->|Hky]; simpl.
    + destruct (N.eqb_spec y x); lia.
    + destruct (N.eqb_spec k x) as [->|Hkx].
      * destruct (N.eqb_spec y x); [congruence | lia].
      * exact IH.
Qed.

Lemma count_of_foldl (x : N) (letters : list N) (d : list (N * Z)) :
  count_of x (foldl (fun d letter => count_letter letter d) d letters)
  = count_of x d + Z.of_nat (count_occ N.eq_dec letters x).
Proof.
  revert d. induction letters as [|y letters IH]; intros d; simpl; [lia|].
  rewrite IH, count_of_count_letter.
  destruct (N.eq_dec y x) as [->|Hne].
  - rewrite N.eqb_refl. lia.
  - destruct (N.eqb_spec y x); [contradiction | lia].
Qed.

(** The collector counts the occurrences of each character in the
    stripped lines. *)
Lemma count_of_symbol_counts (x : N) (text_list : list str) :
  count_of x (symbol_counts text_list)
  = Z.of_nat (count_occ N.eq_dec (concat (map strip_line text_list)) x).
Proof.
  unfold symbol_counts.
  assert (H : forall d,
             count_of x (foldl count_line d text_list)
             = count_of x d
               + Z.of_nat (count_occ N.eq_dec (concat (map strip_line text_list)) x)).
  { induction text_list as [|line rest IH]; intros d; simpl; [lia|].
    rewrite IH. unfold count_line. rewrite count_of_foldl.
    rewrite count_occ_app. lia. }
  rewrite H. simpl. lia.
Qed.

(** The keys of the dict stay distinct. *)
Lemma count_letter_keys (y : N) (d : list (N * Z)) :
  NoDup (map fst d) -> NoDup (map fst (count_letter y d))
  /\ forall k, k ∈ map fst (count_letter y d) <-> k = y \/ k ∈ map fst d.
Proof.
  induction d as [|[k v] d IH]; simpl; intros Hnd.
  - split; [repeat constructor; apply not_elem_of_nil|].
    intros k. rewrite list_elem_of_singleton, elem_of_nil. tauto.
  - inversion Hnd as [|? ? Hni Hnd']; subst.
    destruct (N.eqb_spec k y) as [->|Hky]; simpl.
    + split; [constructor; assumption|].
      intros k. rewrite elem_of_cons. tauto.
    + destruct (IH Hnd') as [IH1 IH2].
      split; [constructor; [rewrite IH2; tauto | assumption]|].
      intros k'. rewrite !elem_of_cons, IH2. tauto.
Qed.

Lemma symbol_counts_keys (text_list : list str) :
  NoDup (map fst (symbol_counts text_list)).
Proof.
  unfold symbol_counts.
  assert (H : forall d, NoDup (map fst d) ->
                        NoDup (map fst (foldl count_line d text_list))).
  { induction text_list as [|line rest IH]; intros d Hd; simpl; [assumption|].
    apply IH. unfold count_line. revert d Hd.
    induction (strip_line line) as [|y letters IHl]; intros d Hd; simpl; [assumption|].
    apply IHl. apply count_letter_keys, Hd. }
  apply H. constructor.
Qed.

Lemma count_of_elem (x : N) (c : Z) (d : list (N * Z)) :
  NoDup (map fst d) -> (x, c) ∈ d -> count_of x d = c.
Proof.
  induction d as [|[k v] d IH]; simpl; intros Hnd Hin; [inversion Hin|].
  inversion Hnd as [|? ? Hni Hnd']; subst.
  apply elem_of_cons in Hin as [Heq|Hin].
  - injection Heq as <- <-. rewrite N.eqb_refl. reflexivity.
  - destruct (N.eqb_spec k x) as [->|Hne]; [|auto].
    exfalso. apply Hni. apply list_elem_of_fmap. exists (x, c). split; [reflexivity | assumption].
Qed.

Lemma item_leb_total (x y : N * Z) : item_leb x y = true \/ item_leb y x = true.
Proof.
  unfold item_leb.
  destruct (Z.ltb_spec x.2 y.2), (Z.ltb_spec y.2 x.2),
    (Z.eqb_spec x.2 y.2), (Z.eqb_spec y.2 x.2),
    (N.leb_spec x.1 y.1), (N.leb_spec y.1 x.1); simpl; auto; lia.
Qed.

Lemma item_leb_trans (x y z : N * Z) :
  item_leb x y = true -> item_leb y z = true -> item_leb x z = true.
Proof.
  unfold item_leb.
  destruct (Z.ltb_spec x.2 y.2), (Z.ltb_spec y.2 z.2), (Z.ltb_spec x.2 z.2),
    (Z.eqb_spec x.2 y.2), (Z.eqb_spec y.2 z.2), (Z.eqb_spec x.2 z.2),
    (N.leb_spec x.1 y.1), (N.leb_spec y.1 z.1), (N.leb_spec x.1 z.1);
    simpl; auto; lia.
Qed.

(** A symbol that was counted more often stands earlier in the result of
    [get_letter_counts]. *)
Lemma get_letter_counts_before (text_list : list str) (a b : N) :
  a ∈ get_letter_counts text_list -> b ∈ get_letter_counts text_list ->
  count_of b (symbol_counts text_list) < count_of a (symbol_counts text_list) ->
  before a b (get_letter_counts text_list).
Proof.
  unfold get_letter_counts. intros Ha Hb Hlt.
  set (d := symbol_counts text_list) in *.
  pose proof (symbol_counts_keys text_list) as Hnd. fold d in Hnd.
  rewrite elem_of_rev_iff in Ha, Hb.
  apply list_elem_of_fmap in Ha as ([a' ca] & -> & Ha).
  apply list_elem_of_fmap in Hb as ([b' cb] & -> & Hb). simpl in *.
  assert (Ha' : (a', ca) ∈ d) by (rewrite <- (sorted_Permutation item_leb d); exact Ha).
  assert (Hb' : (b', cb) ∈ d) by (rewrite <- (sorted_Permutation item_leb d); exact Hb).
  rewrite (count_of_elem _ _ _ Hnd Ha'), (count_of_elem _ _ _ Hnd Hb') in Hlt.
  apply before_rev.
  apply (before_map fst (b', cb) (a', ca)).
  destruct (before_or (a', ca) (b', cb) _ Ha Hb) as [Hab|Hba];
    [intros Heq; injection Heq; lia | | exact Hba].
  exfalso.
  apply (StronglySorted_before _ _ _ _
           (sorted_StronglySorted item_leb item_leb_total item_leb_trans d)) in Hab.
  unfold item_leb in Hab. simpl in Hab.
  destruct (Z.ltb_spec ca cb); [lia|].
  destruct (Z.eqb_spec ca cb); [lia|]. discriminate.
Qed.

Section WithTables.

Variables (font_table font_small_table : gmap N string) (cjk_font : gmap Z Glyph).

Lemma get_font_map_and_table_Ok (text_list sym_list : list N) (fm : FontMap)
    (symbol_map : gmap N (list Z)) :
  get_font_map_and_table font_table font_small_table cjk_font text_list
  = Ok (sym_list, fm, symbol_map) ->
  total_symbol_count font_table text_list <= 4063
  /\ sym_list = ordered_normal_sym_list font_table text_list
                ++ ordered_cjk_sym_list font_table text_list
  /\ symbol_loop sym_list 2 {[ chr_LF := [1] ]} = Ok symbol_map.
Proof.
  unfold get_font_map_and_table. intros H.
  destruct (Z.gtb_spec (total_symbol_count font_table text_list) (0x10 * 0xFF - 15 - 2))
    as [Hgt|Hle]; [discriminate|].
  inv_bind H. inv_bind H. inv_bind H. injection H as <- <- <-.
  split; [exact Hle|]. split; [reflexivity | assumption].
Qed.

(** C4. The number of required symbols is 10 forced digits plus the
    symbols of the text that are not digits. When it exceeds 4063,
    [get_font_map_and_table] ends in [sys.exit(1)] after logging the
    too-many-symbols error, and returns nothing; at or below 4063 it does
    not end that way. *)
Theorem too_many_symbols_iff (text_list : list N) :
  total_symbol_count font_table text_list
  = 10 + Z.of_nat (length (other_symbols text_list))
  /\ (4063 < total_symbol_count font_table text_list ->
      get_font_map_and_table font_table font_small_table cjk_font text_list
      = Raise (SystemExit 1
                 (TooManyUsedSymbols (total_symbol_count font_table text_list))))
  /\ (total_symbol_count font_table text_list <= 4063 ->
      forall e,
        get_font_map_and_table font_table font_small_table cjk_font text_list
        = Raise e ->
        is_too_many e = false).
Proof.
  split; [apply total_symbol_count_eq|].
  unfold get_font_map_and_table.
  destruct (Z.gtb_spec (total_symbol_count font_table text_list) (0x10 * 0xFF - 15 - 2))
    as [Hgt|Hle].
  - split; [reflexivity|]. intros Hle. exfalso. lia.
  - split; [intros Hgt; exfalso; lia|].
    intros _ e H.
    apply bind_Raise_inv in H as [H|(sm & _ & H)]; [eapply symbol_loop_raise; eauto|].
    apply bind_Raise_inv in H as [H|(fm & _ & H)]; [eapply normal_loop_raise; eauto|].
    apply bind_Raise_inv in H as [H|(fm' & _ & H)]; [eapply cjk_loop_raise; eauto|].
    discriminate.
Qed.

(** The symbol list has no repetition when the text list has none. *)
Lemma sym_list_NoDup (text_list : list N) :
  NoDup text_list ->
  NoDup (ordered_normal_sym_list font_table text_list
         ++ ordered_cjk_sym_list font_table text_list).
Proof.
  intros Hnd. unfold ordered_normal_sym_list, ordered_cjk_sym_list.
  rewrite <- app_assoc.
  apply NoDup_app. split; [|split].
  - apply (bool_decide_eq_true_1 (NoDup forced_first_symbols)). reflexivity.
  - intros x Hx Hin. apply elem_of_app in Hin as [Hin|Hin];
      apply list_elem_of_In, List.filter_In in Hin as [_ Hin];
      apply andb_true_iff in Hin as [Hin _];
      apply negb_true_iff, bool_decide_eq_false in Hin; contradiction.
  - apply NoDup_app. split; [|split].
    + apply NoDup_ListNoDup, List.NoDup_filter, NoDup_ListNoDup, Hnd.
    + intros x Hx Hin.
      apply list_elem_of_In, List.filter_In in Hx as [_ Hx].
      apply list_elem_of_In, List.filter_In in Hin as [_ Hin].
      apply andb_true_iff in Hx as [_ Hx]. apply andb_true_iff in Hin as [_ Hin].
      rewrite Hx in Hin. discriminate.
    + apply NoDup_ListNoDup, List.NoDup_filter, NoDup_ListNoDup, Hnd.
Qed.

(** At or below 4063 symbols every index has an encoding: on a text list
    without repetition and without the newline the symbol table is built. *)
Lemma symbol_table_built (text_list : list N) :
  total_symbol_count font_table text_list <= 4063 ->
  NoDup text_list -> chr_LF ∉ text_list ->
  exists symbol_map,
    symbol_loop (ordered_normal_sym_list font_table text_list
                 ++ ordered_cjk_sym_list font_table text_list) 2 {[ chr_LF := [1] ]}
    = Ok symbol_map.
Proof.
  intros Hle Hnd Hlf. apply symbol_loop_returns.
  - apply sym_list_NoDup, Hnd.
  - intros s Hs. apply lookup_singleton_ne. intros <-.
    unfold ordered_normal_sym_list, ordered_cjk_sym_list in Hs.
    rewrite <- app_assoc in Hs.
    apply elem_of_app in Hs as [Hs|Hs].
    + revert Hs. apply (bool_decide_eq_false_1 (chr_LF ∈ forced_first_symbols)).
      reflexivity.
    + apply elem_of_app in Hs as [Hs|Hs];
        apply list_elem_of_In, List.filter_In in Hs as [Hs _];
        apply list_elem_of_In in Hs; contradiction.
  - lia.
  - unfold total_symbol_count in Hle. rewrite length_app. lia.
Qed.

(** C6. Whenever [get_font_map_and_table] returns, the digits "0" to "9"
    are the first ten symbols of the symbol list, in digit order, and the
    digit [d] has the code of index [2 + d], the single byte [2 + d];
    the text list plays no part in it. *)
Theorem digits_first (text_list sym_list : list N) (fm : FontMap)
    (symbol_map : gmap N (list Z)) :
  get_font_map_and_table font_table font_small_table cjk_font text_list
  = Ok (sym_list, fm, symbol_map) ->
  forall d : nat, (d < 10)%nat ->
    sym_list !! d = Some (48 + N.of_nat d)%N
    /\ get_bytes_from_font_index (2 + Z.of_nat d) = Ok [2 + Z.of_nat d]
    /\ symbol_map !! (48 + N.of_nat d)%N = Some [2 + Z.of_nat d].
Proof.
  intros H d Hd.
  apply get_font_map_and_table_Ok in H as (_ & Hsl & Hloop).
  assert (Hpos : sym_list !! d = Some (48 + N.of_nat d)%N).
  { rewrite Hsl. unfold ordered_normal_sym_list. rewrite <- app_assoc.
    rewrite lookup_app_l by (simpl; lia).
    do 10 (destruct d as [|d]; [reflexivity|]). lia. }
  assert (Henc : get_bytes_from_font_index (2 + Z.of_nat d) = Ok [2 + Z.of_nat d])
    by (apply Encoder.get_bytes_single; lia).
  split; [assumption|]. split; [assumption|].
  apply symbol_loop_Ok in Hloop as (_ & _ & Hloop & _).
  destruct (Hloop d _ Hpos) as (b & Hb & Hm).
  rewrite Henc in Hb. injection Hb as <-. exact Hm.
Qed.

(** C7, as amended. For two symbols [a] and [b] of the collected symbol
    set that are not digits, with [a] counted strictly more often than
    [b]: unless [a] is an extended symbol (absent from the font table)
    while [b] is in the font table, [a] stands before [b] in the symbol
    list and so has the smaller index. *)
Theorem frequency_order (text_list : list str) (a b : N)
    (sym_list : list N) (fm : FontMap) (symbol_map : gmap N (list Z)) :
  get_font_map_and_table font_table font_small_table cjk_font
    (get_letter_counts text_list) = Ok (sym_list, fm, symbol_map) ->
  a ∈ get_letter_counts text_list -> b ∈ get_letter_counts text_list ->
  a ∉ forced_first_symbols -> b ∉ forced_first_symbols ->
  count_of b (symbol_counts text_list) < count_of a (symbol_counts text_list) ->
  is_Some (font_table !! a) \/ font_table !! b = None ->
  exists (ia ib : nat) (code_a code_b : list Z),
    sym_list !! ia = Some a /\ sym_list !! ib = Some b
    /\ (ia < ib)%nat
    /\ get_bytes_from_font_index (2 + Z.of_nat ia) = Ok code_a
    /\ get_bytes_from_font_index (2 + Z.of_nat ib) = Ok code_b
    /\ symbol_map !! a = Some code_a /\ symbol_map !! b = Some code_b.
Proof.
  intros H Ha Hb Hda Hdb Hlt Htab.
  apply get_font_map_and_table_Ok in H as (_ & Hsl & Hloop).
  pose proof (get_letter_counts_before text_list a b Ha Hb Hlt) as Hbef.
  set (tl := get_letter_counts text_list) in *.
  assert (Hin : forall x, x ∉ forced_first_symbols -> is_Some (font_table !! x) ->
             negb (bool_decide (x ∈ forced_first_symbols))
             && bool_decide (is_Some (font_table !! x)) = true).
  { intros x Hx Hs. apply andb_true_iff. split.
    - apply negb_true_iff, bool_decide_eq_false. assumption.
    - apply bool_decide_eq_true. assumption. }
  assert (Hout : forall x, x ∉ forced_first_symbols -> font_table !! x = None ->
             negb (bool_decide (x ∈ forced_first_symbols))
             && negb (bool_decide (is_Some (font_table !! x))) = true).
  { intros x Hx Hs. apply andb_true_iff. split.
    - apply negb_true_iff, bool_decide_eq_false. assumption.
    - apply negb_true_iff, bool_decide_eq_false. rewrite Hs.
      intros [? ?]. discriminate. }
  assert (Hord : before a b sym_list).
  { rewrite Hsl. unfold ordered_normal_sym_list, ordered_cjk_sym_list.
    rewrite <- app_assoc. apply before_app_r.
    destruct (font_table !! b) as [vb|] eqn:Eb.
    - destruct Htab as [Hta|Htb]; [|discriminate].
      apply before_app_l. apply before_filter; [| |assumption].
      + apply Hin; assumption.
      + apply Hin; [assumption|]. rewrite Eb. eauto.
    - destruct (font_table !! a) as [va|] eqn:Ea.
      + apply before_app_lr; apply list_elem_of_In, List.filter_In;
          (split; [apply list_elem_of_In; assumption|]).
        * apply Hin; [assumption|]. rewrite Ea. eauto.
        * apply Hout; assumption.
      + apply before_app_r. apply before_filter; [| |assumption].
        * apply Hout; assumption.
        * apply Hout; assumption. }
  apply before_lookup in Hord as (ia & ib & Hia & Hib & Hlt').
  apply symbol_loop_Ok in Hloop as (_ & _ & Hloop & _).
  destruct (Hloop ia a Hia) as (ca & Hca & Hma).
  destruct (Hloop ib b Hib) as (cb & Hcb & Hmb).
  exists ia, ib, ca, cb. repeat split; assumption.
Qed.

End WithTables.

(** A font table with the digits, "A" and "B"; a CJK font with one glyph;
    a text in which U+4E2D occurs three times, "A" twice, "B" and "1"
    once. *)
Definition sample_font_table : gmap N string :=
  list_to_map (map (fun c => (c, "0x00,"%string)) (forced_first_symbols ++ [65; 66]%N)).

Definition sample_cjk_font : gmap Z Glyph := {[ 20013 := Rasterizer.sample_glyph ]}.

Definition sample_text : list str :=
  [[65; 66; 65]%N; [20013; 20013; 20013]%N; py_str "1"].

Example sample_letter_counts :
  symbol_counts sample_text = [(65%N, 2); (66%N, 1); (20013%N, 3); (49%N, 1)]
  /\ get_letter_counts sample_text = [20013; 65; 66; 49]%N.
Proof. split; reflexivity. Qed.

Example sample_sym_list :
  exists fm symbol_map,
    get_font_map_and_table sample_font_table sample_font_table sample_cjk_font
      (get_letter_counts sample_text)
    = Ok ([48; 49; 50; 51; 52; 53; 54; 55; 56; 57; 65; 66; 20013]%N, fm, symbol_map).
Proof. eexists _, _. vm_compute. reflexivity. Qed.

Lemma digits_first_witness :
  exists sym_list fm symbol_map,
    get_font_map_and_table sample_font_table sample_font_table sample_cjk_font
      (get_letter_counts sample_text) = Ok (sym_list, fm, symbol_map)
    /\ forall d : nat, (d < 10)%nat ->
         sym_list !! d = Some (48 + N.of_nat d)%N
         /\ get_bytes_from_font_index (2 + Z.of_nat d) = Ok [2 + Z.of_nat d]
         /\ symbol_map !! (48 + N.of_nat d)%N = Some [2 + Z.of_nat d].
Proof.
  destruct (get_font_map_and_table sample_font_table sample_font_table sample_cjk_font
              (get_letter_counts sample_text)) as [[[sym_list fm] symbol_map]|e] eqn:E.
  - exists sym_list, fm, symbol_map. split; [reflexivity|].
    exact (digits_first _ _ _ _ _ _ _ E).
  - vm_compute in E. discriminate.
Defined.

Lemma frequency_order_witness :
  exists sym_list fm symbol_map,
    get_font_map_and_table sample_font_table sample_font_table sample_cjk_font
      (get_letter_counts sample_text) = Ok (sym_list, fm, symbol_map)
    /\ (65%N ∈ get_letter_counts sample_text)
    /\ (66%N ∈ get_letter_counts sample_text)
    /\ (65%N ∉ forced_first_symbols)
    /\ (66%N ∉ forced_first_symbols)
    /\ count_of 66 (symbol_counts sample_text) < count_of 65 (symbol_counts sample_text)
    /\ (is_Some (sample_font_table !! 65%N) \/ sample_font_table !! 66%N = None)
    /\ exists (ia ib : nat) (code_a code_b : list Z),
         sym_list !! ia = Some 65%N /\ sym_list !! ib = Some 66%N
         /\ (ia < ib)%nat
         /\ get_bytes_from_font_index (2 + Z.of_nat ia) = Ok code_a
         /\ get_bytes_from_font_index (2 + Z.of_nat ib) = Ok code_b
         /\ symbol_map !! 65%N = Some code_a /\ symbol_map !! 66%N = Some code_b.
Proof.
  assert (Ha : 65%N ∈ get_letter_counts sample_text)
    by (apply (bool_decide_eq_true_1 _); reflexivity).
  assert (Hb : 66%N ∈ get_letter_counts sample_text)
    by (apply (bool_decide_eq_true_1 _); reflexivity).
  assert (Hda : 65%N ∉ forced_first_symbols)
    by (apply (bool_decide_eq_false_1 _); reflexivity).
  assert (Hdb : 66%N ∉ forced_first_symbols)
    by (apply (bool_decide_eq_false_1 _); reflexivity).
  assert (Hlt : count_of 66 (symbol_counts sample_text)
                < count_of 65 (symbol_counts sample_text)) by reflexivity.
  assert (Htab : is_Some (sample_font_table !! 65%N) \/ sample_font_table !! 66%N = None)
    by (left; eexists; reflexivity).
  destruct (get_font_map_and_table sample_font_table sample_font_table sample_cjk_font
              (get_letter_counts sample_text)) as [[[sym_list fm] symbol_map]|e] eqn:E.
  - exists sym_list, fm, symbol_map. split; [reflexivity|].
    repeat (split; [assumption|]).
    exact (frequency_order _ _ _ _ _ _ _ _ _ E Ha Hb Hda Hdb Hlt Htab).
  - vm_compute in E. discriminate.
Defined.

(** C7 as stated fails between an extended symbol and a symbol of the font
    table: U+4E2D is counted three times and "A" twice, yet U+4E2D has
    index 14 and "A" index 12, since every extended symbol is placed after the
    symbols of the font table. *)
Lemma extended_symbol_after_table_symbol :
  exists sym_list fm symbol_map,
    get_font_map_and_table sample_font_table sample_font_table sample_cjk_font
      (get_letter_counts sample_text) = Ok (sym_list, fm, symbol_map)
    /\ count_of 20013 (symbol_counts sample_text) = 3
    /\ count_of 65 (symbol_counts sample_text) = 2
    /\ sym_list !! 12%nat = Some 20013%N /\ sym_list !! 10%nat = Some 65%N
    /\ get_bytes_from_font_index (2 + 12) = Ok [14]
    /\ get_bytes_from_font_index (2 + 10) = Ok [12]
    /\ symbol_map !! 20013%N = Some [14] /\ symbol_map !! 65%N = Some [12].
Proof.
  eexists _, _, _. split; [vm_compute; reflexivity|].
  repeat split; vm_compute; reflexivity.
Qed.

(** 4054 symbols besides the digits are too many; with 4053 the run gets
    past the limit (and stops here at the first digit, which the empty
    font table lacks). *)
Example too_many_symbols_4064 :
  get_font_map_and_table ∅ ∅ ∅ (map N.of_nat (seq 1000 4054))
  = Raise (SystemExit 1 (TooManyUsedSymbols 4064)).
Proof. vm_compute. reflexivity. Qed.

Example not_too_many_symbols_4063 :
  total_symbol_count ∅ (map N.of_nat (seq 1000 4053)) = 4063
  /\ get_font_map_and_table ∅ ∅ ∅ (map N.of_nat (seq 1000 4053))
     = Raise (SystemExit 1 (MissingLargeFont 48)).
Proof. split; vm_compute; reflexivity. Qed.

End FontTable.

(** ** The string table compressor *)

Module Compressor.

(** *** Bytes: prefixes and the lexicographic order *)

Lemma startswith_prefix (b p : list Z) : startswith b p = true <-> p `prefix_of` b.
Proof.
  revert b. induction p as [|x p IH]; intros b; simpl.
  - split; [intros _; apply prefix_nil | reflexivity].
  - destruct b as [|y b].
    + split; [discriminate|]. intros [k Hk]. discriminate.
    + rewrite andb_true_iff, Z.eqb_eq, IH. split.
      * intros [-> Hp]. apply prefix_cons. assumption.
      * intros [k Hk]. injection Hk as -> ->. split; [reflexivity|].
        exists k. reflexivity.
Qed.

Lemma startswith_trans (a b c : list Z) :
  startswith b a = true -> startswith c b = true -> startswith c a = true.
Proof.
  rewrite !startswith_prefix. intros H1 H2. etrans; eassumption.
Qed.

Lemma startswith_length (b p : list Z) :
  startswith b p = true -> (length p <= length b)%nat.
Proof. rewrite startswith_prefix. apply prefix_length. Qed.

Lemma bytes_leb_total (a b : list Z) : bytes_leb a b = true \/ bytes_leb b a = true.
Proof.
  revert b. induction a as [|x a IH]; intros b; simpl; [auto|].
  destruct b as [|y b]; simpl; [auto|].
  destruct (Z.ltb_spec x y), (Z.ltb_spec y x); auto; lia.
Qed.

Lemma bytes_leb_trans (a b c : list Z) :
  bytes_leb a b = true -> bytes_leb b c = true -> bytes_leb a c = true.
Proof.
  revert b c. induction a as [|x a IH]; intros b c; simpl; [reflexivity|].
  destruct b as [|y b]; simpl; [discriminate|].
  destruct c as [|z c]; simpl; [intros _ H; exact H|].
  destruct (Z.ltb_spec x y), (Z.ltb_spec y x), (Z.ltb_spec y z), (Z.ltb_spec z y),
    (Z.ltb_spec x z), (Z.ltb_spec z x); try lia; try discriminate; auto.
  apply IH.
Qed.

(** A text sorts strictly before each of its proper extensions. *)
Lemma bytes_leb_extension (a k : list Z) : k <> [] -> bytes_leb (a ++ k) a = false.
Proof.
  intros Hk. induction a as [|x a IH]; simpl.
  - destruct k; [congruence | reflexivity].
  - rewrite Z.ltb_irrefl. exact IH.
Qed.

(** What sorts between a text and one of its extensions extends the text:
    this is why the strings that end with the same bytes are neighbours
    in [backward_sorted_table]. *)
Lemma startswith_between (a c b : list Z) :
  bytes_leb a c = true -> bytes_leb c b = true -> startswith b a = true ->
  startswith c a = true.
Proof.
  revert c b. induction a as [|x a IH]; intros c b; simpl; [reflexivity|].
  destruct b as [|y b]; [discriminate|].
  destruct c as [|z c]; [discriminate|]. simpl.
  destruct (Z.eqb_spec y x) as [->|]; [|discriminate]. simpl.
  destruct (Z.ltb_spec x z), (Z.ltb_spec z x); try lia; try discriminate.
  assert (z = x) by lia. subst z. rewrite Z.eqb_refl. simpl. apply IH.
Qed.

Lemma suffix_rev_startswith (a b : list Z) :
  a `suffix_of` b <-> startswith (rev b) (rev a) = true.
Proof.
  rewrite startswith_prefix. split.
  - intros [k ->]. rewrite rev_app_distr. exists (rev k). reflexivity.
  - intros [k Hk]. exists (rev k).
    rewrite <- (rev_involutive b), Hk, rev_app_distr, rev_involutive. reflexivity.
Qed.

(** *** The sorted table *)

Definition idx_of (e : entry) : nat := e.1.1.

Lemma convert_entries_Ok (tbl : gmap N (list Z)) (items : list (nat * str))
    (entries : list entry) :
  convert_entries tbl items = Ok entries ->
  Forall2 (fun it e => e.1 = it /\ convert_string_bytes tbl it.2 = Ok (rev e.2))
    items entries.
Proof.
  revert entries. induction items as [|[i s] items IH]; intros entries H; simpl in H.
  - injection H as <-. constructor.
  - inv_bind H. inv_bind H. injection H as <-.
    constructor; [|apply IH; assumption].
    simpl. rewrite rev_involutive. auto.
Qed.

Lemma enumerate_fst {A} (l : list A) : map fst (enumerate l) = seq 0 (length l).
Proof.
  unfold enumerate. change (map fst (imap pair l)) with (fst <$> imap pair l).
  rewrite fmap_imap.
  rewrite (imap_ext _ (fun j _ => id j) l) by reflexivity.
  rewrite (imap_seq_0 l id). apply list_fmap_id.
Qed.

Section WithTable.

Variables (symbol_conversion_table : gmap N (list Z)) (str_table : list str).
Variable table : list entry.
Hypothesis table_sorted :
  backward_sorted_table symbol_conversion_table str_table = Ok table.

Lemma table_entries :
  exists entries,
    Permutation table entries
    /\ map fst entries = enumerate str_table
    /\ Forall (fun e => convert_string_bytes symbol_conversion_table e.1.2 = Ok (rev e.2))
         entries.
Proof.
  unfold backward_sorted_table in table_sorted.
  pose proof table_sorted as H. inv_bind H. injection H as <-.
  exists a. split; [apply sorted_Permutation|].
  apply convert_entries_Ok in Ha. clear table_sorted.
  induction Ha as [|it e items entries [H1 H2] _ [IH1 IH2]]; [split; constructor|].
  split.
  - simpl. rewrite H1. f_equal. exact IH1.
  - constructor; [|exact IH2]. rewrite H1. exact H2.
Qed.

Lemma table_length : length table = length str_table.
Proof.
  destruct table_entries as (entries & Hp & Hm & _).
  rewrite (Permutation_length Hp), <- (length_map fst), Hm.
  unfold enumerate. apply length_imap.
Qed.

Lemma table_idx_perm : Permutation (map idx_of table) (seq 0 (length str_table)).
Proof.
  destruct table_entries as (entries & Hp & Hm & _).
  rewrite Hp.
  assert (H : map idx_of entries = map fst (map fst entries))
    by (rewrite map_map; reflexivity).
  rewrite H, Hm, enumerate_fst. reflexivity.
Qed.

Lemma table_idx_NoDup : NoDup (map idx_of table).
Proof. rewrite table_idx_perm. apply NoDup_seq. Qed.

Lemma table_idx_lt (e : entry) : e ∈ table -> (idx_of e < length str_table)%nat.
Proof.
  intros He.
  assert (Hin : idx_of e ∈ map idx_of table)
    by (apply list_elem_of_fmap; eauto).
  rewrite table_idx_perm in Hin. apply elem_of_seq in Hin. lia.
Qed.

(** An entry of the table is a string of [str_table] with its bytes
    reversed. *)
Lemma table_entry (e : entry) :
  e ∈ table ->
  str_table !! idx_of e = Some e.1.2
  /\ convert_string_bytes symbol_conversion_table e.1.2 = Ok (rev e.2).
Proof.
  intros He. destruct table_entries as (entries & Hp & Hm & Hc).
  rewrite Hp in He. split.
  - assert (Hin : e.1 ∈ enumerate str_table).
    { rewrite <- Hm. apply list_elem_of_fmap. eauto. }
    apply elem_of_lookup_imap in Hin as (i & y & Heq & Hy).
    unfold idx_of. rewrite Heq. simpl. exact Hy.
  - rewrite Forall_forall in Hc. apply Hc, He.
Qed.

(** Every string of [str_table] has its entry. *)
Lemma table_has (i : nat) (s : str) :
  str_table !! i = Some s ->
  exists c, (i, s, c) ∈ table
            /\ convert_string_bytes symbol_conversion_table s = Ok (rev c).
Proof.
  intros Hi. destruct table_entries as (entries & Hp & Hm & Hc).
  assert (Hin : (i, s) ∈ map fst entries).
  { rewrite Hm. apply (elem_of_lookup_imap_2 pair). exact Hi. }
  apply list_elem_of_fmap in Hin as ([[i' s'] c] & Heq & Hin). simpl in Heq.
  injection Heq as <- <-. exists c. split; [rewrite Hp; exact Hin|].
  rewrite Forall_forall in Hc. apply (Hc _ Hin).
Qed.

Lemma table_StronglySorted :
  StronglySorted (fun x y => entry_leb x y = true) table.
Proof.
  unfold backward_sorted_table in table_sorted.
  pose proof table_sorted as H. inv_bind H. injection H as <-.
  apply sorted_StronglySorted.
  - intros x y. apply bytes_leb_total.
  - intros x y z. apply bytes_leb_trans.
Qed.

Lemma table_idx_inj (p q : nat) (e1 e2 : entry) :
  table !! p = Some e1 -> table !! q = Some e2 -> idx_of e1 = idx_of e2 -> p = q.
Proof.
  intros H1 H2 Heq.
  apply (NoDup_lookup (map idx_of table) p q (idx_of e1)).
  - apply table_idx_NoDup.
  - change (map idx_of table) with (idx_of <$> table).
    rewrite list_lookup_fmap, H1. reflexivity.
  - change (map idx_of table) with (idx_of <$> table).
    rewrite list_lookup_fmap, H2, Heq. reflexivity.
Qed.

End WithTable.

(** *** The remapping loop *)

Lemma drop_cons_inv {A} (l : list A) (i : nat) (x : A) (rest : list A) :
  drop i l = x :: rest -> l !! i = Some x /\ drop (S i) l = rest.
Proof.
  intros H.
  assert (Hx : l !! i = Some x).
  { rewrite <- (Nat.add_0_r i), <- lookup_drop, H. reflexivity. }
  split; [exact Hx|].
  rewrite (drop_S _ _ _ Hx) in H. congruence.
Qed.

(** The [while] loop stops at the last entry of the run of entries that
    start with [converted]; it needs one more entry behind the run. *)
Lemma scan_run_Ok (table : list entry) (converted : list Z) (rest : list entry)
    (j0 j : nat) :
  drop (S j0) table = rest ->
  scan_run converted rest j0 = Ok j ->
  (j0 <= j)%nat
  /\ (forall q, (j0 < q <= j)%nat ->
      exists e, table !! q = Some e /\ startswith e.2 converted = true)
  /\ exists e', table !! S j = Some e' /\ startswith e'.2 converted = false.
Proof.
  revert j0. induction rest as [|e rest IH]; intros j0 Hd H; simpl in H.
  - discriminate.
  - apply drop_cons_inv in Hd as [He Hd].
    destruct (startswith e.2 converted) eqn:Es.
    + destruct (IH (S j0) Hd H) as (Hle & Hrun & Hend).
      split; [lia|]. split; [|exact Hend].
      intros q Hq. destruct (decide (q = S j0)) as [->|Hne]; [eauto|].
      apply Hrun. lia.
    + injection H as <-. split; [lia|]. split; [intros q Hq; lia | eauto].
Qed.

(** It raises when the run reaches the end of the table. *)
Lemma scan_run_Raise (converted : list Z) (rest : list entry) (j0 : nat) (e : exn) :
  scan_run converted rest j0 = Raise e ->
  e = IndexError /\ Forall (fun x => startswith x.2 converted = true) rest.
Proof.
  revert j0. induction rest as [|x rest IH]; intros j0 H; simpl in H.
  - injection H as <-. split; [reflexivity | constructor].
  - destruct (startswith x.2 converted) eqn:Es; [|discriminate].
    destruct (IH _ H) as [-> Hall]. split; [reflexivity|].
    constructor; assumption.
Qed.

Definition alias_of (ej e : entry) : RemappedTranslationItem :=
  {| str_index := idx_of ej;
     str_start_offset := Z.of_nat (length ej.2) - Z.of_nat (length e.2) |}.

Lemma remap_loop_Ok (table : list entry) :
  NoDup (map idx_of table) ->
  forall (entries : list entry) (i : nat) (r r' : list (option RemappedTranslationItem)),
    drop i table = entries ->
    (forall e, e ∈ table -> (idx_of e < length r)%nat) ->
    remap_loop table i entries r = Ok r' ->
    length r' = length r
    /\ (forall x,
          (forall p e, (i <= p)%nat -> (S p < length table)%nat ->
                       table !! p = Some e -> idx_of e <> x) ->
          r' !! x = r !! x)
    /\ (forall p e, (i <= p)%nat -> (S p < length table)%nat -> table !! p = Some e ->
        exists j,
          scan_run e.2 (drop (S p) table) p = Ok j
          /\ (j = p -> r' !! idx_of e = r !! idx_of e)
          /\ (j <> p -> exists ej, table !! j = Some ej
                                   /\ r' !! idx_of e = Some (Some (alias_of ej e)))).
Proof.
  intros Hnd entries. induction entries as [|e0 rest IH]; intros i r r' Hd Hlt H.
  - simpl in H. injection H as <-.
    assert (length table <= i)%nat.
    { destruct (Nat.le_gt_cases (length table) i) as [|Hgt]; [assumption|].
      apply lookup_lt_is_Some_2 in Hgt as [x Hx].
      rewrite (drop_S _ _ _ Hx) in Hd. discriminate. }
    split; [reflexivity|]. split; [reflexivity|]. intros p e Hp Hp'. lia.
  - apply drop_cons_inv in Hd as [He0 Hd].
    destruct e0 as [[idx source_str] converted].
    cbn [remap_loop] in H.
    destruct rest as [|e1 rest'].
    { injection H as <-.
      assert (length table <= S i)%nat.
      { destruct (Nat.le_gt_cases (length table) (S i)) as [|Hgt]; [assumption|].
        apply lookup_lt_is_Some_2 in Hgt as [x Hx].
        rewrite (drop_S _ _ _ Hx) in Hd. discriminate. }
      split; [reflexivity|]. split; [reflexivity|]. intros p e Hp Hp'. lia. }
    inv_bind H. rename a into j. rename Ha into Hscan.
    assert (Hframe0 : forall (r1 : list (option RemappedTranslationItem)),
              remap_loop table (S i) (e1 :: rest') r1 = Ok r' ->
              (forall e, e ∈ table -> (idx_of e < length r1)%nat) ->
              r' !! idx = r1 !! idx).
    { intros r1 H1 Hlt1. destruct (IH (S i) r1 r' Hd Hlt1 H1) as (_ & Hfr & _).
      apply Hfr. intros p e Hp Hp' Hpe Heq.
      assert (p = i) by (eapply (NoDup_lookup _ p i idx Hnd);
        change (map idx_of table) with (idx_of <$> table);
        rewrite list_lookup_fmap; [rewrite Hpe, <- Heq | rewrite He0]; reflexivity).
      lia. }
    destruct (decide (j <> i)) as [Hne|Heq].
    + inv_bind H. rename a into ej.
      unfold table_at in Ha. destruct (table !! j) as [ej'|] eqn:Ej; [|discriminate].
      injection Ha as ->.
      set (r1 := <[idx := Some (alias_of ej (idx, source_str, converted))]> r) in *.
      assert (Hlt1 : forall e, e ∈ table -> (idx_of e < length r1)%nat).
      { intros e Hin. unfold r1. rewrite length_insert. apply Hlt, Hin. }
      destruct (IH (S i) r1 r' Hd Hlt1 H) as (Hlen & Hfr & Hpt).
      split; [rewrite Hlen; unfold r1; apply length_insert|].
      split.
      * intros x Hx. rewrite Hfr.
        -- unfold r1. apply list_lookup_insert_ne.
           apply (Hx i (idx, source_str, converted)); [lia | | assumption].
           destruct (drop_cons_inv _ _ _ _ Hd) as [He1 _].
           apply lookup_lt_Some in He1. exact He1.
        -- intros p e Hp Hp' Hpe. apply (Hx p e); [lia | assumption | assumption].
      * intros p e Hp Hp' Hpe.
        destruct (decide (p = i)) as [->|Hpi].
        -- rewrite He0 in Hpe. injection Hpe as <-.
           exists j. rewrite Hd. split; [exact Hscan|].
           split; [intros; contradiction|]. intros _. exists ej.
           split; [exact Ej|].
           unfold idx_of at 1. simpl. rewrite (Hframe0 r1 H Hlt1).
           unfold r1. apply list_lookup_insert_eq.
           apply (Hlt (idx, source_str, converted)).
           apply list_elem_of_lookup_2 in He0. exact He0.
        -- destruct (Hpt p e ltac:(lia) Hp' Hpe) as (j' & Hs' & Hsame & Hdiff).
           exists j'. split; [exact Hs'|]. split; [|exact Hdiff].
           intros Hj'. rewrite (Hsame Hj'). unfold r1.
           apply list_lookup_insert_ne. intros Heq. apply Hpi. symmetry.
           eapply (NoDup_lookup _ i p idx Hnd);
             change (map idx_of table) with (idx_of <$> table);
             rewrite list_lookup_fmap; [rewrite He0 | rewrite Hpe, Heq]; reflexivity.
    + apply dec_stable in Heq. subst j.
      destruct (IH (S i) r r' Hd Hlt H) as (Hlen & Hfr & Hpt).
      split; [exact Hlen|]. split.
      * intros x Hx. apply Hfr. intros p e Hp Hp' Hpe.
        apply (Hx p e); [lia | assumption | assumption].
      * intros p e Hp Hp' Hpe.
        destruct (decide (p = i)) as [->|Hpi].
        -- rewrite He0 in Hpe. injection Hpe as <-.
           exists i. rewrite Hd. split; [exact Hscan|].
           split; [|intros; contradiction]. intros _.
           unfold idx_of. simpl. apply (Hframe0 r H Hlt).
        -- apply Hpt; [lia | assumption | assumption].
Qed.

(** *** The remapping *)

Section WithRemapping.

Variables (symbol_conversion_table : gmap N (list Z)) (str_table : list str).
Variable table : list entry.
Variable remapping : list (option RemappedTranslationItem).
Hypothesis table_sorted :
  backward_sorted_table symbol_conversion_table str_table = Ok table.
Hypothesis table_remapped :
  remap_loop table 0 table (replicate (length str_table) None) = Ok remapping.

Lemma remapping_facts :
  length remapping = length str_table
  /\ (forall x,
        (forall p e, (S p < length table)%nat -> table !! p = Some e -> idx_of e <> x) ->
        remapping !! x = replicate (length str_table) None !! x)
  /\ (forall p e, (S p < length table)%nat -> table !! p = Some e ->
      exists j,
        scan_run e.2 (drop (S p) table) p = Ok j
        /\ (j = p -> remapping !! idx_of e = Some None)
        /\ (j <> p -> exists ej, table !! j = Some ej
                                 /\ remapping !! idx_of e = Some (Some (alias_of ej e)))).
Proof.
  pose proof (table_idx_NoDup _ _ _ table_sorted) as Hnd.
  assert (Hlt : forall e, e ∈ table ->
                  (idx_of e < length (replicate (length str_table)
                                        (@None RemappedTranslationItem)))%nat).
  { intros e He. rewrite length_replicate. eapply table_idx_lt; eauto. }
  destruct (remap_loop_Ok table Hnd table 0 _ remapping eq_refl Hlt table_remapped)
    as (Hlen & Hfr & Hpt).
  split; [rewrite Hlen; apply length_replicate|].
  split.
  - intros x Hx. apply Hfr. intros p e _. apply Hx.
  - intros p e Hp Hpe. destruct (Hpt p e ltac:(lia) Hp Hpe) as (j & Hs & Hsame & Hdiff).
    exists j. split; [exact Hs|]. split; [|exact Hdiff].
    intros Hj. rewrite (Hsame Hj). apply lookup_replicate_2.
    eapply table_idx_lt; eauto. apply list_elem_of_lookup_2 in Hpe. exact Hpe.
Qed.

Lemma remapping_length : length remapping = length str_table.
Proof. apply remapping_facts. Qed.

(** The last entry of the sorted table is not remapped. *)
Lemma remapping_last (p : nat) (e : entry) :
  table !! p = Some e -> S p = length table -> remapping !! idx_of e = Some None.
Proof.
  intros Hpe Hlast. destruct remapping_facts as (_ & Hfr & _).
  rewrite Hfr.
  - apply lookup_replicate_2. eapply table_idx_lt; eauto.
    apply list_elem_of_lookup_2 in Hpe. exact Hpe.
  - intros q e' Hq Hqe Heq.
    assert (q = p) by (eapply table_idx_inj; eauto). lia.
Qed.

(** Where an alias comes from. *)
Lemma remapping_alias_inv (s : nat) (t : RemappedTranslationItem) :
  remapping !! s = Some (Some t) ->
  exists p e j ej,
    table !! p = Some e /\ idx_of e = s /\ (p < j)%nat
    /\ scan_run e.2 (drop (S p) table) p = Ok j
    /\ table !! j = Some ej /\ t = alias_of ej e.
Proof.
  intros Hs.
  assert (Hlt : (s < length str_table)%nat).
  { rewrite <- remapping_length. eapply lookup_lt_Some; eauto. }
  assert (Hin : s ∈ map idx_of table).
  { rewrite (table_idx_perm _ _ _ table_sorted). apply elem_of_seq. lia. }
  apply list_elem_of_fmap in Hin as (e & -> & He).
  apply list_elem_of_lookup in He as [p Hpe].
  pose proof (lookup_lt_Some _ _ _ Hpe) as Hp.
  destruct (decide (S p = length table)) as [Hlast|Hnl].
  { rewrite (remapping_last p e Hpe Hlast) in Hs. discriminate. }
  destruct remapping_facts as (_ & _ & Hpt).
  destruct (Hpt p e ltac:(lia) Hpe) as (j & Hscan & Hsame & Hdiff).
  destruct (decide (j = p)) as [Hj|Hj].
  { rewrite (Hsame Hj) in Hs. discriminate. }
  destruct (Hdiff Hj) as (ej & Hej & Hr). rewrite Hr in Hs. injection Hs as <-.
  destruct (scan_run_Ok table e.2 _ p j eq_refl Hscan) as (Hle & _).
  exists p, e, j, ej. repeat split; try assumption. lia.
Qed.

(** The entry an alias points to ends the run: it is not remapped. *)
Lemma remapping_target_root (p j : nat) (e ej : entry) :
  table !! p = Some e -> (p < j)%nat ->
  scan_run e.2 (drop (S p) table) p = Ok j ->
  table !! j = Some ej ->
  startswith ej.2 e.2 = true /\ remapping !! idx_of ej = Some None.
Proof.
  intros Hpe Hpj Hscan Hej.
  destruct (scan_run_Ok table e.2 _ p j eq_refl Hscan) as (_ & Hrun & e' & He' & Hno).
  destruct (Hrun j ltac:(lia)) as (ej' & Hej' & Hstart).
  rewrite Hej in Hej'. injection Hej' as <-.
  split; [exact Hstart|].
  destruct remapping_facts as (_ & _ & Hpt).
  pose proof (lookup_lt_Some _ _ _ He') as Hlt.
  destruct (Hpt j ej Hlt Hej) as (j2 & Hscan2 & Hsame & _).
  apply Hsame.
  rewrite (drop_S _ _ _ He') in Hscan2. simpl in Hscan2.
  destruct (startswith e'.2 ej.2) eqn:Es.
  - rewrite (startswith_trans _ _ _ Hstart Es) in Hno. discriminate.
  - injection Hscan2 as <-. reflexivity.
Qed.

End WithRemapping.

Lemma str_remapping_inv (tbl : gmap N (list Z)) (str_table : list str)
    (remapping : list (option RemappedTranslationItem)) :
  str_remapping tbl str_table = Ok remapping ->
  exists table,
    backward_sorted_table tbl str_table = Ok table
    /\ remap_loop table 0 table (replicate (length str_table) None) = Ok remapping.
Proof. unfold str_remapping. intros H. inv_bind H. eauto. Qed.

(** The reversed bytes of two entries and the bytes of their strings. *)
Lemma entry_suffix (e ej : entry) :
  startswith ej.2 e.2 = true ->
  rev e.2 `suffix_of` rev ej.2
  /\ drop (length ej.2 - length e.2) (rev ej.2) = rev e.2.
Proof.
  intros Hs.
  assert (Hsuf : rev e.2 `suffix_of` rev ej.2).
  { apply suffix_rev_startswith. rewrite !rev_involutive. exact Hs. }
  split; [exact Hsuf|].
  destruct Hsuf as [k Hk]. rewrite Hk.
  assert (Hlen : length ej.2 = (length k + length e.2)%nat).
  { rewrite <- (length_rev ej.2), Hk, length_app, length_rev. reflexivity. }
  replace (length ej.2 - length e.2)%nat with (length k) by lia.
  apply drop_app_length.
Qed.

(** C5. In the remapping that the compressor computes, every string has
    one slot: it is a root ([None]) or it is aliased to one other string.
    The target of an alias is a root, so an alias is resolved in one step;
    the bytes of the aliased string are the end of the bytes of its target
    and start there at [str_start_offset], the difference of the lengths. *)
Theorem alias_target_is_root (tbl : gmap N (list Z)) (str_table : list str)
    (remapping : list (option RemappedTranslationItem)) :
  str_remapping tbl str_table = Ok remapping ->
  length remapping = length str_table
  /\ forall s t, remapping !! s = Some (Some t) ->
       str_index t <> s
       /\ remapping !! str_index t = Some None
       /\ exists text_s text_t bytes_s bytes_t,
            str_table !! s = Some text_s
            /\ str_table !! str_index t = Some text_t
            /\ convert_string_bytes tbl text_s = Ok bytes_s
            /\ convert_string_bytes tbl text_t = Ok bytes_t
            /\ bytes_s `suffix_of` bytes_t
            /\ str_start_offset t
               = Z.of_nat (length bytes_t) - Z.of_nat (length bytes_s)
            /\ drop (Z.to_nat (str_start_offset t)) bytes_t = bytes_s.
Proof.
  intros H. apply str_remapping_inv in H as (table & Htab & Hloop).
  split; [eapply remapping_length; eauto|].
  intros s t Hs.
  destruct (remapping_alias_inv _ _ _ _ Htab Hloop s t Hs)
    as (p & e & j & ej & Hpe & <- & Hpj & Hscan & Hej & ->).
  destruct (remapping_target_root _ _ _ _ Htab Hloop p j e ej Hpe Hpj Hscan Hej)
    as [Hstart Hroot].
  simpl. split.
  { intros Heq. assert (j = p) by (eapply table_idx_inj; eauto). lia. }
  split; [exact Hroot|].
  destruct (table_entry _ _ _ Htab e) as [Hse Hce];
    [apply list_elem_of_lookup_2 in Hpe; exact Hpe|].
  destruct (table_entry _ _ _ Htab ej) as [Hsj Hcj];
    [apply list_elem_of_lookup_2 in Hej; exact Hej|].
  destruct (entry_suffix e ej Hstart) as [Hsuf Hdrop].
  exists e.1.2, ej.1.2, (rev e.2), (rev ej.2).
  repeat split; try assumption.
  - rewrite !length_rev. reflexivity.
  - pose proof (startswith_length _ _ Hstart).
    replace (Z.to_nat _) with (length ej.2 - length e.2)%nat by lia.
    exact Hdrop.
Qed.

(** *** Writing the string table *)

Lemma elem_of_str_used_by (r : list (option RemappedTranslationItem)) (i k : nat) :
  k ∈ str_used_by r i
  <-> k = i \/ exists t, r !! k = Some (Some t) /\ str_index t = i.
Proof.
  unfold str_used_by. rewrite elem_of_cons.
  apply or_iff_compat_l.
  rewrite list_elem_of_In, in_map_iff. split.
  - intros ([k' x] & Hk & Hin). simpl in Hk. subst k'.
    apply List.filter_In in Hin as [Hin Hf].
    apply list_elem_of_In, elem_of_lookup_imap in Hin as (k' & y & Heq & Hy).
    injection Heq as -> ->. simpl in Hf.
    destruct y as [t|]; [|discriminate].
    apply Nat.eqb_eq in Hf. eauto.
  - intros (t & Hk & Ht). exists (k, Some t). split; [reflexivity|].
    apply List.filter_In. split.
    + apply list_elem_of_In. apply (elem_of_lookup_imap_2 pair). exact Hk.
    + simpl. apply Nat.eqb_eq. exact Ht.
Qed.

(** The offset that the iteration for the root [i] writes at [k]. *)
Definition used_offset (r : list (option RemappedTranslationItem))
    (i : nat) (off : Z) (k : nat) : Z :=
  if decide (k = i) then off
  else match r !! k with
       | Some (Some remapped) => off + str_start_offset remapped
       | _ => off
       end.

Lemma used_loop_Ok (r : list (option RemappedTranslationItem)) (i : nat) (off : Z)
    (used : list nat) (offs : list Z) :
  (forall k, k ∈ used -> k = i \/ exists t, r !! k = Some (Some t)) ->
  exists offs',
    used_loop r i off used offs = Ok offs'
    /\ length offs' = length offs
    /\ (forall k, k ∉ used -> offs' !! k = offs !! k)
    /\ (forall k, k ∈ used -> (k < length offs)%nat ->
        offs' !! k = Some (used_offset r i off k)).
Proof.
  revert offs. induction used as [|j used IH]; intros offs Hused.
  - exists offs. split; [reflexivity|]. split; [reflexivity|].
    split; [reflexivity|]. intros k Hk. inversion Hk.
  - assert (Hstep : exists v,
              used_loop r i off (j :: used) offs
              = used_loop r i off used (<[j := v]> offs)
              /\ v = used_offset r i off j).
    { simpl. unfold used_offset. destruct (decide (j = i)) as [Hj|Hj]; [eauto|].
      destruct (Hused j ltac:(left)) as [?|[t Ht]]; [contradiction|].
      rewrite Ht. eauto. }
    destruct Hstep as (v & -> & Hv).
    destruct (IH (<[j := v]> offs)) as (offs' & Hrun & Hlen & Hfr & Hval).
    { intros k Hk. apply Hused. right. exact Hk. }
    exists offs'. split; [exact Hrun|].
    split; [rewrite Hlen; apply length_insert|].
    split.
    + intros k Hk. apply not_elem_of_cons in Hk as [Hkj Hk].
      rewrite (Hfr k Hk). apply list_lookup_insert_ne. congruence.
    + intros k Hk Hlt.
      destruct (decide (k ∈ used)) as [Hin|Hni].
      * apply Hval; [exact Hin|]. rewrite length_insert. exact Hlt.
      * apply elem_of_cons in Hk as [->|Hk]; [|contradiction].
        rewrite (Hfr j Hni), Hv. apply list_lookup_insert_eq. exact Hlt.
Qed.

(** The bytes written so far. *)
Definition data_of (text : list literal) : list Z := concat (map literal_bytes text).

(** The writer after the iteration for a root [i] with bytes [b]. *)
Definition write_step (w : writer) (i : nat) (offsets : list Z) (b : list Z) : writer :=
  {| str_offsets := <[i := offset w]> offsets;
     offset := offset w + (Z.of_nat (length b) + 1);
     write_null := true;
     translation_strings_text :=
       (if write_null w
        then translation_strings_text w ++ [NulLiteral]
        else translation_strings_text w) ++ [DataLiteral i b] |}.

(** [offset] counts the bytes written, with the separator to come. *)
Definition writer_ok (w : writer) : Prop :=
  (write_null w = false /\ translation_strings_text w = [] /\ offset w = 0)
  \/ (write_null w = true
      /\ offset w = Z.of_nat (length (data_of (translation_strings_text w))) + 1).

(** [k] is written by an iteration over [items]. *)
Definition touched (r : list (option RemappedTranslationItem))
    (items : list (nat * str)) (k : nat) : Prop :=
  exists i s, (i, s) ∈ items /\ r !! i = Some None /\ k ∈ str_used_by r i.

Section WriteLoop.

Variables (tbl : gmap N (list Z)) (r : list (option RemappedTranslationItem)).

Lemma write_loop_cons (i : nat) (s : str) (items : list (nat * str)) (w w' : writer) :
  write_loop tbl r ((i, s) :: items) w = Ok w' ->
  (exists t, r !! i = Some (Some t) /\ write_loop tbl r items w = Ok w')
  \/ (r !! i = Some None
      /\ exists b offsets,
           convert_string_bytes tbl s = Ok b
           /\ used_loop r i (offset w) (str_used_by r i) (str_offsets w) = Ok offsets
           /\ length offsets = length (str_offsets w)
           /\ (forall k, k ∉ str_used_by r i -> offsets !! k = str_offsets w !! k)
           /\ (forall k, k ∈ str_used_by r i -> (k < length (str_offsets w))%nat ->
               offsets !! k = Some (used_offset r i (offset w) k))
           /\ write_loop tbl r items (write_step w i offsets b) = Ok w').
Proof.
  cbn [write_loop]. intros H.
  destruct (r !! i) as [[t|]|] eqn:Er; [left; eauto | right | discriminate].
  split; [reflexivity|].
  inv_bind H. rename a into offsets. inv_bind H. rename a into b.
  destruct (used_loop_Ok r i (offset w) (str_used_by r i) (str_offsets w))
    as (offs' & Hrun & Hlen & Hfr & Hval).
  { intros k Hk. apply elem_of_str_used_by in Hk as [Hk|(t & Ht & _)]; eauto. }
  rewrite Hrun in Ha. injection Ha as <-.
  exists b, offs'. repeat split; assumption.
Qed.

Lemma touched_cons_skip (i : nat) (s : str) (items : list (nat * str)) (k : nat) :
  r !! i <> Some None -> touched r ((i, s) :: items) k -> touched r items k.
Proof.
  intros Hi (i' & s' & Hin & Hr & Hk).
  apply elem_of_cons in Hin as [Heq|Hin]; [injection Heq as -> ->; contradiction|].
  exists i', s'. auto.
Qed.

Lemma data_of_app (t1 t2 : list literal) : data_of (t1 ++ t2) = data_of t1 ++ data_of t2.
Proof. unfold data_of. rewrite map_app, concat_app. reflexivity. Qed.

Lemma emitted_app (t1 t2 : list literal) : emitted (t1 ++ t2) = emitted t1 ++ emitted t2.
Proof. unfold emitted. apply omap_app. Qed.

Lemma write_step_emitted (w : writer) (i : nat) (offsets : list Z) (b : list Z) :
  emitted (translation_strings_text (write_step w i offsets b))
  = emitted (translation_strings_text w) ++ [i].
Proof.
  simpl. destruct (write_null w); rewrite !emitted_app; simpl;
    rewrite ?app_nil_r; reflexivity.
Qed.

Lemma write_step_data (w : writer) (i : nat) (offsets : list Z) (b : list Z) :
  writer_ok w ->
  exists sep,
    data_of (translation_strings_text (write_step w i offsets b))
    = (data_of (translation_strings_text w) ++ sep) ++ b
    /\ Z.of_nat (length (data_of (translation_strings_text w) ++ sep)) = offset w
    /\ (write_null w = true -> sep = [0])
    /\ writer_ok (write_step w i offsets b).
Proof.
  assert (Hd : data_of [DataLiteral i b] = b)
    by (unfold data_of; simpl; apply app_nil_r).
  assert (Hz : data_of [NulLiteral] = [0]) by reflexivity.
  intros [(Hn & Ht & Ho)|(Hn & Ho)].
  - exists []. unfold write_step, writer_ok. cbn [translation_strings_text write_null offset].
    rewrite Hn, Ht, Ho. cbn [app]. rewrite Hd. change (data_of []) with (@nil Z).
    split; [reflexivity|]. split; [reflexivity|]. split; [discriminate|].
    right. split; [reflexivity | lia].
  - exists [0]. unfold write_step, writer_ok. cbn [translation_strings_text write_null offset].
    rewrite Hn, !data_of_app, Hd, Hz.
    split; [reflexivity|]. split; [rewrite length_app; simpl; lia|].
    split; [reflexivity|].
    right. split; [reflexivity|]. rewrite !length_app. simpl. lia.
Qed.

(** The loop keeps the length of [str_offsets], writes only at the roots
    of [items] and at their aliases, and emits the roots. *)
Lemma write_loop_frame (items : list (nat * str)) (w w' : writer) :
  write_loop tbl r items w = Ok w' ->
  length (str_offsets w') = length (str_offsets w)
  /\ (forall k, ~ touched r items k -> str_offsets w' !! k = str_offsets w !! k)
  /\ (forall i, i ∈ emitted (translation_strings_text w')
                <-> i ∈ emitted (translation_strings_text w)
                    \/ exists s, (i, s) ∈ items /\ r !! i = Some None).
Proof.
  revert w. induction items as [|[i s] items IH]; intros w H.
  - simpl in H. injection H as <-. split; [reflexivity|]. split; [reflexivity|].
    intros i. split; [auto|]. intros [?|(s & Hin & _)]; [assumption | inversion Hin].
  - apply write_loop_cons in H
      as [(t & Hr & H)|(Hr & b & offsets & Hb & _ & Hlen & Hfr & _ & H)].
    + destruct (IH w H) as (Hl & Hf & He).
      split; [exact Hl|]. split.
      * intros k Hk. apply Hf. intros (i' & s' & Hin & Hr' & Hk').
        apply Hk. exists i', s'. split; [right; exact Hin | auto].
      * intros i'. rewrite He. apply or_iff_compat_l. split.
        -- intros (s' & Hin & Hr'). exists s'. split; [right; exact Hin | exact Hr'].
        -- intros (s' & Hin & Hr'). exists s'. split; [|exact Hr'].
           apply elem_of_cons in Hin as [Heq|Hin]; [|exact Hin].
           injection Heq as -> ->. congruence.
    + destruct (IH _ H) as (Hl & Hf & He).
      split; [rewrite Hl; simpl; rewrite length_insert; exact Hlen|].
      split.
      * intros k Hk. rewrite Hf.
        -- assert (Hnu : k ∉ str_used_by r i).
           { intros Hin. apply Hk. exists i, s. split; [left|]. auto. }
           simpl. rewrite list_lookup_insert_ne.
           ++ apply Hfr, Hnu.
           ++ intros <-. apply Hnu. apply elem_of_str_used_by. left. reflexivity.
        -- intros (i' & s' & Hin & Hr' & Hk').
           apply Hk. exists i', s'. split; [right; exact Hin | auto].
      * intros i'. rewrite He, write_step_emitted, elem_of_app, list_elem_of_singleton.
        split.
        -- intros [[? | ->] | (s' & Hin & Hr')]; [left; assumption | right | right].
           ++ exists s. split; [left | exact Hr].
           ++ exists s'. split; [right; exact Hin | exact Hr'].
        -- intros [?|(s' & Hin & Hr')]; [left; left; assumption|].
           apply elem_of_cons in Hin as [Heq|Hin].
           ++ injection Heq as -> ->. left. right. reflexivity.
           ++ right. exists s'. auto.
Qed.

(** The loop appends to the data; what it appends behind a written string
    begins with the separator. *)
Lemma write_loop_data (items : list (nat * str)) (w w' : writer) :
  writer_ok w ->
  write_loop tbl r items w = Ok w' ->
  writer_ok w'
  /\ offset w <= offset w'
  /\ exists rest,
       data_of (translation_strings_text w')
       = data_of (translation_strings_text w) ++ rest
       /\ (write_null w = true -> rest = [] \/ exists rest', rest = 0 :: rest').
Proof.
  revert w. induction items as [|[i s] items IH]; intros w Hok H.
  - simpl in H. injection H as <-. split; [exact Hok|]. split; [lia|].
    exists []. rewrite app_nil_r. auto.
  - apply write_loop_cons in H
      as [(t & Hr & H)|(Hr & b & offsets & Hb & _ & Hlen & Hfr & _ & H)].
    + apply IH; assumption.
    + destruct (write_step_data w i offsets b Hok) as (sep & Hdata & Hoff & Hsep & Hok1).
      destruct (IH _ Hok1 H) as (Hok' & Hmono & rest & Hrest & Hnul).
      split; [exact Hok'|]. split; [simpl in Hmono; lia|].
      exists (sep ++ b ++ rest). split.
      * rewrite Hrest, Hdata, <- !app_assoc. reflexivity.
      * intros Hn. right. rewrite (Hsep Hn). simpl. eauto.
Qed.

Lemma writer_ok_offset (w : writer) : writer_ok w -> 0 <= offset w.
Proof. intros [(_ & _ & ->)|(_ & ->)]; lia. Qed.

Lemma take_drop_middle (pre b post : list Z) (o : Z) :
  Z.of_nat (length pre) = o ->
  take (length b + 1) (drop (Z.to_nat o) (pre ++ b ++ 0 :: post)) = b ++ [0].
Proof.
  intros <-. rewrite Nat2Z.id, drop_app_length.
  change (b ++ 0 :: post) with (b ++ [0] ++ post). rewrite app_assoc.
  apply take_app_length'. rewrite length_app. reflexivity.
Qed.

(** Each root of [items] gets the offset at which its bytes are written,
    with a NUL behind them, and each of its aliases gets that offset plus
    its own start offset. *)
Lemma write_loop_roots (items : list (nat * str)) (w w' : writer) :
  NoDup (map fst items) ->
  (forall i s, (i, s) ∈ items -> (i < length (str_offsets w))%nat) ->
  writer_ok w ->
  write_loop tbl r items w = Ok w' ->
  forall i s, (i, s) ∈ items -> r !! i = Some None ->
    exists o b,
      convert_string_bytes tbl s = Ok b
      /\ 0 <= o
      /\ str_offsets w' !! i = Some o
      /\ (forall k t, r !! k = Some (Some t) -> str_index t = i ->
                      (k < length (str_offsets w))%nat ->
                      str_offsets w' !! k = Some (o + str_start_offset t))
      /\ take (length b + 1)
           (drop (Z.to_nat o) (data_of (translation_strings_text w') ++ [0]))
         = b ++ [0].
Proof.
  revert w. induction items as [|[i0 s0] items IH]; intros w Hnd Hlt Hok H i s Hin Hri.
  { inversion Hin. }
  simpl in Hnd. apply NoDup_cons in Hnd as [Hni Hnd].
  apply write_loop_cons in H
    as [(t & Hr & H)|(Hr & b & offsets & Hb & _ & Hlen & Hfr & Hval & H)].
  - apply elem_of_cons in Hin as [Heq|Hin]; [injection Heq as -> ->; congruence|].
    apply (IH w Hnd); auto. intros i' s' Hin'. apply (Hlt i' s'). right. exact Hin'.
  - destruct (write_step_data w i0 offsets b Hok) as (sep & Hdata & Hoff & Hsep & Hok1).
    assert (Hlen1 : length (str_offsets (write_step w i0 offsets b))
                    = length (str_offsets w))
      by (simpl; rewrite length_insert; exact Hlen).
    apply elem_of_cons in Hin as [Heq|Hin].
    + injection Heq as -> ->.
      destruct (write_loop_frame items _ w' H) as (_ & Hframe & _).
      destruct (write_loop_data items _ w' Hok1 H) as (_ & _ & rest & Hrest & Hnul).
      assert (Hi0 : (i0 < length (str_offsets w))%nat) by (apply (Hlt i0 s0); left).
      exists (offset w), b. split; [exact Hb|].
      split; [apply writer_ok_offset, Hok|].
      split; [|split].
      * rewrite Hframe.
        -- simpl. apply list_lookup_insert_eq. rewrite Hlen. exact Hi0.
        -- intros (i' & s' & Hin' & Hr' & Hk).
           apply elem_of_str_used_by in Hk as [->|(t & Ht & _)]; [|congruence].
           apply Hni. apply list_elem_of_fmap. exists (i', s'). auto.
      * intros k t Hk Ht Hklt. rewrite Hframe.
        -- assert (Hne : i0 <> k) by (intros ->; congruence).
           simpl. rewrite list_lookup_insert_ne by exact Hne.
           rewrite Hval; [| apply elem_of_str_used_by; right; eauto | exact Hklt].
           unfold used_offset. destruct (decide (k = i0)); [congruence|].
           rewrite Hk. reflexivity.
        -- intros (i' & s' & Hin' & Hr' & Hk').
           apply elem_of_str_used_by in Hk' as [->|(t' & Ht' & Hi')]; [congruence|].
           rewrite Hk in Ht'. injection Ht' as <-.
           apply Hni. apply list_elem_of_fmap. exists (i', s').
           split; [simpl; congruence | exact Hin'].
      * rewrite Hrest, Hdata, <- !app_assoc.
        rewrite (app_assoc (data_of (translation_strings_text w)) sep).
        destruct (Hnul eq_refl) as [->|(rest' & ->)]; simpl;
          apply take_drop_middle; exact Hoff.
    + destruct (IH _ Hnd ltac:(intros i' s' Hin'; rewrite Hlen1; apply (Hlt i' s');
                                right; exact Hin') Hok1 H i s Hin Hri)
        as (o & b' & Hb' & Ho & Hoi & Hal & Hblob).
      exists o, b'. repeat split; try assumption.
      intros k t Hk Ht Hklt. apply (Hal k t Hk Ht). rewrite Hlen1. exact Hklt.
Qed.

End WriteLoop.

(** *** The whole function *)

Definition initial_writer (n : nat) : writer :=
  {| str_offsets := replicate n (-1);
     offset := 0;
     write_null := false;
     translation_strings_text := [] |}.

Lemma get_translation_inv (tbl : gmap N (list Z)) (str_table : list str)
    (text : list literal) (offsets : list Z) :
  get_translation_strings_and_indices_text tbl str_table = Ok (text, offsets) ->
  exists remapping w',
    str_remapping tbl str_table = Ok remapping
    /\ write_loop tbl remapping (enumerate str_table)
         (initial_writer (length str_table)) = Ok w'
    /\ text = translation_strings_text w'
    /\ offsets = str_offsets w'.
Proof.
  unfold get_translation_strings_and_indices_text. intros H.
  inv_bind H. rename a into remapping. inv_bind H. rename a into w'.
  destruct (forallb _ _); [|discriminate]. injection H as <- <-.
  exists remapping, w'. repeat split; assumption.
Qed.

Lemma enumerate_NoDup {A} (l : list A) : NoDup (map fst (enumerate l)).
Proof. rewrite enumerate_fst. apply NoDup_seq. Qed.

Lemma initial_writer_ok (n : nat) : writer_ok (initial_writer n).
Proof. left. repeat split. Qed.

(** A string whose bytes are a proper end of the bytes of another string
    comes before it in the sorted table and is remapped. *)
Lemma proper_suffix_remapped (tbl : gmap N (list Z)) (str_table : list str)
    (table : list entry) (remapping : list (option RemappedTranslationItem))
    (A B : nat) (sA sB : str) (bA bB : list Z) :
  backward_sorted_table tbl str_table = Ok table ->
  remap_loop table 0 table (replicate (length str_table) None) = Ok remapping ->
  str_table !! A = Some sA -> str_table !! B = Some sB ->
  convert_string_bytes tbl sA = Ok bA -> convert_string_bytes tbl sB = Ok bB ->
  bA `suffix_of` bB -> (length bA < length bB)%nat ->
  exists ej,
    ej ∈ table
    /\ remapping !! A = Some (Some (alias_of ej (A, sA, rev bA)))
    /\ startswith ej.2 (rev bA) = true
    /\ remapping !! idx_of ej = Some None.
Proof.
  intros Htab Hloop HA HB HbA HbB Hsuf Hlen.
  destruct (table_has _ _ _ Htab A sA HA) as (cA & HinA & HcA).
  destruct (table_has _ _ _ Htab B sB HB) as (cB & HinB & HcB).
  rewrite HbA in HcA. injection HcA as HcA.
  rewrite HbB in HcB. injection HcB as HcB.
  assert (EA : cA = rev bA) by (rewrite HcA, rev_involutive; reflexivity).
  assert (EB : cB = rev bB) by (rewrite HcB, rev_involutive; reflexivity).
  subst cA cB. clear HcA HcB.
  set (eA := (A, sA, rev bA) : entry) in *.
  set (eB := (B, sB, rev bB) : entry) in *.
  assert (Hstart : startswith (rev bB) (rev bA) = true)
    by (apply suffix_rev_startswith; exact Hsuf).
  pose proof (table_StronglySorted _ _ _ Htab) as Hsorted.
  (* the entry of A comes first *)
  assert (Hbef : before eA eB table).
  { destruct (before_or eA eB table HinA HinB) as [Hb|Hb]; [| exact Hb |].
    - intros Heq. injection Heq as _ _ Heq.
      apply (f_equal (@length Z)) in Heq. rewrite !length_rev in Heq. lia.
    - exfalso. apply (StronglySorted_before _ _ _ _ Hsorted) in Hb.
      unfold entry_leb in Hb. simpl in Hb.
      apply startswith_prefix in Hstart as [k Hk]. rewrite Hk in Hb.
      rewrite bytes_leb_extension in Hb; [discriminate|].
      intros ->. rewrite app_nil_r in Hk.
      apply (f_equal (@length Z)) in Hk. rewrite !length_rev in Hk. lia. }
  destruct Hbef as (l1 & l2 & l3 & Htable).
  set (pA := length l1).
  assert (HpA : table !! pA = Some eA).
  { rewrite Htable. apply list_lookup_middle. reflexivity. }
  (* the next entry starts with the reversed bytes of A *)
  assert (Hnext : exists eC, table !! S pA = Some eC
                             /\ startswith eC.2 (rev bA) = true).
  { destruct l2 as [|eC l2'].
    - exists eB. split.
      + rewrite Htable. rewrite lookup_app_r by (unfold pA; lia).
        replace (S pA - length l1)%nat with 1%nat by (unfold pA; lia). reflexivity.
      + exact Hstart.
    - exists eC. split.
      + rewrite Htable. rewrite lookup_app_r by (unfold pA; lia).
        replace (S pA - length l1)%nat with 1%nat by (unfold pA; lia). reflexivity.
      + apply (startswith_between (rev bA) eC.2 (rev bB)); [| |exact Hstart].
        * apply (StronglySorted_before _ eA eC table Hsorted).
          exists l1, [], (l2' ++ eB :: l3). exact Htable.
        * apply (StronglySorted_before _ eC eB table Hsorted).
          exists (l1 ++ [eA]), l2', l3. rewrite Htable, <- app_assoc. reflexivity. }
  destruct Hnext as (eC & HeC & HstartC).
  destruct (remapping_facts _ _ _ _ Htab Hloop) as (_ & _ & Hpt).
  destruct (Hpt pA eA (lookup_lt_Some _ _ _ HeC) HpA) as (j & Hscan & _ & Hdiff).
  assert (Hj : (pA < j)%nat).
  { pose proof Hscan as Hscan'.
    rewrite (drop_S _ _ _ HeC) in Hscan'. simpl in Hscan'.
    change (eA.2) with (rev bA) in Hscan'. rewrite HstartC in Hscan'.
    destruct (scan_run_Ok table (rev bA) _ (S pA) j eq_refl Hscan') as (Hle & _). lia. }
  destruct (Hdiff ltac:(lia)) as (ej & Hej & Hr).
  destruct (remapping_target_root _ _ _ _ Htab Hloop pA j eA ej HpA Hj Hscan Hej)
    as [Hsj Hroot].
  exists ej. split; [apply list_elem_of_lookup_2 in Hej; exact Hej|].
  split; [exact Hr|]. split; [exact Hsj | exact Hroot].
Qed.

Lemma take_drop_suffix (l k x : list Z) (o : Z) :
  0 <= o ->
  take (length (k ++ x)) (drop (Z.to_nat o) l) = k ++ x ->
  take (length x) (drop (Z.to_nat (o + Z.of_nat (length k))) l) = x.
Proof.
  intros Ho H.
  replace (Z.to_nat (o + Z.of_nat (length k))) with (Z.to_nat o + length k)%nat by lia.
  rewrite <- drop_drop, take_drop_commute.
  rewrite length_app in H. rewrite H. apply drop_app_length.
Qed.

(** C1, as amended. When the function returns and the bytes of a string
    [A] of the table are a proper end of the bytes of a string [B], [A] is
    not written to the blob: it is aliased to a root [R] that is written
    and whose bytes end with the bytes of [A] ([R] is the furthest entry
    of the sorted run, which need not be [B]); the offset of [A] is the
    offset of [R] plus [len(R) - len(A)], and the blob holds there the
    bytes of [A] followed by a NUL. *)
Theorem proper_suffix_is_aliased (tbl : gmap N (list Z)) (str_table : list str)
    (text : list literal) (offsets : list Z)
    (A B : nat) (sA sB : str) (bA bB : list Z) :
  get_translation_strings_and_indices_text tbl str_table = Ok (text, offsets) ->
  str_table !! A = Some sA -> str_table !! B = Some sB ->
  convert_string_bytes tbl sA = Ok bA -> convert_string_bytes tbl sB = Ok bB ->
  bA `suffix_of` bB -> (length bA < length bB)%nat ->
  (A ∉ emitted text)
  /\ exists (R : nat) (sR : str) (bR : list Z) (oR : Z),
       str_table !! R = Some sR
       /\ convert_string_bytes tbl sR = Ok bR
       /\ bA `suffix_of` bR
       /\ R ∈ emitted text
       /\ offsets !! R = Some oR
       /\ offsets !! A
          = Some (oR + (Z.of_nat (length bR) - Z.of_nat (length bA)))
       /\ take (length bA + 1)
            (drop (Z.to_nat (oR + (Z.of_nat (length bR) - Z.of_nat (length bA))))
               (TranslationStringsData text))
          = bA ++ [0].
Proof.
  intros H HA HB HbA HbB Hsuf Hlen.
  apply get_translation_inv in H as (remapping & w' & Hremap & Hwrite & -> & ->).
  destruct (str_remapping_inv _ _ _ Hremap) as (table & Htab & Hloop).
  destruct (proper_suffix_remapped _ _ _ _ A B sA sB bA bB Htab Hloop
              HA HB HbA HbB Hsuf Hlen) as (ej & Hin & HrA & Hstart & Hroot).
  destruct (table_entry _ _ _ Htab ej Hin) as [HsR HcR].
  destruct (write_loop_frame _ _ _ _ _ Hwrite) as (Hlenw & _ & Hemit).
  assert (HAlt : (A < length str_table)%nat) by (eapply lookup_lt_Some; eauto).
  split.
  { rewrite Hemit. intros [Hin'|(s & _ & Hr)]; [inversion Hin' | congruence]. }
  assert (HinR : (idx_of ej, ej.1.2) ∈ enumerate str_table)
    by (apply (elem_of_lookup_imap_2 pair); exact HsR).
  assert (Hbound : forall i s, (i, s) ∈ enumerate str_table ->
            (i < length (str_offsets (initial_writer (length str_table))))%nat).
  { intros i s Hi. unfold initial_writer. cbn [str_offsets].
    rewrite length_replicate.
    apply elem_of_lookup_imap in Hi as (i' & y & Heq & Hy).
    injection Heq as -> ->. eapply lookup_lt_Some; eauto. }
  destruct (write_loop_roots tbl remapping (enumerate str_table) _ w'
              (enumerate_NoDup str_table) Hbound
              (initial_writer_ok _) Hwrite (idx_of ej) ej.1.2 HinR Hroot)
    as (oR & bR & HbR & HoR & HoffR & Halias & Hblob).
  rewrite HcR in HbR. injection HbR as <-.
  destruct (entry_suffix (A, sA, rev bA) ej Hstart) as [Hsuf' _].
  simpl in Hsuf'. rewrite rev_involutive in Hsuf'.
  exists (idx_of ej), ej.1.2, (rev ej.2), oR.
  split; [exact HsR|]. split; [exact HcR|]. split; [exact Hsuf'|].
  split; [apply Hemit; right; eauto|].
  split; [exact HoffR|].
  assert (Hoff : str_offsets w' !! A
                 = Some (oR + (Z.of_nat (length (rev ej.2)) - Z.of_nat (length bA)))).
  { rewrite (Halias A _ HrA eq_refl)
      by (unfold initial_writer; cbn [str_offsets]; rewrite length_replicate;
          exact HAlt).
    simpl. rewrite !length_rev. reflexivity. }
  split; [exact Hoff|].
  destruct Hsuf' as [k Hk].
  unfold TranslationStringsData. fold (data_of (translation_strings_text w')).
  rewrite Hk in Hblob |- *.
  replace (Z.of_nat (length (k ++ bA)) - Z.of_nat (length bA))
    with (Z.of_nat (length k)) by (rewrite length_app; lia).
  replace (length bA + 1)%nat with (length (bA ++ [0])) by (rewrite length_app; reflexivity).
  apply (take_drop_suffix _ k (bA ++ [0]) oR HoR).
  rewrite app_assoc, (length_app (k ++ bA) [0]). exact Hblob.
Qed.

(** *** When the run of an entry reaches the end of the table *)

Lemma remap_loop_Raise (table : list entry) (entries : list entry) (i : nat)
    (r : list (option RemappedTranslationItem)) (e : exn) :
  remap_loop table i entries r = Raise e -> e = IndexError.
Proof.
  revert i r. induction entries as [|[[idx source_str] converted] rest IH];
    intros i r H; cbn [remap_loop] in H; [discriminate|].
  destruct rest as [|e1 rest']; [discriminate|].
  apply bind_Raise_inv in H as [H|(j & _ & H)].
  { apply scan_run_Raise in H as [-> _]. reflexivity. }
  destruct (decide (j <> i)); [|eapply IH; eauto].
  apply bind_Raise_inv in H as [H|(ej & _ & H)]; [|eapply IH; eauto].
  unfold table_at in H. destruct (table !! j); congruence.
Qed.

(** If the last entry of the sorted table starts with the reversed bytes
    of the entry before it, that is, if the bytes of the last but one
    string end the bytes of the last one, the [while] loop reads past the
    end of the table and the function raises [IndexError]. *)
Lemma run_to_the_end_raises (tbl : gmap N (list Z)) (str_table : list str)
    (table : list entry) (p : nat) (e1 e2 : entry) :
  backward_sorted_table tbl str_table = Ok table ->
  table !! p = Some e1 -> table !! S p = Some e2 -> S (S p) = length table ->
  startswith e2.2 e1.2 = true ->
  str_remapping tbl str_table = Raise IndexError
  /\ get_translation_strings_and_indices_text tbl str_table = Raise IndexError.
Proof.
  intros Htab H1 H2 Hlen Hstart.
  assert (Hr : str_remapping tbl str_table = Raise IndexError).
  { unfold str_remapping. rewrite Htab. cbn [bind].
    destruct (remap_loop table 0 table (replicate (length str_table) None))
      as [remapping|e] eqn:E.
    - exfalso.
      destruct (remapping_facts _ _ _ _ Htab E) as (_ & _ & Hpt).
      destruct (Hpt p e1 ltac:(lia) H1) as (j & Hscan & _).
      rewrite (drop_S _ _ _ H2), (drop_ge table (S (S p))) in Hscan by lia.
      simpl in Hscan. rewrite Hstart in Hscan. discriminate.
    - apply remap_loop_Raise in E. subst e. reflexivity. }
  split; [exact Hr|].
  unfold get_translation_strings_and_indices_text. rewrite Hr. reflexivity.
Qed.

(** *** Examples *)

(** The identity encoding of the printable ASCII characters. *)
Definition identity_table : gmap N (list Z) :=
  list_to_map (map (fun c => (N.of_nat c, [Z.of_nat c])) (seq 32 95)).

Example abcdef_def_z :
  get_translation_strings_and_indices_text identity_table
    [py_str "ABCDEF"; py_str "DEF"; py_str "Z"]
  = Ok ([DataLiteral 0 [65; 66; 67; 68; 69; 70]; NulLiteral; DataLiteral 2 [90]],
        [0; 3; 7])
  /\ TranslationStringsData
       [DataLiteral 0 [65; 66; 67; 68; 69; 70]; NulLiteral; DataLiteral 2 [90]]
     = [65; 66; 67; 68; 69; 70; 0; 90; 0].
Proof. split; vm_compute; reflexivity. Qed.

(** When a run of the sorted table reaches its last entry, the [while]
    loop reads [backward_sorted_table[len]]: the two strings alone make
    the function raise. *)
Example abcdef_def_raises :
  get_translation_strings_and_indices_text identity_table
    [py_str "ABCDEF"; py_str "DEF"]
  = Raise IndexError.
Proof. vm_compute. reflexivity. Qed.

Example empty_string_raises :
  get_translation_strings_and_indices_text identity_table
    [py_str "A"; []; py_str "Z"]
  = Raise IndexError.
Proof. vm_compute. reflexivity. Qed.

(** Of two strings with the same bytes the later one is written. *)
Example equal_bytes_second_is_written :
  get_translation_strings_and_indices_text identity_table
    [py_str "ab"; py_str "ab"; py_str "z"]
  = Ok ([DataLiteral 1 [97; 98]; NulLiteral; DataLiteral 2 [122]], [0; 0; 3]).
Proof. vm_compute. reflexivity. Qed.

Lemma alias_target_is_root_witness :
  exists remapping,
    str_remapping identity_table [py_str "f"; py_str "ef"; py_str "gf"; py_str "z"]
    = Ok remapping
    /\ length remapping
       = length [py_str "f"; py_str "ef"; py_str "gf"; py_str "z"]
    /\ forall s t, remapping !! s = Some (Some t) ->
         str_index t <> s
         /\ remapping !! str_index t = Some None
         /\ exists text_s text_t bytes_s bytes_t,
              [py_str "f"; py_str "ef"; py_str "gf"; py_str "z"] !! s = Some text_s
              /\ [py_str "f"; py_str "ef"; py_str "gf"; py_str "z"] !! str_index t
                 = Some text_t
              /\ convert_string_bytes identity_table text_s = Ok bytes_s
              /\ convert_string_bytes identity_table text_t = Ok bytes_t
              /\ bytes_s `suffix_of` bytes_t
              /\ str_start_offset t
                 = Z.of_nat (length bytes_t) - Z.of_nat (length bytes_s)
              /\ drop (Z.to_nat (str_start_offset t)) bytes_t = bytes_s.
Proof.
  destruct (str_remapping identity_table
              [py_str "f"; py_str "ef"; py_str "gf"; py_str "z"])
    as [remapping|e] eqn:E.
  - exists remapping. split; [reflexivity|].
    exact (alias_target_is_root _ _ _ E).
  - vm_compute in E. discriminate.
Defined.

Example f_ef_gf_z_remapping :
  str_remapping identity_table [py_str "f"; py_str "ef"; py_str "gf"; py_str "z"]
  = Ok [Some {| str_index := 2; str_start_offset := 1 |}; None; None; None].
Proof. vm_compute. reflexivity. Qed.

(** C1 as stated fails: the bytes of "f" end the bytes of "ef", but "f" is
    aliased to "gf", the furthest entry of its run. Its offset is 4, that
    of "ef" is 0, and [len("ef") - len("f")] is 1. *)
Lemma suffix_offset_not_relative_to_every_string :
  get_translation_strings_and_indices_text identity_table
    [py_str "f"; py_str "ef"; py_str "gf"; py_str "z"]
  = Ok ([DataLiteral 1 [101; 102]; NulLiteral; DataLiteral 2 [103; 102];
         NulLiteral; DataLiteral 3 [122]],
        [4; 0; 3; 6])
  /\ convert_string_bytes identity_table (py_str "f") = Ok [102]
  /\ convert_string_bytes identity_table (py_str "ef") = Ok [101; 102]
  /\ [102] `suffix_of` [101; 102]
  /\ ([4; 0; 3; 6] : list Z) !! 0%nat = Some 4
  /\ ([4; 0; 3; 6] : list Z) !! 1%nat = Some 0
  /\ 4 <> 0 + (Z.of_nat (length [101; 102]) - Z.of_nat (length [102])).
Proof.
  split; [vm_compute; reflexivity|].
  split; [vm_compute; reflexivity|].
  split; [vm_compute; reflexivity|].
  split; [exists [101]; reflexivity|].
  split; [reflexivity|]. split; [reflexivity|]. discriminate.
Qed.

Lemma proper_suffix_is_aliased_witness :
  exists text offsets,
    get_translation_strings_and_indices_text identity_table
      [py_str "ABCDEF"; py_str "DEF"; py_str "Z"] = Ok (text, offsets)
    /\ [py_str "ABCDEF"; py_str "DEF"; py_str "Z"] !! 1%nat = Some (py_str "DEF")
    /\ [py_str "ABCDEF"; py_str "DEF"; py_str "Z"] !! 0%nat = Some (py_str "ABCDEF")
    /\ convert_string_bytes identity_table (py_str "DEF") = Ok [68; 69; 70]
    /\ convert_string_bytes identity_table (py_str "ABCDEF")
       = Ok [65; 66; 67; 68; 69; 70]
    /\ [68; 69; 70] `suffix_of` [65; 66; 67; 68; 69; 70]
    /\ (length [68; 69; 70] < length [65; 66; 67; 68; 69; 70])%nat
    /\ (1%nat ∉ emitted text)
    /\ exists (R : nat) (sR : str) (bR : list Z) (oR : Z),
         [py_str "ABCDEF"; py_str "DEF"; py_str "Z"] !! R = Some sR
         /\ convert_string_bytes identity_table sR = Ok bR
         /\ [68; 69; 70] `suffix_of` bR
         /\ R ∈ emitted text
         /\ offsets !! R = Some oR
         /\ offsets !! 1%nat
            = Some (oR + (Z.of_nat (length bR) - Z.of_nat (length [68; 69; 70])))
         /\ take (length [68; 69; 70] + 1)
              (drop (Z.to_nat (oR + (Z.of_nat (length bR)
                                     - Z.of_nat (length [68; 69; 70]))))
                 (TranslationStringsData text))
            = [68; 69; 70] ++ [0].
Proof.
  assert (HbA : convert_string_bytes identity_table (py_str "DEF") = Ok [68; 69; 70])
    by (vm_compute; reflexivity).
  assert (HbB : convert_string_bytes identity_table (py_str "ABCDEF")
                = Ok [65; 66; 67; 68; 69; 70]) by (vm_compute; reflexivity).
  assert (Hsuf : [68; 69; 70] `suffix_of` [65; 66; 67; 68; 69; 70])
    by (exists [65; 66; 67]; reflexivity).
  assert (Hlen : (length [68; 69; 70] < length [65; 66; 67; 68; 69; 70])%nat)
    by (simpl; lia).
  destruct (get_translation_strings_and_indices_text identity_table
              [py_str "ABCDEF"; py_str "DEF"; py_str "Z"])
    as [[text offsets]|e] eqn:E.
  - exists text, offsets. split; [reflexivity|].
    split; [reflexivity|]. split; [reflexivity|].
    split; [exact HbA|]. split; [exact HbB|]. split; [exact Hsuf|].
    split; [exact Hlen|].
    exact (proper_suffix_is_aliased identity_table _ text offsets 1 0
             (py_str "DEF") (py_str "ABCDEF") _ _ E eq_refl eq_refl HbA HbB Hsuf Hlen).
  - vm_compute in E. discriminate.
Defined.

End Compressor.

(** * Further properties *)

(** ** The byte codes of the indices *)

Module Codes.

(** The shape of a code: one byte up to 0xF0, or a leader from 0xF1 on
    with a second byte that is not zero. *)
Lemma get_bytes_shape (i : Z) (c : list Z) :
  get_bytes_from_font_index i = Ok c ->
  (c = [i] /\ 0 <= i <= 240)
  \/ (exists leader value,
        c = [leader; value] /\ 241 <= leader <= 255 /\ 1 <= value <= 255
        /\ i = (leader - 240) * 255 + value - 15).
Proof.
  intros H.
  destruct (Z.lt_ge_cases i 0) as [Hn|Hn].
  { unfold get_bytes_from_font_index in H.
    destruct (Z.ltb_spec i 0); [discriminate | lia]. }
  destruct (Z.le_gt_cases i 240) as [H1|H1].
  { rewrite Encoder.get_bytes_single in H by lia. injection H as <-. left. split; [reflexivity | lia]. }
  destruct (Z.le_gt_cases i 4065) as [H2|H2].
  - rewrite Encoder.get_bytes_double in H by lia. injection H as <-. right.
    exists ((i + 14) / 255 + 240), ((i + 14) mod 255 + 1).
    split; [reflexivity|].
    assert (0 <= (i + 14) mod 255 < 255) by (apply Z.mod_pos_bound; lia).
    repeat split; try lia; Z.div_mod_to_equations; lia.
  - rewrite Encoder.get_bytes_raises in H by lia. discriminate.
Qed.

Lemma get_bytes_inj (i j : Z) (c : list Z) :
  get_bytes_from_font_index i = Ok c -> get_bytes_from_font_index j = Ok c -> i = j.
Proof.
  intros Hi Hj.
  apply get_bytes_shape in Hi as [[-> Hi]|(la & va & -> & Hla & Hva & Hi)];
    apply get_bytes_shape in Hj as [[Hc Hj]|(lb & vb & Hc & Hlb & Hvb & Hj)];
    try discriminate; injection Hc; intros; subst; reflexivity.
Qed.

Lemma get_bytes_nonzero (i : Z) (c : list Z) :
  1 <= i -> get_bytes_from_font_index i = Ok c -> Forall (fun b => 1 <= b <= 255) c.
Proof.
  intros Hi H.
  apply get_bytes_shape in H as [[-> H]|(l & v & -> & Hl & Hv & _)];
    repeat constructor; lia.
Qed.

(** The first byte of a code tells its length, so no code begins another:
    if the codes of two indices head the same byte sequence, the indices
    are equal. *)
Lemma codes_prefix_free (i j : Z) (a b rest_a rest_b : list Z) :
  get_bytes_from_font_index i = Ok a ->
  get_bytes_from_font_index j = Ok b ->
  a ++ rest_a = b ++ rest_b ->
  i = j /\ a = b /\ rest_a = rest_b.
Proof.
  intros Ha Hb Heq.
  apply get_bytes_shape in Ha as [[-> Hi]|(la & va & -> & Hla & Hva & Hi)];
    apply get_bytes_shape in Hb as [[-> Hj]|(lb & vb & -> & Hlb & Hvb & Hj)];
    simpl in Heq.
  - injection Heq as -> ->. auto.
  - injection Heq as -> _. lia.
  - injection Heq as -> _. lia.
  - injection Heq as -> -> ->. subst. auto.
Qed.

(** The other round trip: each single byte up to 0xF0, and each pair of a
    leader 0xF1..0xFF and a second byte 0x01..0xFF, is the code of the
    index it decodes to. The codes are exactly these byte sequences. *)
Theorem decode_then_encode (bs : list Z) :
  (exists b, bs = [b] /\ 0 <= b <= 240)
  \/ (exists leader value,
        bs = [leader; value] /\ 241 <= leader <= 255 /\ 1 <= value <= 255) ->
  exists i,
    decode_font_index bs = Some i
    /\ 0 <= i <= 4065
    /\ get_bytes_from_font_index i = Ok bs.
Proof.
  intros [(b & -> & Hb)|(leader & value & -> & Hl & Hv)].
  - exists b. split; [reflexivity|]. split; [lia|].
    apply Encoder.get_bytes_single. lia.
  - exists ((leader - 0xF0) * 0xFF + value - 15).
    split; [reflexivity|].
    assert (Hr : 241 <= (leader - 0xF0) * 0xFF + value - 15 <= 4065) by lia.
    split; [lia|].
    rewrite Encoder.get_bytes_double by exact Hr.
    f_equal. f_equal; [|f_equal]; Z.div_mod_to_equations; lia.
Qed.

Lemma decode_then_encode_witness :
  ((exists b, [0xF2; 0x10] = [b] /\ 0 <= b <= 240)
   \/ (exists leader value,
         [0xF2; 0x10] = [leader; value] /\ 241 <= leader <= 255
         /\ 1 <= value <= 255))
  /\ exists i,
       decode_font_index [0xF2; 0x10] = Some i
       /\ 0 <= i <= 4065
       /\ get_bytes_from_font_index i = Ok [0xF2; 0x10].
Proof.
  assert (H : (exists b, [0xF2; 0x10] = [b] /\ 0 <= b <= 240)
              \/ (exists leader value,
                    [0xF2; 0x10] = [leader; value] /\ 241 <= leader <= 255
                    /\ 1 <= value <= 255)).
  { right. exists 0xF2, 0x10. split; [reflexivity | lia]. }
  split; [exact H|]. exact (decode_then_encode _ H).
Defined.

(** The codes keep the order of the indices: a larger index has a code
    that is greater in the order of [bytes], the order in which the
    string table is sorted. *)
Theorem codes_increase (i j : Z) (a b : list Z) :
  0 <= i < j ->
  get_bytes_from_font_index i = Ok a ->
  get_bytes_from_font_index j = Ok b ->
  bytes_leb a b = true /\ bytes_leb b a = false.
Proof.
  intros Hij Ha Hb.
  apply get_bytes_shape in Ha as [[-> Hi]|(la & va & -> & Hla & Hva & Hi)];
    apply get_bytes_shape in Hb as [[-> Hj]|(lb & vb & -> & Hlb & Hvb & Hj)];
    simpl.
  - destruct (Z.ltb_spec i j), (Z.ltb_spec j i); try lia; auto.
  - destruct (Z.ltb_spec i lb), (Z.ltb_spec lb i); try lia; auto.
  - lia.
  - assert (la < lb \/ (la = lb /\ va < vb)) as [Hl|[-> Hv]] by nia.
    + destruct (Z.ltb_spec la lb), (Z.ltb_spec lb la); try lia; auto.
    + rewrite Z.ltb_irrefl.
      destruct (Z.ltb_spec va vb), (Z.ltb_spec vb va); try lia; auto.
Qed.

Lemma codes_increase_witness :
  0 <= 240 < 241
  /\ get_bytes_from_font_index 240 = Ok [0xF0]
  /\ get_bytes_from_font_index 241 = Ok [0xF1; 0x01]
  /\ bytes_leb [0xF0] [0xF1; 0x01] = true
  /\ bytes_leb [0xF1; 0x01] [0xF0] = false.
Proof.
  split; [lia|]. split; [reflexivity|]. split; [reflexivity|].
  apply (codes_increase 240 241); [lia | reflexivity | reflexivity].
Defined.

End Codes.

(** ** The symbol collector *)

Module Collector.

(** [replace] brings in no character besides those of the new text. *)
Lemma elem_of_replace2 (a b : N) (new : str) (x : N) (s : str) :
  x ∈ replace2 a b new s -> x ∈ s \/ x ∈ new.
Proof.
  assert (H : forall n s, (length s <= n)%nat ->
                          x ∈ replace2 a b new s -> x ∈ s \/ x ∈ new).
  { induction n as [|n IH]; intros s' Hlen.
    - destruct s'; [simpl; auto | simpl in Hlen; lia].
    - destruct s' as [|c t]; [simpl; auto|].
      destruct t as [|d r]; [simpl; auto|].
      simpl in Hlen.
      assert (Hr : (length r <= n)%nat) by lia.
      assert (Hdr : (length (d :: r) <= n)%nat) by (simpl; lia).
      cbn [replace2]. destruct ((c =? a)%N && (d =? b)%N).
      + intros Hx. apply elem_of_app in Hx as [Hx|Hx]; [auto|].
        destruct (IH r Hr Hx) as [?|?]; [|auto].
        left. right. right. assumption.
      + intros Hx. apply elem_of_cons in Hx as [->|Hx]; [left; left|].
        destruct (IH (d :: r) Hdr Hx) as [?|?]; [|auto].
        left. right. assumption. }
  apply (H (length s)). lia.
Qed.

Lemma elem_of_replace2_empty (a b x : N) (s : str) :
  x ∈ replace2 a b [] s -> x ∈ s.
Proof.
  intros H. apply elem_of_replace2 in H as [H|H]; [exact H | inversion H].
Qed.

Lemma elem_of_strip_line (x : N) (line : str) :
  x ∈ strip_line line -> x ∈ line /\ x <> chr_LF /\ x <> chr_CR.
Proof.
  unfold strip_line, remove_char. intros H.
  apply elem_of_replace2_empty, elem_of_replace2_empty in H.
  apply list_elem_of_filter in H as [Hcr H].
  apply list_elem_of_filter in H as [Hlf H]. auto.
Qed.

Lemma elem_of_concat {A} (x : A) (ls : list (list A)) :
  x ∈ concat ls <-> exists l, l ∈ ls /\ x ∈ l.
Proof.
  rewrite list_elem_of_In, in_concat. split; intros (l & H1 & H2); exists l;
    rewrite ?list_elem_of_In in *; auto.
Qed.

Lemma foldl_count_letter_keys (letters : list N) (d : list (N * Z)) :
  NoDup (map fst d) ->
  NoDup (map fst (foldl (fun d letter => count_letter letter d) d letters))
  /\ forall x, x ∈ map fst (foldl (fun d letter => count_letter letter d) d letters)
               <-> x ∈ map fst d \/ x ∈ letters.
Proof.
  revert d. induction letters as [|y letters IH]; intros d Hd; simpl.
  - split; [exact Hd|]. intros x. rewrite elem_of_nil. tauto.
  - destruct (FontTable.count_letter_keys y d Hd) as [Hnd Hk].
    destruct (IH _ Hnd) as [Hnd' Hk'].
    split; [exact Hnd'|]. intros x. rewrite Hk', Hk, elem_of_cons. tauto.
Qed.

Lemma symbol_counts_keys_iff (text_list : list str) (x : N) :
  x ∈ map fst (symbol_counts text_list)
  <-> x ∈ concat (map strip_line text_list).
Proof.
  unfold symbol_counts.
  assert (H : forall d, NoDup (map fst d) ->
            NoDup (map fst (foldl count_line d text_list))
            /\ (x ∈ map fst (foldl count_line d text_list)
                <-> x ∈ map fst d \/ x ∈ concat (map strip_line text_list))).
  { induction text_list as [|line rest IH]; intros d Hd; simpl.
    - split; [exact Hd|]. rewrite elem_of_nil. tauto.
    - destruct (foldl_count_letter_keys (strip_line line) d Hd) as [Hnd Hk].
      destruct (IH _ Hnd) as [Hnd' Hk'].
      split; [exact Hnd'|].
      rewrite Hk'. unfold count_line. rewrite Hk, elem_of_app. tauto. }
  destruct (H [] ltac:(constructor)) as [_ Hx]. rewrite Hx. simpl.
  rewrite elem_of_nil. tauto.
Qed.

Lemma get_letter_counts_mem (text_list : list str) (x : N) :
  x ∈ concat (map strip_line text_list) -> x ∈ get_letter_counts text_list.
Proof.
  intros Hx. unfold get_letter_counts.
  rewrite elem_of_rev_iff, (sorted_Permutation item_leb (symbol_counts text_list)).
  apply symbol_counts_keys_iff, Hx.
Qed.

Lemma get_letter_counts_symbols_aux2 (text_list : list str) :
  chr_CR ∉ get_letter_counts text_list.
Proof.
  unfold get_letter_counts. rewrite elem_of_rev_iff.
  rewrite (sorted_Permutation item_leb (symbol_counts text_list)).
  rewrite symbol_counts_keys_iff. intros Hx.
  apply elem_of_concat in Hx as (l & Hl & Hx).
  apply list_elem_of_fmap in Hl as (line & -> & _).
  apply elem_of_strip_line in Hx. tauto.
Qed.

Lemma get_letter_counts_symbols_aux (text_list : list str) :
  NoDup (get_letter_counts text_list) /\ (chr_LF ∉ get_letter_counts text_list).
Proof.
  split.
  - unfold get_letter_counts. apply NoDup_ListNoDup, List.NoDup_rev, NoDup_ListNoDup.
    rewrite (sorted_Permutation item_leb (symbol_counts text_list)).
    apply FontTable.symbol_counts_keys.
  - unfold get_letter_counts. rewrite elem_of_rev_iff.
    rewrite (sorted_Permutation item_leb (symbol_counts text_list)).
    rewrite symbol_counts_keys_iff. intros Hx.
    apply elem_of_concat in Hx as (l & Hl & Hx).
    apply list_elem_of_fmap in Hl as (line & -> & _).
    apply elem_of_strip_line in Hx. tauto.
Qed.

(** The collected symbols are distinct; they are the characters that are
    left in the lines once the newline and carriage-return marks are
    stripped, so neither the newline nor the carriage return is among
    them. *)
Theorem get_letter_counts_symbols (text_list : list str) :
  NoDup (get_letter_counts text_list)
  /\ (forall x, x ∈ get_letter_counts text_list
                <-> x ∈ concat (map strip_line text_list))
  /\ (chr_LF ∉ get_letter_counts text_list)
  /\ (chr_CR ∉ get_letter_counts text_list).
Proof.
  assert (Hmem : forall x, x ∈ get_letter_counts text_list
                           <-> x ∈ concat (map strip_line text_list)).
  { intros x. unfold get_letter_counts.
    rewrite elem_of_rev_iff, <- symbol_counts_keys_iff.
    rewrite (sorted_Permutation item_leb (symbol_counts text_list)). reflexivity. }
  assert (Hno : forall x, x ∈ get_letter_counts text_list ->
                          x <> chr_LF /\ x <> chr_CR).
  { intros x Hx. apply Hmem in Hx.
    apply elem_of_concat in Hx as (l & Hl & Hx).
    apply list_elem_of_fmap in Hl as (line & -> & _).
    apply elem_of_strip_line in Hx. tauto. }
  split; [|split; [exact Hmem|split]].
  - unfold get_letter_counts. apply NoDup_ListNoDup, List.NoDup_rev, NoDup_ListNoDup.
    rewrite (sorted_Permutation item_leb (symbol_counts text_list)).
    apply FontTable.symbol_counts_keys.
  - intros H. apply Hno in H. tauto.
  - intros H. apply Hno in H. tauto.
Qed.

Lemma before_rev_inv {A} (x y : A) (l : list A) : before x y (rev l) -> before y x l.
Proof. intros H. apply before_rev in H. rewrite rev_involutive in H. exact H. Qed.

Lemma before_map_fst_inv {A B} (x y : A) (l : list (A * B)) :
  before x y (map fst l) ->
  exists cx cy, before (x, cx) (y, cy) l.
Proof.
  intros (l1 & l2 & l3 & H).
  apply map_eq_app in H as (m1 & m' & -> & <- & H).
  apply map_eq_cons in H as ([x' cx] & m'' & -> & Hx & H). simpl in Hx. subst x'.
  apply map_eq_app in H as (m2 & m''' & -> & <- & H).
  apply map_eq_cons in H as ([y' cy] & m3 & -> & Hy & <-). simpl in Hy. subst y'.
  exists cx, cy, m1, m2, m3. reflexivity.
Qed.

(** The order of the collected symbols: of two of them the one that
    occurs more often comes first, and of two that occur equally often
    the one with the larger code point comes first. *)
Theorem get_letter_counts_order (text_list : list str) (a b : N) :
  a ∈ get_letter_counts text_list -> b ∈ get_letter_counts text_list -> a <> b ->
  (before a b (get_letter_counts text_list)
   <-> FontTable.count_of b (symbol_counts text_list)
       < FontTable.count_of a (symbol_counts text_list)
       \/ (FontTable.count_of a (symbol_counts text_list)
           = FontTable.count_of b (symbol_counts text_list)
           /\ (b < a)%N)).
Proof.
  assert (Hdir : forall x y, x <> y -> before x y (get_letter_counts text_list) ->
            FontTable.count_of y (symbol_counts text_list)
            < FontTable.count_of x (symbol_counts text_list)
            \/ (FontTable.count_of x (symbol_counts text_list)
                = FontTable.count_of y (symbol_counts text_list)
                /\ (y < x)%N)).
  { intros x y Hne Hb. unfold get_letter_counts in Hb.
    apply before_rev_inv, before_map_fst_inv in Hb as (cy & cx & Hb).
    pose proof (FontTable.symbol_counts_keys text_list) as Hnd.
    pose proof (sorted_Permutation item_leb (symbol_counts text_list)) as Hp.
    assert (Hy : (y, cy) ∈ symbol_counts text_list).
    { rewrite <- Hp. destruct Hb as (l1 & l2 & l3 & ->).
      apply elem_of_app. right. left. }
    assert (Hx : (x, cx) ∈ symbol_counts text_list).
    { rewrite <- Hp. destruct Hb as (l1 & l2 & l3 & ->).
      apply elem_of_app. right. right. apply elem_of_app. right. left. }
    rewrite (FontTable.count_of_elem _ _ _ Hnd Hx), (FontTable.count_of_elem _ _ _ Hnd Hy).
    apply (StronglySorted_before _ _ _ _
             (sorted_StronglySorted item_leb FontTable.item_leb_total
                FontTable.item_leb_trans (symbol_counts text_list))) in Hb.
    unfold item_leb in Hb. simpl in Hb.
    destruct (Z.ltb_spec cy cx); [left; lia|].
    destruct (Z.eqb_spec cy cx); [|discriminate]. simpl in Hb.
    apply N.leb_le in Hb. right. split; [lia|]. lia. }
  intros Ha Hb Hne. split; [apply Hdir; exact Hne|].
  intros Hord.
  destruct (before_or a b _ Ha Hb Hne) as [H|H]; [exact H|].
  apply Hdir in H; [|congruence]. lia.
Qed.

Lemma get_letter_counts_order_witness :
  (65%N ∈ get_letter_counts [py_str "BAB"; py_str "A"])
  /\ (66%N ∈ get_letter_counts [py_str "BAB"; py_str "A"])
  /\ 65%N <> 66%N
  /\ (before 65%N 66%N (get_letter_counts [py_str "BAB"; py_str "A"])
      <-> FontTable.count_of 66 (symbol_counts [py_str "BAB"; py_str "A"])
          < FontTable.count_of 65 (symbol_counts [py_str "BAB"; py_str "A"])
          \/ (FontTable.count_of 65 (symbol_counts [py_str "BAB"; py_str "A"])
              = FontTable.count_of 66 (symbol_counts [py_str "BAB"; py_str "A"])
              /\ (66 < 65)%N)).
Proof.
  assert (Ha : 65%N ∈ get_letter_counts [py_str "BAB"; py_str "A"])
    by (apply (bool_decide_eq_true_1 _); reflexivity).
  assert (Hb : 66%N ∈ get_letter_counts [py_str "BAB"; py_str "A"])
    by (apply (bool_decide_eq_true_1 _); reflexivity).
  assert (Hne : 65%N <> 66%N) by discriminate.
  split; [exact Ha|]. split; [exact Hb|]. split; [exact Hne|].
  exact (get_letter_counts_order _ 65%N 66%N Ha Hb Hne).
Defined.

(** With two counts each, "B" (the larger code point) is first. *)
Example tie_goes_to_larger_code_point :
  get_letter_counts [py_str "BAB"; py_str "A"] = [66; 65]%N.
Proof. reflexivity. Qed.

End Collector.

(** ** The symbol table and the font maps *)

Module SymbolTable.

Section WithTables.

Variables (font_table font_small_table : gmap N string) (cjk_font : gmap Z Glyph).

Lemma get_font_map_and_table_inv (text_list sym_list : list N) (fm : FontMap)
    (symbol_map : gmap N (list Z)) :
  get_font_map_and_table font_table font_small_table cjk_font text_list
  = Ok (sym_list, fm, symbol_map) ->
  sym_list = ordered_normal_sym_list font_table text_list
             ++ ordered_cjk_sym_list font_table text_list
  /\ symbol_loop sym_list 2 {[ chr_LF := [1] ]} = Ok symbol_map
  /\ exists fm1,
       normal_loop font_table font_small_table
         (ordered_normal_sym_list font_table text_list)
         {| font12 := ∅; font06 := ∅ |} = Ok fm1
       /\ cjk_loop font_table cjk_font (ordered_cjk_sym_list font_table text_list) fm1
          = Ok fm.
Proof.
  unfold get_font_map_and_table. intros H.
  destruct (_ >? _); [discriminate|].
  inv_bind H. inv_bind H. inv_bind H. injection H as <- <- <-.
  split; [reflexivity|]. split; [assumption|]. eauto.
Qed.

Lemma elem_of_sym_list (text_list : list N) (x : N) :
  x ∈ ordered_normal_sym_list font_table text_list
      ++ ordered_cjk_sym_list font_table text_list
  <-> x ∈ forced_first_symbols \/ x ∈ text_list.
Proof.
  unfold ordered_normal_sym_list, ordered_cjk_sym_list.
  rewrite <- app_assoc, !elem_of_app, !list_elem_of_In, !List.filter_In,
    <- !list_elem_of_In.
  rewrite !andb_true_iff, !negb_true_iff, !bool_decide_eq_false, !bool_decide_eq_true.
  destruct (decide (x ∈ forced_first_symbols)); [tauto|].
  destruct (decide (is_Some (font_table !! x))); tauto.
Qed.

(** What the symbol map holds, on a run that returned. *)
Lemma symbol_map_lookup (text_list sym_list : list N) (fm : FontMap)
    (symbol_map : gmap N (list Z)) :
  get_font_map_and_table font_table font_small_table cjk_font text_list
  = Ok (sym_list, fm, symbol_map) ->
  NoDup sym_list
  /\ (chr_LF ∉ sym_list)
  /\ forall x c,
       symbol_map !! x = Some c
       <-> (x = chr_LF /\ c = [1])
           \/ exists k : nat,
                sym_list !! k = Some x
                /\ get_bytes_from_font_index (2 + Z.of_nat k) = Ok c.
Proof.
  intros H. apply get_font_map_and_table_inv in H as (_ & Hloop & _).
  apply FontTable.symbol_loop_Ok in Hloop as (Hnd & Hfresh & Hpos & Hother).
  assert (Hlf : chr_LF ∉ sym_list).
  { intros Hin. specialize (Hfresh _ Hin). rewrite lookup_singleton_eq in Hfresh.
    discriminate. }
  split; [exact Hnd|]. split; [exact Hlf|].
  intros x c. split.
  - intros Hx. destruct (decide (x ∈ sym_list)) as [Hin|Hni].
    + right. apply list_elem_of_lookup in Hin as [k Hk]. exists k.
      split; [exact Hk|]. destruct (Hpos k x Hk) as (b & Hb & Hm).
      rewrite Hm in Hx. injection Hx as <-. exact Hb.
    + left. rewrite (Hother x Hni) in Hx.
      apply lookup_singleton_Some in Hx as [<- <-]. auto.
  - intros [[-> ->]|(k & Hk & Hc)].
    + rewrite (Hother _ Hlf). apply lookup_singleton_eq.
    + destruct (Hpos k x Hk) as (b & Hb & Hm). rewrite Hb in Hc.
      injection Hc as <-. exact Hm.
Qed.

(** The newline has the code 0x01; the symbol at position [k] of the
    symbol list has the code of index [k + 2], the position of its glyph
    in the font arrays; nothing else has a code. The symbol list has no
    repetition and holds the ten digits and the symbols of the text. *)
Theorem symbol_map_spec (text_list sym_list : list N) (fm : FontMap)
    (symbol_map : gmap N (list Z)) :
  get_font_map_and_table font_table font_small_table cjk_font text_list
  = Ok (sym_list, fm, symbol_map) ->
  NoDup sym_list
  /\ (forall x, x ∈ sym_list <-> x ∈ forced_first_symbols \/ x ∈ text_list)
  /\ symbol_map !! chr_LF = Some [1]
  /\ (forall k x, sym_list !! k = Some x ->
      exists c, get_bytes_from_font_index (Z.of_nat k + 2) = Ok c
                /\ symbol_map !! x = Some c)
  /\ (forall x, is_Some (symbol_map !! x) <-> x = chr_LF \/ x ∈ sym_list).
Proof.
  intros H. pose proof (symbol_map_lookup _ _ _ _ H) as (Hnd & Hlf & Hlook).
  pose proof (get_font_map_and_table_inv _ _ _ _ H) as (Hsl & Hloop & _).
  split; [exact Hnd|].
  split; [intros x; rewrite Hsl; apply elem_of_sym_list|].
  split; [apply Hlook; auto|].
  split.
  - intros k x Hk.
    apply FontTable.symbol_loop_Ok in Hloop as (_ & _ & Hpos & _).
    destruct (Hpos k x Hk) as (b & Hb & Hm). exists b.
    rewrite Z.add_comm. auto.
  - intros x. split.
    + intros [c Hc]. apply Hlook in Hc as [[-> _]|(k & Hk & _)]; [auto|].
      right. apply list_elem_of_lookup. eauto.
    + intros [->|Hin]; [exists [1]; apply Hlook; auto|].
      apply list_elem_of_lookup in Hin as [k Hk].
      apply FontTable.symbol_loop_Ok in Hloop as (_ & _ & Hpos & _).
      destruct (Hpos k x Hk) as (b & _ & Hm). eauto.
Qed.

(** Each code of the symbol map is the code of an index from 1 on, and
    the index tells the symbol. *)
Lemma symbol_map_index (text_list sym_list : list N) (fm : FontMap)
    (symbol_map : gmap N (list Z)) :
  get_font_map_and_table font_table font_small_table cjk_font text_list
  = Ok (sym_list, fm, symbol_map) ->
  exists index_of : N -> Z,
    (forall x c, symbol_map !! x = Some c ->
       1 <= index_of x /\ get_bytes_from_font_index (index_of x) = Ok c)
    /\ (forall x y, is_Some (symbol_map !! x) -> is_Some (symbol_map !! y) ->
          index_of x = index_of y -> x = y).
Proof.
  intros H. pose proof (symbol_map_lookup _ _ _ _ H) as (Hnd & Hlf & Hlook).
  exists (fun x => if decide (x = chr_LF) then 1
                   else match list_find (fun y => y = x) sym_list with
                        | Some (k, _) => 2 + Z.of_nat k
                        | None => 0
                        end).
  assert (Hfind : forall x k, sym_list !! k = Some x ->
            list_find (fun y => y = x) sym_list = Some (k, x)).
  { intros x k Hk. apply list_find_Some. split; [exact Hk|]. split; [reflexivity|].
    intros j y Hj Hjk ->. assert (j = k) by (eapply NoDup_lookup; eauto). lia. }
  split.
  - intros x c Hx. apply Hlook in Hx as [[-> ->]|(k & Hk & Hc)].
    + destruct (decide (chr_LF = chr_LF)); [|congruence]. split; [lia | reflexivity].
    + destruct (decide (x = chr_LF)) as [->|Hne].
      { exfalso. apply Hlf. apply list_elem_of_lookup. eauto. }
      rewrite (Hfind x k Hk). split; [lia | exact Hc].
  - intros x y [cx Hx] [cy Hy].
    apply Hlook in Hx as [[-> ->]|(kx & Hkx & Hcx)];
      apply Hlook in Hy as [[-> ->]|(ky & Hky & Hcy)]; try reflexivity.
    + destruct (decide (chr_LF = chr_LF)); [|congruence].
      destruct (decide (y = chr_LF)) as [->|Hne]; [reflexivity|].
      rewrite (Hfind y ky Hky). lia.
    + destruct (decide (chr_LF = chr_LF)); [|congruence].
      destruct (decide (x = chr_LF)) as [->|Hne]; [reflexivity|].
      rewrite (Hfind x kx Hkx). lia.
    + destruct (decide (x = chr_LF)) as [->|Hnx].
      { exfalso. apply Hlf. apply list_elem_of_lookup. eauto. }
      destruct (decide (y = chr_LF)) as [->|Hny].
      { exfalso. apply Hlf. apply list_elem_of_lookup. eauto. }
      rewrite (Hfind x kx Hkx), (Hfind y ky Hky). intros Heq.
      assert (kx = ky) by lia. subst ky. congruence.
Qed.

(** Two symbols never share a code, and no code holds the byte 0x00. *)
Theorem symbol_map_injective (text_list sym_list : list N) (fm : FontMap)
    (symbol_map : gmap N (list Z)) :
  get_font_map_and_table font_table font_small_table cjk_font text_list
  = Ok (sym_list, fm, symbol_map) ->
  (forall x y c, symbol_map !! x = Some c -> symbol_map !! y = Some c -> x = y)
  /\ (forall x c, symbol_map !! x = Some c ->
      c <> [] /\ Forall (fun b => 1 <= b <= 255) c).
Proof.
  intros H. destruct (symbol_map_index _ _ _ _ H) as (index_of & Hidx & Hinj).
  split.
  - intros x y c Hx Hy. apply Hinj; [eauto | eauto |].
    destruct (Hidx x c Hx) as [_ Hcx]. destruct (Hidx y c Hy) as [_ Hcy].
    exact (Codes.get_bytes_inj _ _ _ Hcx Hcy).
  - intros x c Hx. destruct (Hidx x c Hx) as [Hi Hc]. split.
    + apply Codes.get_bytes_shape in Hc as [[-> _]|(l & v & -> & _)]; discriminate.
    + exact (Codes.get_bytes_nonzero _ _ Hi Hc).
Qed.

Lemma normal_loop_Ok (syms : list N) (fm fm' : FontMap) :
  normal_loop font_table font_small_table syms fm = Ok fm' ->
  (forall x, x ∈ syms ->
     exists big small,
       font_table !! x = Some big /\ font_small_table !! x = Some small
       /\ font12 fm' !! x = Some big /\ font06 fm' !! x = Some small)
  /\ (forall x, x ∉ syms ->
        font12 fm' !! x = font12 fm !! x /\ font06 fm' !! x = font06 fm !! x).
Proof.
  revert fm. induction syms as [|sym rest IH]; intros fm H; simpl in H.
  - injection H as <-. split; [intros x Hx; inversion Hx | auto].
  - destruct (font_table !! sym) as [big|] eqn:Eb; [|discriminate].
    destruct (font_small_table !! sym) as [small|] eqn:Es; [|discriminate].
    destruct (IH _ H) as [Hin Hout]. split.
    + intros x Hx. destruct (decide (x ∈ rest)) as [Hr|Hr]; [auto|].
      apply elem_of_cons in Hx as [->|Hx]; [|contradiction].
      exists big, small. destruct (Hout sym Hr) as [H12 H06]. simpl in H12, H06.
      rewrite H12, H06, !lookup_insert_eq. auto.
    + intros x Hx. apply not_elem_of_cons in Hx as [Hne Hx].
      destruct (Hout x Hx) as [H12 H06]. simpl in H12, H06.
      rewrite H12, H06, !lookup_insert_ne by congruence. auto.
Qed.

Lemma cjk_loop_Ok (syms : list N) (fm fm' : FontMap) :
  cjk_loop font_table cjk_font syms fm = Ok fm' ->
  (forall x, x ∈ syms ->
     font_table !! x = None
     /\ exists line,
          get_cjk_glyph cjk_font x = Ok line
          /\ font12 fm' !! x = Some line /\ font06 fm' !! x = Some placeholder)
  /\ (forall x, x ∉ syms ->
        font12 fm' !! x = font12 fm !! x /\ font06 fm' !! x = font06 fm !! x).
Proof.
  revert fm. induction syms as [|sym rest IH]; intros fm H; cbn [cjk_loop] in H.
  - injection H as <-. split; [intros x Hx; inversion Hx | auto].
  - destruct (font_table !! sym) as [big|] eqn:Eb; [discriminate|].
    inv_bind H. rename a into line.
    destruct (IH _ H) as [Hin Hout]. split.
    + intros x Hx. destruct (decide (x ∈ rest)) as [Hr|Hr]; [auto|].
      apply elem_of_cons in Hx as [->|Hx]; [|contradiction].
      split; [exact Eb|]. exists line. destruct (Hout sym Hr) as [H12 H06].
      simpl in H12, H06. rewrite H12, H06, !lookup_insert_eq. auto.
    + intros x Hx. apply not_elem_of_cons in Hx as [Hne Hx].
      destruct (Hout x Hx) as [H12 H06]. simpl in H12, H06.
      rewrite H12, H06, !lookup_insert_ne by congruence. auto.
Qed.

Lemma font_maps_cover_aux (text_list sym_list : list N) (fm : FontMap)
    (symbol_map : gmap N (list Z)) :
  get_font_map_and_table font_table font_small_table cjk_font text_list
  = Ok (sym_list, fm, symbol_map) ->
  forall x, x ∈ sym_list -> is_Some (font12 fm !! x) /\ is_Some (font06 fm !! x).
Proof.
  intros H x Hx.
  apply get_font_map_and_table_inv in H as (-> & _ & fm1 & Hn & Hc).
  destruct (normal_loop_Ok _ _ _ Hn) as [Hnin _].
  destruct (cjk_loop_Ok _ _ _ Hc) as [Hcin Hcout].
  destruct (decide (x ∈ ordered_cjk_sym_list font_table text_list)) as [Hin|Hni].
  - destruct (Hcin x Hin) as (_ & line & _ & H12 & H06). rewrite H12, H06. eauto.
  - apply elem_of_app in Hx as [Hx|Hx]; [|contradiction].
    destruct (Hnin x Hx) as (big & small & _ & _ & H12 & H06).
    destruct (Hcout x Hni) as [E12 E06]. rewrite E12, E06, H12, H06. eauto.
Qed.

(** On a run that returned, every symbol of the symbol list has a glyph
    in both font maps. A symbol of the font table has its two glyphs from
    the large and the small table, and every digit is such a symbol; an
    extended symbol has the text that [get_cjk_glyph] made for it and the
    placeholder as its small glyph. *)
Theorem font_maps_cover (text_list sym_list : list N) (fm : FontMap)
    (symbol_map : gmap N (list Z)) :
  get_font_map_and_table font_table font_small_table cjk_font text_list
  = Ok (sym_list, fm, symbol_map) ->
  forall x, x ∈ sym_list ->
    (x ∈ forced_first_symbols -> is_Some (font_table !! x))
    /\ match font_table !! x with
       | Some big =>
           font12 fm !! x = Some big
           /\ exists small, font_small_table !! x = Some small
                            /\ font06 fm !! x = Some small
       | None =>
           exists line, get_cjk_glyph cjk_font x = Ok line
                        /\ font12 fm !! x = Some line
                        /\ font06 fm !! x = Some placeholder
       end.
Proof.
  intros H x Hx.
  apply get_font_map_and_table_inv in H as (-> & _ & fm1 & Hn & Hc).
  destruct (normal_loop_Ok _ _ _ Hn) as [Hnin _].
  destruct (cjk_loop_Ok _ _ _ Hc) as [Hcin Hcout].
  assert (Hdigit : x ∈ forced_first_symbols -> is_Some (font_table !! x)).
  { intros Hd. destruct (Hnin x) as (big & _ & Hb & _); [|eauto].
    unfold ordered_normal_sym_list. apply elem_of_app. auto. }
  split; [exact Hdigit|].
  apply elem_of_app in Hx as [Hx|Hx].
  - destruct (Hnin x Hx) as (big & small & Hb & Hs & H12 & H06). rewrite Hb.
    assert (Hni : x ∉ ordered_cjk_sym_list font_table text_list).
    { intros Hin. destruct (Hcin x Hin) as [Hnone _]. congruence. }
    destruct (Hcout x Hni) as [E12 E06]. rewrite E12, E06. eauto.
  - destruct (Hcin x Hx) as (Hnone & line & Hl & H12 & H06). rewrite Hnone. eauto.
Qed.

Lemma font_rows_returns (font : gmap N string) (symbol_map : gmap N (list Z))
    (syms : list N) (out : str) :
  (forall x, x ∈ syms -> is_Some (font !! x) /\ is_Some (symbol_map !! x)) ->
  exists out', font_rows font symbol_map syms out = Ok out'.
Proof.
  revert out. induction syms as [|sym rest IH]; intros out Hall; simpl; [eauto|].
  destruct (Hall sym ltac:(left)) as [[g ->] [c ->]].
  apply IH. intros x Hx. apply Hall. right. exact Hx.
Qed.

(** [make_font_table_cpp] looks every symbol up in both font maps and in
    the symbol map: on what [get_font_map_and_table] returned it finds
    each of them, and returns. *)
Theorem make_font_table_cpp_returns (text_list sym_list : list N) (fm : FontMap)
    (symbol_map : gmap N (list Z)) :
  get_font_map_and_table font_table font_small_table cjk_font text_list
  = Ok (sym_list, fm, symbol_map) ->
  exists output_table, make_font_table_cpp sym_list fm symbol_map = Ok output_table.
Proof.
  intros H.
  pose proof (symbol_map_lookup _ _ _ _ H) as (_ & _ & Hlook).
  assert (Hsm : forall x, x ∈ sym_list -> is_Some (symbol_map !! x)).
  { intros x Hx. apply list_elem_of_lookup in Hx as [k Hk].
    pose proof (get_font_map_and_table_inv _ _ _ _ H) as (_ & Hloop & _).
    apply FontTable.symbol_loop_Ok in Hloop as (_ & _ & Hpos & _).
    destruct (Hpos k x Hk) as (b & _ & Hm). eauto. }
  assert (Hfm : forall x, x ∈ sym_list ->
            is_Some (font12 fm !! x) /\ is_Some (font06 fm !! x)).
  { intros x Hx. destruct (font_maps_cover_aux _ _ _ _ H x Hx) as [H12 H06]. auto. }
  unfold make_font_table_cpp.
  destruct (font_rows_returns (font12 fm) symbol_map sym_list
              (py_str "const uint8_t USER_FONT_12[] = {" ++ [chr_LF]))
    as [out1 ->]; [intros x Hx; split; [apply Hfm | apply Hsm]; exact Hx|].
  cbn [bind].
  destruct (font_rows_returns (font06 fm) symbol_map sym_list
              ((out1 ++ py_str "};" ++ [chr_LF])
               ++ py_str "const uint8_t USER_FONT_6x8[] = {" ++ [chr_LF]))
    as [out2 ->]; [intros x Hx; split; [apply Hfm | apply Hsm]; exact Hx|].
  cbn [bind]. eauto.
Qed.

Lemma normal_loop_Raise (syms : list N) (fm : FontMap) (e : exn) :
  normal_loop font_table font_small_table syms fm = Raise e ->
  exists x, x ∈ syms
    /\ ((font_table !! x = None /\ e = SystemExit 1 (MissingLargeFont x))
        \/ (is_Some (font_table !! x) /\ font_small_table !! x = None
            /\ e = SystemExit 1 (MissingSmallFont x))).
Proof.
  revert fm. induction syms as [|sym rest IH]; intros fm H; simpl in H; [discriminate|].
  destruct (font_table !! sym) as [big|] eqn:Eb.
  - destruct (font_small_table !! sym) as [small|] eqn:Es.
    + destruct (IH _ H) as (x & Hx & Hc). exists x. split; [right; exact Hx | exact Hc].
    + injection H as <-. exists sym. split; [left|]. right. rewrite Eb. eauto.
  - injection H as <-. exists sym. split; [left|]. left. auto.
Qed.

Lemma cjk_loop_Raise (syms : list N) (fm : FontMap) (e : exn) :
  (forall x, x ∈ syms -> font_table !! x = None) ->
  cjk_loop font_table cjk_font syms fm = Raise e ->
  exists x, x ∈ syms
    /\ ((cjk_font !! Z.of_N x = None /\ e = KeyError)
        \/ (is_Some (cjk_font !! Z.of_N x) /\ e = IndexError)).
Proof.
  revert fm. induction syms as [|sym rest IH]; intros fm Hall H; cbn [cjk_loop] in H;
    [discriminate|].
  rewrite (Hall sym ltac:(left)) in H.
  apply bind_Raise_inv in H as [H|(line & _ & H)].
  - exists sym. split; [left|]. unfold get_cjk_glyph in H.
    destruct (cjk_font !! Z.of_N sym) as [glyph|] eqn:Eg.
    + right. split; [eauto|].
      apply bind_Raise_inv in H as [H|(bs & _ & H)]; [|discriminate].
      eapply FontTable.cells_loop_raise; eauto.
    + left. split; [reflexivity | congruence].
  - destruct (IH _ ltac:(intros x Hx; apply Hall; right; exact Hx) H) as (x & Hx & Hc).
    exists x. split; [right; exact Hx | exact Hc].
Qed.

(** How the font map of a collected text can fail: by too many symbols,
    by a digit that the large font table lacks, by a symbol of the large
    table that the small table lacks, by an extended symbol that the CJK
    font lacks ([KeyError]) or whose glyph data are short ([IndexError]).
    The [ValueError]s of the function cannot occur on what
    [get_letter_counts] returns. *)
Theorem collected_text_failures (text_list : list str) (e : exn) :
  get_font_map_and_table font_table font_small_table cjk_font
    (get_letter_counts text_list) = Raise e ->
  (4063 < total_symbol_count font_table (get_letter_counts text_list)
   /\ e = SystemExit 1
            (TooManyUsedSymbols
               (total_symbol_count font_table (get_letter_counts text_list))))
  \/ (exists x, x ∈ forced_first_symbols /\ font_table !! x = None
                /\ e = SystemExit 1 (MissingLargeFont x))
  \/ (exists x, is_Some (font_table !! x) /\ font_small_table !! x = None
                /\ e = SystemExit 1 (MissingSmallFont x))
  \/ (exists x, font_table !! x = None /\ cjk_font !! Z.of_N x = None
                /\ e = KeyError)
  \/ (exists x, font_table !! x = None /\ is_Some (cjk_font !! Z.of_N x)
                /\ e = IndexError).
Proof.
  intros H. unfold get_font_map_and_table in H.
  destruct (Z.gtb_spec (total_symbol_count font_table (get_letter_counts text_list))
              (0x10 * 0xFF - 15 - 2)) as [Hgt|Hle].
  { left. injection H as <-. split; [lia | reflexivity]. }
  right.
  destruct (Collector.get_letter_counts_symbols_aux text_list) as (Hnd & Hlf).
  destruct (FontTable.symbol_table_built font_table _ Hle Hnd Hlf) as [sm Hsm].
  rewrite Hsm in H. cbn [bind] in H.
  apply bind_Raise_inv in H as [H|(fm1 & _ & H)].
  - apply normal_loop_Raise in H as (x & Hx & [[Hn ->]|(Hs & Hn & ->)]).
    + left. exists x. split; [|auto].
      unfold ordered_normal_sym_list in Hx. apply elem_of_app in Hx as [Hx|Hx]; [exact Hx|].
      apply list_elem_of_In, List.filter_In in Hx as [_ Hx].
      apply andb_true_iff in Hx as [_ Hx]. apply bool_decide_eq_true in Hx.
      rewrite Hn in Hx. destruct Hx; discriminate.
    + right. left. eauto.
  - right. right.
    apply bind_Raise_inv in H as [H|(fm2 & _ & H)]; [|discriminate].
    assert (Hall : forall x, x ∈ ordered_cjk_sym_list font_table
                                   (get_letter_counts text_list) ->
                             font_table !! x = None).
    { intros x Hx. apply list_elem_of_In, List.filter_In in Hx as [_ Hx].
      apply andb_true_iff in Hx as [_ Hx].
      apply negb_true_iff, bool_decide_eq_false in Hx.
      destruct (font_table !! x); [exfalso; eauto | reflexivity]. }
    apply (cjk_loop_Raise _ _ _ Hall) in H as (x & Hx & [[Hn ->]|[Hs ->]]).
    + left. exists x. auto.
    + right. exists x. auto.
Qed.

Lemma symbol_loop_repeat_raises (syms : list N) (index : Z) (m : gmap N (list Z)) :
  0 <= index -> index + Z.of_nat (length syms) <= 4066 ->
  ~ (NoDup syms /\ forall s, s ∈ syms -> m !! s = None) ->
  symbol_loop syms index m = Raise (ValueError "Symbol not found in symbol map").
Proof.
  revert index m. induction syms as [|sym rest IH]; intros index m Hi Hlen Hn.
  - exfalso. apply Hn. split; [constructor|]. intros s Hs. inversion Hs.
  - simpl in *. destruct (m !! sym) eqn:Em; [reflexivity|].
    assert (Hb : exists b, get_bytes_from_font_index index = Ok b).
    { destruct (Z.le_gt_cases index 240).
      - eexists. apply Encoder.get_bytes_single. lia.
      - eexists. apply Encoder.get_bytes_double. lia. }
    destruct Hb as [b ->]. cbn [bind].
    apply IH; [lia | lia |].
    intros [Hnd Hfresh]. apply Hn.
    assert (Hni : sym ∉ rest).
    { intros Hin. specialize (Hfresh _ Hin). rewrite lookup_insert_eq in Hfresh.
      discriminate. }
    split; [constructor; assumption|].
    intros s Hs. apply elem_of_cons in Hs as [->|Hs]; [exact Em|].
    specialize (Hfresh s Hs). rewrite lookup_insert_ne in Hfresh; [exact Hfresh|].
    intros <-. contradiction.
Qed.

Lemma filter_split_Permutation {A} (p q : A -> bool) (l : list A) :
  Permutation (List.filter (fun x => p x && q x) l
               ++ List.filter (fun x => p x && negb (q x)) l)
    (List.filter p l).
Proof.
  induction l as [|x l IH]; simpl; [reflexivity|].
  destruct (p x), (q x); simpl; try exact IH.
  - constructor. exact IH.
  - rewrite <- Permutation_middle. constructor. exact IH.
Qed.

(** The function relies on its caller for a text list of distinct
    symbols without the newline: within the limit of 4063 symbols, a
    symbol that is listed twice, or the newline, makes it raise the
    [ValueError] of its symbol loop. *)
Theorem newline_or_repeat_raises (text_list : list N) :
  total_symbol_count font_table text_list <= 4063 ->
  ~ NoDup (chr_LF :: FontTable.other_symbols text_list) ->
  get_font_map_and_table font_table font_small_table cjk_font text_list
  = Raise (ValueError "Symbol not found in symbol map").
Proof.
  intros Hle Hdup. unfold get_font_map_and_table.
  destruct (Z.gtb_spec (total_symbol_count font_table text_list) (0x10 * 0xFF - 15 - 2));
    [lia|].
  rewrite symbol_loop_repeat_raises; [reflexivity | lia | |].
  - unfold total_symbol_count in Hle. rewrite length_app. lia.
  - intros [Hnd Hfresh]. apply Hdup.
    pose proof (filter_split_Permutation
                  (fun x => negb (bool_decide (x ∈ forced_first_symbols)))
                  (fun x => bool_decide (is_Some (font_table !! x))) text_list) as Hp.
    unfold ordered_normal_sym_list, ordered_cjk_sym_list in Hnd, Hfresh.
    rewrite <- app_assoc in Hnd, Hfresh.
    apply NoDup_app in Hnd as (_ & _ & Hnd).
    unfold FontTable.other_symbols, FontTable.is_digit. rewrite <- Hp.
    constructor; [|exact Hnd].
    intros Hin. specialize (Hfresh chr_LF).
    rewrite lookup_singleton_eq in Hfresh.
    assert (Some [1] = None) as Habs; [|discriminate].
    apply Hfresh. apply elem_of_app. right. exact Hin.
Qed.

End WithTables.

Abbreviation sample_run :=
  (get_font_map_and_table FontTable.sample_font_table FontTable.sample_font_table
     FontTable.sample_cjk_font (get_letter_counts FontTable.sample_text)).

Lemma symbol_map_spec_witness :
  exists sym_list fm symbol_map,
    sample_run = Ok (sym_list, fm, symbol_map)
    /\ NoDup sym_list
    /\ (forall x, x ∈ sym_list
                  <-> x ∈ forced_first_symbols
                      \/ x ∈ get_letter_counts FontTable.sample_text)
    /\ symbol_map !! chr_LF = Some [1]
    /\ (forall k x, sym_list !! k = Some x ->
        exists c, get_bytes_from_font_index (Z.of_nat k + 2) = Ok c
                  /\ symbol_map !! x = Some c)
    /\ (forall x, is_Some (symbol_map !! x) <-> x = chr_LF \/ x ∈ sym_list).
Proof.
  destruct sample_run as [[[sym_list fm] symbol_map]|e] eqn:E.
  - exists sym_list, fm, symbol_map. split; [reflexivity|].
    exact (symbol_map_spec _ _ _ _ _ _ _ E).
  - vm_compute in E. discriminate.
Defined.

Lemma symbol_map_injective_witness :
  exists sym_list fm symbol_map,
    sample_run = Ok (sym_list, fm, symbol_map)
    /\ (forall x y c, symbol_map !! x = Some c -> symbol_map !! y = Some c -> x = y)
    /\ (forall x c, symbol_map !! x = Some c ->
        c <> [] /\ Forall (fun b => 1 <= b <= 255) c).
Proof.
  destruct sample_run as [[[sym_list fm] symbol_map]|e] eqn:E.
  - exists sym_list, fm, symbol_map. split; [reflexivity|].
    exact (symbol_map_injective _ _ _ _ _ _ _ E).
  - vm_compute in E. discriminate.
Defined.

Lemma font_maps_cover_witness :
  exists sym_list fm symbol_map,
    sample_run = Ok (sym_list, fm, symbol_map)
    /\ forall x, x ∈ sym_list ->
         (x ∈ forced_first_symbols -> is_Some (FontTable.sample_font_table !! x))
         /\ match FontTable.sample_font_table !! x with
            | Some big =>
                font12 fm !! x = Some big
                /\ exists small, FontTable.sample_font_table !! x = Some small
                                 /\ font06 fm !! x = Some small
            | None =>
                exists line, get_cjk_glyph FontTable.sample_cjk_font x = Ok line
                             /\ font12 fm !! x = Some line
                             /\ font06 fm !! x = Some placeholder
            end.
Proof.
  destruct sample_run as [[[sym_list fm] symbol_map]|e] eqn:E.
  - exists sym_list, fm, symbol_map. split; [reflexivity|].
    exact (font_maps_cover _ _ _ _ _ _ _ E).
  - vm_compute in E. discriminate.
Defined.

Lemma make_font_table_cpp_returns_witness :
  exists sym_list fm symbol_map,
    sample_run = Ok (sym_list, fm, symbol_map)
    /\ exists output_table,
         make_font_table_cpp sym_list fm symbol_map = Ok output_table.
Proof.
  destruct sample_run as [[[sym_list fm] symbol_map]|e] eqn:E.
  - exists sym_list, fm, symbol_map. split; [reflexivity|].
    exact (make_font_table_cpp_returns _ _ _ _ _ _ _ E).
  - vm_compute in E. discriminate.
Defined.

Lemma collected_text_failures_witness :
  get_font_map_and_table ∅ ∅ ∅ (get_letter_counts [py_str "A"])
  = Raise (SystemExit 1 (MissingLargeFont 48))
  /\ ((4063 < total_symbol_count ∅ (get_letter_counts [py_str "A"])
       /\ SystemExit 1 (MissingLargeFont 48)
          = SystemExit 1
              (TooManyUsedSymbols
                 (total_symbol_count ∅ (get_letter_counts [py_str "A"]))))
      \/ (exists x, x ∈ forced_first_symbols /\ (∅ : gmap N string) !! x = None
                    /\ SystemExit 1 (MissingLargeFont 48)
                       = SystemExit 1 (MissingLargeFont x))
      \/ (exists x, is_Some ((∅ : gmap N string) !! x)
                    /\ (∅ : gmap N string) !! x = None
                    /\ SystemExit 1 (MissingLargeFont 48)
                       = SystemExit 1 (MissingSmallFont x))
      \/ (exists x, (∅ : gmap N string) !! x = None
                    /\ (∅ : gmap Z Glyph) !! Z.of_N x = None
                    /\ SystemExit 1 (MissingLargeFont 48) = KeyError)
      \/ (exists x, (∅ : gmap N string) !! x = None
                    /\ is_Some ((∅ : gmap Z Glyph) !! Z.of_N x)
                    /\ SystemExit 1 (MissingLargeFont 48) = IndexError)).
Proof.
  assert (H : get_font_map_and_table ∅ ∅ ∅ (get_letter_counts [py_str "A"])
              = Raise (SystemExit 1 (MissingLargeFont 48)))
    by (vm_compute; reflexivity).
  split; [exact H|]. exact (collected_text_failures ∅ ∅ ∅ _ _ H).
Defined.

Lemma newline_or_repeat_raises_witness :
  total_symbol_count ∅ [65; 65]%N <= 4063
  /\ ~ NoDup (chr_LF :: FontTable.other_symbols [65; 65]%N)
  /\ get_font_map_and_table ∅ ∅ ∅ [65; 65]%N
     = Raise (ValueError "Symbol not found in symbol map").
Proof.
  assert (Hle : total_symbol_count ∅ [65; 65]%N <= 4063) by (vm_compute; discriminate).
  assert (Hdup : ~ NoDup (chr_LF :: FontTable.other_symbols [65; 65]%N)).
  { intros Hnd. apply NoDup_cons in Hnd as [_ Hnd].
    change (FontTable.other_symbols [65; 65]%N) with [65; 65]%N in Hnd.
    apply NoDup_cons in Hnd as [Hni _]. apply Hni. left. }
  split; [exact Hle|]. split; [exact Hdup|].
  exact (newline_or_repeat_raises ∅ ∅ ∅ _ Hle Hdup).
Defined.

(** The font table text of the sample run has one line for each symbol in
    each of the two arrays. *)
Example sample_font_table_text :
  make_font_table_cpp [48; 65]%N
    {| font12 := {[ 48%N := "0x01,"%string; 65%N := "0x02,"%string ]};
       font06 := {[ 48%N := "0x03,"%string; 65%N := "0x04,"%string ]} |}
    {[ 48%N := [2]; 65%N := [12] ]}
  = Ok (py_str "const uint8_t USER_FONT_12[] = {" ++ [chr_LF]
        ++ py_str "0x01,//\x02 -> 0" ++ [chr_LF]
        ++ py_str "0x02,//\x0C -> A" ++ [chr_LF]
        ++ py_str "};" ++ [chr_LF]
        ++ py_str "const uint8_t USER_FONT_6x8[] = {" ++ [chr_LF]
        ++ py_str "0x03,//\x02 -> 0" ++ [chr_LF]
        ++ py_str "0x04,//\x0C -> A" ++ [chr_LF]
        ++ py_str "};" ++ [chr_LF]).
Proof. vm_compute. reflexivity. Qed.

End SymbolTable.

(** ** The conversion of strings *)

Module Conversion.

(** The text whose characters [convert_string_bytes] looks up. *)
Definition unescape (text : str) : str :=
  replace2 chr_backslash chr_n [chr_LF] (replace2 chr_backslash chr_r [] text).

Lemma convert_loop_cases (tbl : gmap N (list Z)) (text : str) (acc : list Z) :
  (exists codes,
     Forall2 (fun c code => tbl !! c = Some code) text codes
     /\ convert_loop tbl text acc = Ok (acc ++ concat codes))
  \/ (exists pre c post,
        text = pre ++ c :: post
        /\ Forall (fun x => is_Some (tbl !! x)) pre
        /\ tbl !! c = None
        /\ convert_loop tbl text acc = Raise (SystemExit 1 (MissingFontDefinition c))).
Proof.
  revert acc. induction text as [|c text IH]; intros acc.
  - left. exists []. split; [constructor|]. simpl. rewrite app_nil_r. reflexivity.
  - simpl. destruct (tbl !! c) as [code|] eqn:Ec.
    + destruct (IH (acc ++ code)) as [(codes & Hf & Hr)|(pre & c' & post & -> & Hp & Hc & Hr)].
      * left. exists (code :: codes). split; [constructor; assumption|].
        rewrite Hr. simpl. rewrite <- app_assoc. reflexivity.
      * right. exists (c :: pre), c', post. split; [reflexivity|].
        split; [constructor; [rewrite Ec; eauto | exact Hp]|]. auto.
    + right. exists [], c, text. split; [reflexivity|]. split; [constructor|]. auto.
Qed.

(** [convert_string_bytes] returns the codes of the characters of the
    unescaped text, one after the other; if a character has no code it
    exits and logs the first such character. *)
Theorem convert_string_bytes_cases (tbl : gmap N (list Z)) (text : str) :
  (exists codes,
     Forall2 (fun c code => tbl !! c = Some code) (unescape text) codes
     /\ convert_string_bytes tbl text = Ok (concat codes))
  \/ (exists pre c post,
        unescape text = pre ++ c :: post
        /\ Forall (fun x => is_Some (tbl !! x)) pre
        /\ tbl !! c = None
        /\ convert_string_bytes tbl text
           = Raise (SystemExit 1 (MissingFontDefinition c))).
Proof. apply (convert_loop_cases tbl (unescape text) []). Qed.

Lemma convert_string_bytes_aux (tbl : gmap N (list Z)) (text : str) :
  (exists codes,
     Forall2 (fun c code => tbl !! c = Some code) (unescape text) codes
     /\ convert_string_bytes tbl text = Ok (concat codes))
  \/ (exists pre c post,
        unescape text = pre ++ c :: post
        /\ Forall (fun x => is_Some (tbl !! x)) pre
        /\ tbl !! c = None
        /\ convert_string_bytes tbl text
           = Raise (SystemExit 1 (MissingFontDefinition c))).
Proof. apply (convert_loop_cases tbl (unescape text) []). Qed.

Lemma convert_Ok_codes (tbl : gmap N (list Z)) (text : str) (b : list Z) :
  convert_string_bytes tbl text = Ok b ->
  exists codes,
    Forall2 (fun c code => tbl !! c = Some code) (unescape text) codes
    /\ b = concat codes.
Proof.
  intros H.
  destruct (convert_loop_cases tbl (unescape text) [])
    as [(codes & Hf & Hr)|(pre & c & post & _ & _ & _ & Hr)];
    unfold convert_string_bytes in H; fold (unescape text) in H; rewrite Hr in H;
    [|discriminate].
  injection H as <-. eauto.
Qed.

Lemma replace2_id (a b : N) (new : str) (s : str) :
  a ∉ s -> replace2 a b new s = s.
Proof.
  induction s as [|c t IH]; intros Ha; [reflexivity|].
  apply not_elem_of_cons in Ha as [Hne Ha].
  cbn [replace2]. destruct t as [|d r]; [reflexivity|].
  destruct (N.eqb_spec c a); [congruence|]. cbn [andb].
  f_equal. apply IH, Ha.
Qed.

Lemma elem_of_replace2_keep (a b : N) (new : str) (x : N) (s : str) :
  x <> a -> x <> b -> x ∈ s -> x ∈ replace2 a b new s.
Proof.
  intros Hxa Hxb.
  assert (H : forall n s, (length s <= n)%nat -> x ∈ s -> x ∈ replace2 a b new s).
  { induction n as [|n IH]; intros s' Hlen Hx.
    - destruct s'; [inversion Hx | simpl in Hlen; lia].
    - destruct s' as [|c t]; [inversion Hx|].
      destruct t as [|d r]; [exact Hx|].
      simpl in Hlen.
      assert (Hr : (length r <= n)%nat) by lia.
      assert (Hdr : (length (d :: r) <= n)%nat) by (simpl; lia).
      cbn [replace2].
      destruct (N.eqb_spec c a) as [->|Hca]; cbn [andb].
      + destruct (N.eqb_spec d b) as [->|Hdb].
        * apply elem_of_app. right. apply (IH r Hr).
          apply elem_of_cons in Hx as [?|Hx]; [congruence|].
          apply elem_of_cons in Hx as [?|Hx]; [congruence | exact Hx].
        * apply elem_of_cons in Hx as [?|Hx]; [congruence|].
          right. apply (IH (d :: r) Hdr Hx).
      + apply elem_of_cons in Hx as [->|Hx]; [left|].
        right. apply (IH (d :: r) Hdr Hx). }
  apply (H (length s)). lia.
Qed.

Section WithTables.

Variables (font_table font_small_table : gmap N string) (cjk_font : gmap Z Glyph).

(** A string converted with the symbol map of a run holds no byte 0x00:
    the NUL that ends a string in the blob is the first one met. *)
Theorem converted_bytes_no_nul (text_list sym_list : list N) (fm : FontMap)
    (symbol_map : gmap N (list Z)) (text : str) (b : list Z) :
  get_font_map_and_table font_table font_small_table cjk_font text_list
  = Ok (sym_list, fm, symbol_map) ->
  convert_string_bytes symbol_map text = Ok b ->
  Forall (fun x => 1 <= x <= 255) b.
Proof.
  intros H Hb.
  destruct (SymbolTable.symbol_map_index _ _ _ _ _ _ _ H) as (index_of & Hidx & _).
  apply convert_Ok_codes in Hb as (codes & Hf & ->).
  induction Hf as [|c code text' codes Hc _ IH]; simpl; [constructor|].
  apply Forall_app. split; [|exact IH].
  destruct (Hidx c code Hc) as [Hi He]. exact (Codes.get_bytes_nonzero _ _ Hi He).
Qed.

(** The conversion loses nothing: two strings that convert to the same
    bytes have the same unescaped text. *)
Theorem conversion_injective (text_list sym_list : list N) (fm : FontMap)
    (symbol_map : gmap N (list Z)) (text1 text2 : str) (b : list Z) :
  get_font_map_and_table font_table font_small_table cjk_font text_list
  = Ok (sym_list, fm, symbol_map) ->
  convert_string_bytes symbol_map text1 = Ok b ->
  convert_string_bytes symbol_map text2 = Ok b ->
  unescape text1 = unescape text2.
Proof.
  intros H H1 H2.
  destruct (SymbolTable.symbol_map_index _ _ _ _ _ _ _ H) as (index_of & Hidx & Hinj).
  apply convert_Ok_codes in H1 as (codes1 & Hf1 & ->).
  apply convert_Ok_codes in H2 as (codes2 & Hf2 & Heq).
  revert codes2 Hf2 Heq. generalize (unescape text2) as t2.
  induction Hf1 as [|c1 code1 t1 codes1 Hc1 _ IH]; intros t2 codes2 Hf2 Heq.
  - destruct Hf2 as [|c2 code2 t2 codes2 Hc2 _]; [reflexivity|].
    exfalso. simpl in Heq. destruct (Hidx c2 code2 Hc2) as [_ He].
    apply Codes.get_bytes_shape in He as [[-> _]|(l & v & -> & _)]; discriminate.
  - destruct Hf2 as [|c2 code2 t2 codes2 Hc2 Hf2].
    + exfalso. simpl in Heq. destruct (Hidx c1 code1 Hc1) as [_ He].
      apply Codes.get_bytes_shape in He as [[-> _]|(l & v & -> & _)]; discriminate.
    + destruct (Hidx c1 code1 Hc1) as [_ He1]. destruct (Hidx c2 code2 Hc2) as [_ He2].
      simpl in Heq.
      destruct (Codes.codes_prefix_free _ _ _ _ _ _ He1 He2 Heq) as (Hi & _ & Hrest).
      assert (c1 = c2) by (apply Hinj; eauto). subst c2.
      f_equal. exact (IH t2 codes2 Hf2 Hrest).
Qed.

(** Every line of the collected text that holds neither a backslash nor a
    carriage return converts with the symbol map that was built from the
    text: each of its characters has a code. *)
Theorem collected_lines_convert (text_list : list str) (sym_list : list N)
    (fm : FontMap) (symbol_map : gmap N (list Z)) (line : str) :
  get_font_map_and_table font_table font_small_table cjk_font
    (get_letter_counts text_list) = Ok (sym_list, fm, symbol_map) ->
  line ∈ text_list -> chr_backslash ∉ line -> chr_CR ∉ line ->
  exists b, convert_string_bytes symbol_map line = Ok b.
Proof.
  intros H Hline Hbs Hcr.
  pose proof (SymbolTable.symbol_map_lookup _ _ _ _ _ _ _ H) as (_ & _ & Hlook).
  pose proof (SymbolTable.get_font_map_and_table_inv _ _ _ _ _ _ _ H) as (Hsl & Hloop & _).
  assert (Hun : forall s : str, chr_backslash ∉ s -> unescape s = s).
  { intros s Hs. unfold unescape. rewrite (replace2_id _ _ [] s Hs).
    apply replace2_id, Hs. }
  destruct (convert_string_bytes_aux symbol_map line)
    as [(codes & _ & Hr)|(pre & c & post & Hsplit & _ & Hnone & _)]; [eauto|].
  exfalso. rewrite (Hun line Hbs) in Hsplit.
  assert (Hc : c ∈ line) by (rewrite Hsplit; apply elem_of_app; right; left).
  destruct (decide (c = chr_LF)) as [->|Hlf].
  { assert (Hsome : symbol_map !! chr_LF = Some [1]) by (apply Hlook; auto).
    congruence. }
  assert (Hcol : c ∈ get_letter_counts text_list).
  { apply Collector.get_letter_counts_mem.
    apply Collector.elem_of_concat. exists (strip_line line).
    split; [apply list_elem_of_fmap; eauto|].
    unfold strip_line, remove_char.
    assert (Hf : c ∈ filter (fun x => x <> chr_CR) (filter (fun x => x <> chr_LF) line)).
    { apply list_elem_of_filter. split; [intros ->; contradiction|].
      apply list_elem_of_filter. auto. }
    assert (Hno : chr_backslash
                  ∉ filter (fun x => x <> chr_CR) (filter (fun x => x <> chr_LF) line)).
    { intros Hin. apply list_elem_of_filter in Hin as [_ Hin].
      apply list_elem_of_filter in Hin as [_ Hin]. contradiction. }
    rewrite (replace2_id _ _ [] _ Hno), (replace2_id _ _ [] _ Hno). exact Hf. }
  assert (Hin : c ∈ sym_list).
  { rewrite Hsl. apply SymbolTable.elem_of_sym_list. right. exact Hcol. }
  apply list_elem_of_lookup in Hin as [k Hk].
  apply FontTable.symbol_loop_Ok in Hloop as (_ & _ & Hpos & _).
  destruct (Hpos k c Hk) as (b & _ & Hm). congruence.
Qed.

(** The collector strips the carriage return, the conversion does not:
    with the symbol map built from a collected text, a string that holds
    a carriage return cannot be converted; the run exits with a missing
    font definition. *)
Theorem carriage_return_exits (text_list : list str) (sym_list : list N)
    (fm : FontMap) (symbol_map : gmap N (list Z)) (text : str) :
  get_font_map_and_table font_table font_small_table cjk_font
    (get_letter_counts text_list) = Ok (sym_list, fm, symbol_map) ->
  chr_CR ∈ text ->
  exists c, convert_string_bytes symbol_map text
            = Raise (SystemExit 1 (MissingFontDefinition c)).
Proof.
  intros H Hcr.
  pose proof (SymbolTable.symbol_map_lookup _ _ _ _ _ _ _ H) as (_ & _ & Hlook).
  pose proof (SymbolTable.get_font_map_and_table_inv _ _ _ _ _ _ _ H) as (Hsl & _ & _).
  destruct (convert_string_bytes_aux symbol_map text)
    as [(codes & Hf & _)|(pre & c & post & _ & _ & _ & Hr)]; [|eauto].
  exfalso.
  assert (Hin : chr_CR ∈ unescape text).
  { unfold unescape. apply elem_of_replace2_keep; [discriminate | discriminate|].
    apply elem_of_replace2_keep; [discriminate | discriminate | exact Hcr]. }
  apply list_elem_of_lookup in Hin as [k Hk].
  destruct (Forall2_lookup_l _ _ _ _ _ Hf Hk) as (code & _ & Hcode).
  apply Hlook in Hcode as [[Hne _]|(j & Hj & _)]; [discriminate|].
  assert (Hmem : chr_CR ∈ sym_list) by (apply list_elem_of_lookup; eauto).
  rewrite Hsl in Hmem. apply SymbolTable.elem_of_sym_list in Hmem as [Hd|Hc].
  - revert Hd. apply (bool_decide_eq_false_1 (chr_CR ∈ forced_first_symbols)).
    reflexivity.
  - exact (Collector.get_letter_counts_symbols_aux2 text_list Hc).
Qed.

End WithTables.

(** The symbol list, font map and symbol map of the sample run. *)
Definition sample_result : list N * FontMap * gmap N (list Z) :=
  match SymbolTable.sample_run with
  | Ok r => r
  | Raise _ => ([], {| font12 := ∅; font06 := ∅ |}, ∅)
  end.

Definition sample_symbol_map : gmap N (list Z) := sample_result.2.

Lemma sample_run_Ok :
  SymbolTable.sample_run
  = Ok (sample_result.1.1, sample_result.1.2, sample_symbol_map).
Proof. vm_compute. reflexivity. Qed.

Example sample_conversion :
  convert_string_bytes sample_symbol_map (py_str "AB\n1") = Ok [12; 13; 1; 3].
Proof. vm_compute. reflexivity. Qed.

Lemma converted_bytes_no_nul_witness :
  SymbolTable.sample_run
  = Ok (sample_result.1.1, sample_result.1.2, sample_symbol_map)
  /\ convert_string_bytes sample_symbol_map (py_str "AB\n1") = Ok [12; 13; 1; 3]
  /\ Forall (fun x => 1 <= x <= 255) [12; 13; 1; 3].
Proof.
  split; [exact sample_run_Ok|]. split; [exact sample_conversion|].
  exact (converted_bytes_no_nul _ _ _ _ _ _ _ _ _ sample_run_Ok sample_conversion).
Defined.

Lemma conversion_injective_witness :
  SymbolTable.sample_run
  = Ok (sample_result.1.1, sample_result.1.2, sample_symbol_map)
  /\ convert_string_bytes sample_symbol_map (py_str "A\n") = Ok [12; 1]
  /\ convert_string_bytes sample_symbol_map [65; 10]%N = Ok [12; 1]
  /\ unescape (py_str "A\n") = unescape [65; 10]%N.
Proof.
  assert (H1 : convert_string_bytes sample_symbol_map (py_str "A\n") = Ok [12; 1])
    by (vm_compute; reflexivity).
  assert (H2 : convert_string_bytes sample_symbol_map [65; 10]%N = Ok [12; 1])
    by (vm_compute; reflexivity).
  split; [exact sample_run_Ok|]. split; [exact H1|]. split; [exact H2|].
  exact (conversion_injective _ _ _ _ _ _ _ _ _ _ sample_run_Ok H1 H2).
Defined.

Lemma collected_lines_convert_witness :
  SymbolTable.sample_run
  = Ok (sample_result.1.1, sample_result.1.2, sample_symbol_map)
  /\ ([65; 66; 65]%N ∈ FontTable.sample_text)
  /\ (chr_backslash ∉ [65; 66; 65]%N)
  /\ (chr_CR ∉ [65; 66; 65]%N)
  /\ exists b, convert_string_bytes sample_symbol_map [65; 66; 65]%N = Ok b.
Proof.
  assert (Hin : [65; 66; 65]%N ∈ FontTable.sample_text) by left.
  assert (Hbs : chr_backslash ∉ [65; 66; 65]%N)
    by (apply (bool_decide_eq_false_1 _); reflexivity).
  assert (Hcr : chr_CR ∉ [65; 66; 65]%N)
    by (apply (bool_decide_eq_false_1 _); reflexivity).
  split; [exact sample_run_Ok|]. split; [exact Hin|]. split; [exact Hbs|].
  split; [exact Hcr|].
  exact (collected_lines_convert _ _ _ _ _ _ _ _ sample_run_Ok Hin Hbs Hcr).
Defined.

Lemma carriage_return_exits_witness :
  SymbolTable.sample_run
  = Ok (sample_result.1.1, sample_result.1.2, sample_symbol_map)
  /\ (chr_CR ∈ [65; 13]%N)
  /\ exists c, convert_string_bytes sample_symbol_map [65; 13]%N
               = Raise (SystemExit 1 (MissingFontDefinition c)).
Proof.
  assert (Hcr : chr_CR ∈ [65; 13]%N) by (right; left).
  split; [exact sample_run_Ok|]. split; [exact Hcr|].
  exact (carriage_return_exits _ _ _ _ _ _ _ _ sample_run_Ok Hcr).
Defined.

(** A backslash that is no escape has no code either, unless the text
    itself brought one in. *)
Example stray_backslash_exits :
  convert_string_bytes sample_symbol_map (py_str "A\B")
  = Raise (SystemExit 1 (MissingFontDefinition chr_backslash)).
Proof. vm_compute. reflexivity. Qed.

End Conversion.

(** ** The string table *)

Module StringTable.

Import Compressor.

Lemma write_loop_Raise (tbl : gmap N (list Z))
    (r : list (option RemappedTranslationItem)) (items : list (nat * str))
    (w : writer) (e : exn) :
  write_loop tbl r items w = Raise e ->
  e = IndexError \/ exists c, e = SystemExit 1 (MissingFontDefinition c).
Proof.
  revert w. induction items as [|[i s] items IH]; intros w H; cbn [write_loop] in H;
    [discriminate|].
  destruct (r !! i) as [[t|]|] eqn:Er; [eapply IH; eauto | | left; congruence].
  destruct (used_loop_Ok r i (offset w) (str_used_by r i) (str_offsets w))
    as (offs & Hrun & _).
  { intros k Hk. apply elem_of_str_used_by in Hk as [Hk|(t & Ht & _)]; eauto. }
  rewrite Hrun in H. cbn [bind] in H.
  apply bind_Raise_inv in H as [H|(b & _ & H)]; [|eapply IH; eauto].
  right.
  destruct (Conversion.convert_string_bytes_aux tbl s)
    as [(codes & _ & Hr)|(pre & c & post & _ & _ & _ & Hr)];
    rewrite Hr in H; [discriminate|]. injection H as <-. eauto.
Qed.

Lemma convert_entries_Raise (tbl : gmap N (list Z)) (items : list (nat * str))
    (e : exn) :
  convert_entries tbl items = Raise e ->
  exists c, e = SystemExit 1 (MissingFontDefinition c).
Proof.
  induction items as [|[i s] items IH]; intros H; cbn [convert_entries] in H;
    [discriminate|].
  apply bind_Raise_inv in H as [H|(b & _ & H)].
  - destruct (Conversion.convert_string_bytes_aux tbl s)
      as [(codes & _ & Hr)|(pre & c & post & _ & _ & _ & Hr)];
      rewrite Hr in H; [discriminate|]. injection H as <-. eauto.
  - apply bind_Raise_inv in H as [H|(rest & _ & H)]; [auto | discriminate].
Qed.

Section Returned.

Variables (tbl : gmap N (list Z)) (str_table : list str).
Variables (table : list entry) (remapping : list (option RemappedTranslationItem)).
Variable w' : writer.
Hypothesis Htab : backward_sorted_table tbl str_table = Ok table.
Hypothesis Hloop :
  remap_loop table 0 table (replicate (length str_table) None) = Ok remapping.
Hypothesis Hwrite :
  write_loop tbl remapping (enumerate str_table)
    (initial_writer (length str_table)) = Ok w'.

Lemma initial_bound (i : nat) (s : str) :
  (i, s) ∈ enumerate str_table ->
  (i < length (str_offsets (initial_writer (length str_table))))%nat.
Proof.
  intros Hi. unfold initial_writer. cbn [str_offsets]. rewrite length_replicate.
  apply elem_of_lookup_imap in Hi as (i' & y & Heq & Hy).
  injection Heq as -> ->. eapply lookup_lt_Some; eauto.
Qed.

(** Where the written loop has left each string: at an offset that is
    not negative and at which the data hold its bytes and a NUL. *)
Lemma string_at_offset (i : nat) (s : str) (b : list Z) :
  str_table !! i = Some s -> convert_string_bytes tbl s = Ok b ->
  exists o,
    str_offsets w' !! i = Some o /\ 0 <= o
    /\ take (length b + 1)
         (drop (Z.to_nat o) (data_of (translation_strings_text w') ++ [0]))
       = b ++ [0].
Proof.
  intros Hs Hb.
  assert (Hlt : (i < length remapping)%nat).
  { rewrite (remapping_length _ _ _ _ Htab Hloop). eapply lookup_lt_Some; eauto. }
  apply lookup_lt_is_Some_2 in Hlt as [[t|] Hr].
  - destruct (remapping_alias_inv _ _ _ _ Htab Hloop i t Hr)
      as (p & e & j & ej & Hpe & Hidx & Hpj & Hscan & Hej & ->).
    destruct (remapping_target_root _ _ _ _ Htab Hloop p j e ej Hpe Hpj Hscan Hej)
      as [Hstart Hroot].
    destruct (table_entry _ _ _ Htab e) as [Hse Hce];
      [apply list_elem_of_lookup_2 in Hpe; exact Hpe|].
    destruct (table_entry _ _ _ Htab ej) as [Hsj Hcj];
      [apply list_elem_of_lookup_2 in Hej; exact Hej|].
    rewrite Hidx, Hs in Hse. injection Hse as Hse. rewrite <- Hse, Hb in Hce.
    injection Hce as ->.
    assert (HinR : (idx_of ej, ej.1.2) ∈ enumerate str_table)
      by (apply (elem_of_lookup_imap_2 pair); exact Hsj).
    destruct (write_loop_roots tbl remapping (enumerate str_table) _ w'
                (enumerate_NoDup str_table) initial_bound
                (initial_writer_ok _) Hwrite (idx_of ej) ej.1.2 HinR Hroot)
      as (oR & bR & HbR & HoR & HoffR & Halias & Hblob).
    rewrite Hcj in HbR. injection HbR as <-.
    pose proof (startswith_length _ _ Hstart) as Hlen.
    destruct (entry_suffix e ej Hstart) as [[k Hk] _].
    exists (oR + Z.of_nat (length k)).
    assert (Hstartoff : str_start_offset (alias_of ej e) = Z.of_nat (length k)).
    { simpl. rewrite <- (length_rev ej.2), Hk, length_app, length_rev. lia. }
    split.
    { rewrite (Halias i _ Hr eq_refl), Hstartoff; [reflexivity|].
      unfold initial_writer. cbn [str_offsets]. rewrite length_replicate.
      eapply lookup_lt_Some; eauto. }
    split; [lia|].
    rewrite Hk in Hblob.
    replace (length (rev e.2) + 1)%nat with (length (rev e.2 ++ [0]))
      by (rewrite length_app; reflexivity).
    apply (take_drop_suffix _ k (rev e.2 ++ [0]) oR HoR).
    rewrite app_assoc, (length_app (k ++ rev e.2) [0]). exact Hblob.
  - assert (Hin : (i, s) ∈ enumerate str_table)
      by (apply (elem_of_lookup_imap_2 pair); exact Hs).
    destruct (write_loop_roots tbl remapping (enumerate str_table) _ w'
                (enumerate_NoDup str_table) initial_bound
                (initial_writer_ok _) Hwrite i s Hin Hr)
      as (o & b' & Hb' & Ho & Hoff & _ & Hblob).
    rewrite Hb in Hb'. injection Hb' as <-.
    exists o. auto.
Qed.

Lemma offsets_nonneg : Forall (fun o => 0 <= o) (str_offsets w').
Proof.
  apply Forall_lookup. intros i o Hi.
  destruct (write_loop_frame _ _ _ _ _ Hwrite) as (Hlen & _ & _).
  assert (Hlt : (i < length str_table)%nat).
  { apply lookup_lt_Some in Hi. rewrite Hlen in Hi. unfold initial_writer in Hi.
    cbn [str_offsets] in Hi. rewrite length_replicate in Hi. exact Hi. }
  apply lookup_lt_is_Some_2 in Hlt as [s Hs].
  destruct (table_has _ _ _ Htab i s Hs) as (c & _ & Hc).
  destruct (string_at_offset i s (rev c) Hs Hc) as (o' & Ho' & Hnn & _).
  rewrite Hi in Ho'. injection Ho' as <-. exact Hnn.
Qed.

End Returned.

(** The table is stored without loss: when the function returns, each
    string of the table has an offset, not negative, at which the blob
    holds the bytes of the string followed by a NUL. *)
Theorem every_string_readable (tbl : gmap N (list Z)) (str_table : list str)
    (text : list literal) (offsets : list Z) (i : nat) (s : str) (b : list Z) :
  get_translation_strings_and_indices_text tbl str_table = Ok (text, offsets) ->
  str_table !! i = Some s ->
  convert_string_bytes tbl s = Ok b ->
  exists o,
    offsets !! i = Some o /\ 0 <= o
    /\ take (length b + 1) (drop (Z.to_nat o) (TranslationStringsData text))
       = b ++ [0].
Proof.
  intros H Hs Hb.
  apply get_translation_inv in H as (remapping & w' & Hremap & Hwrite & -> & ->).
  destruct (str_remapping_inv _ _ _ Hremap) as (table & Htab & Hloop).
  exact (string_at_offset tbl str_table table remapping w' Htab Hloop Hwrite i s b Hs Hb).
Qed.

(** The function fails in two ways only: by a character without a font
    definition, and by the [IndexError] of the remapping loop. The
    assertions on the offsets never fail. *)
Theorem string_table_failures (tbl : gmap N (list Z)) (str_table : list str)
    (e : exn) :
  get_translation_strings_and_indices_text tbl str_table = Raise e ->
  e = IndexError \/ exists c, e = SystemExit 1 (MissingFontDefinition c).
Proof.
  unfold get_translation_strings_and_indices_text. intros H.
  apply bind_Raise_inv in H as [H|(remapping & Hremap & H)].
  { unfold str_remapping in H.
    apply bind_Raise_inv in H as [H|(table & _ & H)].
    - unfold backward_sorted_table in H.
      apply bind_Raise_inv in H as [H|(entries & _ & H)]; [|discriminate].
      right. eapply convert_entries_Raise; eauto.
    - left. eapply remap_loop_Raise; eauto. }
  apply bind_Raise_inv in H as [H|(w' & Hwrite & H)].
  { eapply write_loop_Raise; eauto. }
  exfalso.
  destruct (str_remapping_inv _ _ _ Hremap) as (table & Htab & Hloop).
  pose proof (offsets_nonneg tbl str_table table remapping w' Htab Hloop Hwrite) as Hnn.
  assert (Hall : forallb (fun o => 0 <=? o) (str_offsets w') = true).
  { apply forallb_forall. intros o Ho. apply Z.leb_le.
    rewrite Forall_forall in Hnn. apply Hnn, list_elem_of_In, Ho. }
  rewrite Hall in H. discriminate.
Qed.

Lemma scan_run_nil (rest : list entry) (j : nat) :
  scan_run [] rest j = Raise IndexError.
Proof. revert j. induction rest as [|e rest IH]; intros j; simpl; auto. Qed.

Lemma convert_entries_returns (tbl : gmap N (list Z)) (items : list (nat * str)) :
  (forall i s, (i, s) ∈ items -> exists b, convert_string_bytes tbl s = Ok b) ->
  exists entries, convert_entries tbl items = Ok entries.
Proof.
  induction items as [|[i s] items IH]; intros Hall; simpl; [eauto|].
  destruct (Hall i s ltac:(left)) as [b ->]. cbn [bind].
  destruct IH as [entries ->]; [intros i' s' Hin; apply (Hall i' s'); right; exact Hin|].
  cbn [bind]. eauto.
Qed.

(** The empty string: when every string of a table of two or more
    strings converts and one of them converts to no byte at all, the
    function raises [IndexError]. The empty entry sorts first and every
    entry starts with it, so its run reaches the end of the table. *)
Theorem any_empty_string_raises (tbl : gmap N (list Z)) (str_table : list str)
    (i : nat) (s : str) :
  (forall s', s' ∈ str_table -> exists b, convert_string_bytes tbl s' = Ok b) ->
  (2 <= length str_table)%nat ->
  str_table !! i = Some s -> convert_string_bytes tbl s = Ok [] ->
  get_translation_strings_and_indices_text tbl str_table = Raise IndexError.
Proof.
  intros Hall Hlen Hs Hb.
  destruct (convert_entries_returns tbl (enumerate str_table)) as [entries Hent].
  { intros i' s' Hin. apply elem_of_lookup_imap in Hin as (k & y & Heq & Hy).
    injection Heq as -> ->. apply Hall. apply list_elem_of_lookup. eauto. }
  assert (Htab : backward_sorted_table tbl str_table = Ok (sorted entry_leb entries)).
  { unfold backward_sorted_table. rewrite Hent. reflexivity. }
  set (table := sorted entry_leb entries) in *.
  pose proof (table_length _ _ _ Htab) as Htl.
  pose proof (table_StronglySorted _ _ _ Htab) as Hsorted.
  destruct (table_has _ _ _ Htab i s Hs) as (c & Hin & Hc).
  rewrite Hb in Hc. injection Hc as Hc.
  assert (c = []) by (destruct c; [reflexivity|]; simpl in Hc;
                      apply (f_equal (@length Z)) in Hc; rewrite length_app in Hc;
                      simpl in Hc; lia).
  subst c.
  destruct table as [|[[i0 s0] c0] [|e1 rest]] eqn:Et; try (simpl in Htl; lia).
  assert (Hc0 : c0 = []).
  { apply elem_of_cons in Hin as [Heq|Hin]; [congruence|].
    inversion Hsorted as [|? ? _ Hfa]; subst.
    rewrite Forall_forall in Hfa. specialize (Hfa _ Hin).
    unfold entry_leb in Hfa. simpl in Hfa. destruct c0; [reflexivity | discriminate]. }
  subst c0.
  unfold get_translation_strings_and_indices_text, str_remapping.
  rewrite Htab. cbn [bind remap_loop]. rewrite scan_run_nil. reflexivity.
Qed.

Lemma any_empty_string_raises_witness :
  (forall s', s' ∈ [py_str "A"; []; py_str "Z"] ->
              exists b, convert_string_bytes identity_table s' = Ok b)
  /\ (2 <= length [py_str "A"; []; py_str "Z"])%nat
  /\ [py_str "A"; []; py_str "Z"] !! 1%nat = Some []
  /\ convert_string_bytes identity_table [] = Ok []
  /\ get_translation_strings_and_indices_text identity_table
       [py_str "A"; []; py_str "Z"] = Raise IndexError.
Proof.
  assert (Hall : forall s', s' ∈ [py_str "A"; []; py_str "Z"] ->
                   exists b, convert_string_bytes identity_table s' = Ok b).
  { intros s' Hs.
    repeat (apply elem_of_cons in Hs as [->|Hs]; [eexists; vm_compute; reflexivity|]).
    inversion Hs. }
  assert (Hlen : (2 <= length [py_str "A"; []; py_str "Z"])%nat) by (simpl; lia).
  split; [exact Hall|]. split; [exact Hlen|]. split; [reflexivity|].
  split; [reflexivity|].
  exact (any_empty_string_raises identity_table _ 1 [] Hall Hlen eq_refl eq_refl).
Defined.

Lemma every_string_readable_witness :
  exists text offsets,
    get_translation_strings_and_indices_text identity_table
      [py_str "f"; py_str "ef"; py_str "gf"; py_str "z"] = Ok (text, offsets)
    /\ [py_str "f"; py_str "ef"; py_str "gf"; py_str "z"] !! 0%nat = Some (py_str "f")
    /\ convert_string_bytes identity_table (py_str "f") = Ok [102]
    /\ exists o,
         offsets !! 0%nat = Some o /\ 0 <= o
         /\ take (length [102] + 1)
              (drop (Z.to_nat o) (TranslationStringsData text))
            = [102] ++ [0].
Proof.
  assert (Hb : convert_string_bytes identity_table (py_str "f") = Ok [102])
    by (vm_compute; reflexivity).
  destruct (get_translation_strings_and_indices_text identity_table
              [py_str "f"; py_str "ef"; py_str "gf"; py_str "z"])
    as [[text offsets]|e] eqn:E.
  - exists text, offsets. split; [reflexivity|]. split; [reflexivity|].
    split; [exact Hb|].
    exact (every_string_readable _ _ _ _ 0 _ _ E eq_refl Hb).
  - vm_compute in E. discriminate.
Defined.

Lemma string_table_failures_witness :
  get_translation_strings_and_indices_text identity_table
    [py_str "ABCDEF"; py_str "DEF"] = Raise IndexError
  /\ (IndexError = IndexError
      \/ exists c, IndexError = SystemExit 1 (MissingFontDefinition c)).
Proof.
  split; [exact abcdef_def_raises|].
  exact (string_table_failures _ _ _ abcdef_def_raises).
Defined.

Lemma run_to_the_end_raises_witness :
  backward_sorted_table identity_table [py_str "ABCDEF"; py_str "DEF"]
  = Ok [(1%nat, py_str "DEF", [70; 69; 68]);
        (0%nat, py_str "ABCDEF", [70; 69; 68; 67; 66; 65])]
  /\ (2 = length [(1%nat, py_str "DEF", [70; 69; 68]);
                  (0%nat, py_str "ABCDEF", [70; 69; 68; 67; 66; 65])])%nat
  /\ startswith [70; 69; 68; 67; 66; 65] [70; 69; 68] = true
  /\ str_remapping identity_table [py_str "ABCDEF"; py_str "DEF"] = Raise IndexError
  /\ get_translation_strings_and_indices_text identity_table
       [py_str "ABCDEF"; py_str "DEF"] = Raise IndexError.
Proof.
  assert (Htab : backward_sorted_table identity_table [py_str "ABCDEF"; py_str "DEF"]
                 = Ok [(1%nat, py_str "DEF", [70; 69; 68]);
                       (0%nat, py_str "ABCDEF", [70; 69; 68; 67; 66; 65])])
    by (vm_compute; reflexivity).
  split; [exact Htab|]. split; [reflexivity|]. split; [reflexivity|].
  exact (run_to_the_end_raises identity_table _ _ 0
           (1%nat, py_str "DEF", [70; 69; 68])
           (0%nat, py_str "ABCDEF", [70; 69; 68; 67; 66; 65])
           Htab eq_refl eq_refl eq_refl eq_refl).
Defined.

End StringTable.

(** ** Reading a translation *)

Module Reading.

Lemma py_slice_short {A} (s : list A) :
  (length s <= 17)%nat -> py_slice s 12 (-5) = [].
Proof.
  intros Hlen. unfold py_slice.
  destruct (Z.ltb_spec 12 0); [lia|].
  destruct (Z.ltb_spec (-5) 0); [|lia].
  replace (Z.to_nat _) with 0%nat by lia. reflexivity.
Qed.

Lemma is_dict_dec (v : json) : (exists o, v = JObj o) \/ (forall o, v <> JObj o).
Proof. destruct v; try (right; intros o; discriminate). left. eauto. Qed.

Section WithUpper.

Variable upper : str -> str.
Hypothesis upper_not_missing : forall s, upper s <> py_str "(missing)".

(** [read_translation] returns exactly when the file
    [translation_<code>.json] loads, holds a JSON object, and the
    [languageCode] of the object is the upper-cased code; it then returns
    the loaded document as it is. *)
Theorem read_translation_Ok_iff (load_json : str -> result json)
    (lang_code : str) (lang : json) :
  read_translation upper load_json lang_code = Ok lang
  <-> load_json (py_str "translation_" ++ lang_code ++ py_str ".json") = Ok lang
      /\ exists content,
           lang = JObj content
           /\ content !! py_str "languageCode" = Some (JStr (upper lang_code)).
Proof.
  unfold read_translation.
  pose proof (Validation.validate_Ok_iff upper upper_not_missing
                (py_str "translation_" ++ lang_code ++ py_str ".json")) as Hiff.
  rewrite Validation.filename_lang_code in Hiff.
  destruct (load_json _) as [doc|e].
  - destruct (is_dict_dec doc) as [[content ->]|Hno].
    + specialize (Hiff content).
      destruct (validate_langcode_matches_content upper _ (JObj content))
        as [[]|e'] eqn:Ev; cbn [bind].
      * split.
        -- intros Heq. injection Heq as <-. split; [reflexivity|].
           exists content. split; [reflexivity|]. apply Hiff. reflexivity.
        -- intros [Heq _]. exact Heq.
      * split; [discriminate|]. intros [Heq (content' & Hc & Hcode)].
        injection Heq as <-. injection Hc as <-.
        apply Hiff in Hcode. discriminate.
    + rewrite (Validation.validate_not_a_dict upper _ _ Hno). cbn [bind].
      split; [discriminate|]. intros [Heq (content & -> & _)].
      injection Heq as ->. exfalso. exact (Hno _ eq_refl).
  - split; [destruct e; discriminate|]. intros [Heq _]. discriminate.
Qed.

(** How [read_translation] fails, in four ways and no other: a file that
    does not parse ends the run with exit status 2; any other error of
    the load is passed on; a document that is no JSON object raises
    [TypeError] where its [languageCode] is read; an object whose
    [languageCode] does not match raises [ValueError]. *)
Theorem read_translation_failures (load_json : str -> result json)
    (lang_code : str) (e : exn) :
  read_translation upper load_json lang_code = Raise e
  <-> (load_json (py_str "translation_" ++ lang_code ++ py_str ".json")
       = Raise JSONDecodeError
       /\ e = SystemExit 2
                (FailedToDecode (py_str "translation_" ++ lang_code ++ py_str ".json")))
      \/ (load_json (py_str "translation_" ++ lang_code ++ py_str ".json") = Raise e
          /\ e <> JSONDecodeError)
      \/ (exists lang,
            load_json (py_str "translation_" ++ lang_code ++ py_str ".json") = Ok lang
            /\ (forall o, lang <> JObj o)
            /\ e = TypeError)
      \/ (exists content,
            load_json (py_str "translation_" ++ lang_code ++ py_str ".json")
            = Ok (JObj content)
            /\ content !! py_str "languageCode" <> Some (JStr (upper lang_code))
            /\ e = ValueError "Invalid languageCode").
Proof.
  unfold read_translation.
  pose proof (Validation.validate_Ok_iff upper upper_not_missing
                (py_str "translation_" ++ lang_code ++ py_str ".json")) as Hiff.
  rewrite Validation.filename_lang_code in Hiff.
  destruct (load_json _) as [doc|e'].
  - destruct (is_dict_dec doc) as [[content ->]|Hno].
    + specialize (Hiff content).
      destruct (validate_langcode_matches_content upper _ (JObj content))
        as [[]|e''] eqn:Ev; cbn [bind].
      * split; [discriminate|].
        intros [[H _]|[[H _]|[(lang & H & Hno & _)|(content' & H & Hne & _)]]];
          try discriminate.
        -- injection H as <-. exfalso. exact (Hno _ eq_refl).
        -- injection H as <-. exfalso. apply Hne, Hiff. reflexivity.
      * assert (Hnc : content !! py_str "languageCode"
                      <> Some (JStr (upper lang_code))).
        { intros Hcode. apply Hiff in Hcode. discriminate. }
        assert (Hne : validate_langcode_matches_content upper
                        (py_str "translation_" ++ lang_code ++ py_str ".json")
                        (JObj content) <> Ok tt) by congruence.
        rewrite (Validation.validate_raises upper _ _ Hne) in Ev.
        injection Ev as <-.
        split.
        -- intros H. injection H as <-. right. right. right.
           exists content. split; [reflexivity|]. split; [exact Hnc | reflexivity].
        -- intros [[H _]|[[H _]|[(lang & H & Hno & _)|(content' & _ & _ & ->)]]];
             try discriminate; [|reflexivity].
           injection H as <-. exfalso. exact (Hno _ eq_refl).
    + rewrite (Validation.validate_not_a_dict upper _ _ Hno). cbn [bind].
      split.
      * intros H. injection H as <-. right. right. left. exists doc. auto.
      * intros [[H _]|[[H _]|[(lang & _ & _ & ->)|(content & H & _)]]];
          try discriminate; [reflexivity|].
        injection H as ->. exfalso. exact (Hno _ eq_refl).
  - split.
    + intros H. destruct e'; injection H as <-;
        try (right; left; split; [reflexivity | discriminate]).
      left. auto.
    + intros [[H ->]|[[H Hne]|[(lang & H & _)|(content & H & _)]]];
        try discriminate.
      * injection H as ->. reflexivity.
      * injection H as ->. destruct e; try reflexivity. contradiction.
Qed.

(** A document without a [languageCode], or with one that is not a
    string, is refused whatever the file is called. *)
Theorem language_code_required (filename : str) (content : gmap str json) :
  content !! py_str "languageCode" = None
  \/ (exists v, content !! py_str "languageCode" = Some v /\ forall s, v <> JStr s) ->
  validate_langcode_matches_content upper filename (JObj content)
  = Raise (ValueError "Invalid languageCode").
Proof.
  intros H. apply Validation.validate_raises. intros Hok.
  apply (Validation.validate_Ok_iff upper upper_not_missing) in Hok.
  destruct H as [H|(v & H & Hv)]; rewrite H in Hok; [discriminate|].
  injection Hok as ->. exact (Hv _ eq_refl).
Qed.

(** The slice [filename[12:-5]] of a file name of at most 17 characters
    is empty and raises nothing: such a file is accepted exactly with the
    [languageCode] that is the upper-cased empty string. *)
Theorem short_filename_code (filename : str) (content : gmap str json) :
  (length filename <= 17)%nat ->
  (validate_langcode_matches_content upper filename (JObj content) = Ok tt
   <-> content !! py_str "languageCode" = Some (JStr (upper []))).
Proof.
  intros Hlen.
  rewrite (Validation.validate_Ok_iff upper upper_not_missing), (py_slice_short _ Hlen).
  reflexivity.
Qed.

End WithUpper.

Lemma read_translation_Ok_iff_witness :
  (forall s, ascii_upper s <> py_str "(missing)")
  /\ (read_translation ascii_upper
        (fun _ => Ok (JObj {[ py_str "languageCode" := JStr (py_str "EN") ]}))
        (py_str "en")
      = Ok (JObj {[ py_str "languageCode" := JStr (py_str "EN") ]})
      <-> (fun _ : str => Ok (JObj {[ py_str "languageCode" := JStr (py_str "EN") ]}))
            (py_str "translation_" ++ py_str "en" ++ py_str ".json")
          = Ok (JObj {[ py_str "languageCode" := JStr (py_str "EN") ]})
          /\ exists content,
               JObj {[ py_str "languageCode" := JStr (py_str "EN") ]} = JObj content
               /\ content !! py_str "languageCode"
                  = Some (JStr (ascii_upper (py_str "en")))).
Proof.
  split; [exact Validation.ascii_upper_not_missing|].
  exact (read_translation_Ok_iff ascii_upper Validation.ascii_upper_not_missing
           (fun _ => Ok (JObj {[ py_str "languageCode" := JStr (py_str "EN") ]}))
           (py_str "en") (JObj {[ py_str "languageCode" := JStr (py_str "EN") ]})).
Defined.

(** The file [translation_EN.json] that holds the JSON list [[]]. *)
Lemma read_translation_failures_witness :
  (forall s, ascii_upper s <> py_str "(missing)")
  /\ (exists lang,
        (fun _ : str => Ok (JList []))
          (py_str "translation_" ++ py_str "EN" ++ py_str ".json") = Ok lang
        /\ (forall o, lang <> JObj o)
        /\ TypeError = TypeError)
  /\ read_translation ascii_upper (fun _ => Ok (JList [])) (py_str "EN")
     = Raise TypeError.
Proof.
  assert (H : exists lang,
            (fun _ : str => Ok (JList []))
              (py_str "translation_" ++ py_str "EN" ++ py_str ".json") = Ok lang
            /\ (forall o, lang <> JObj o)
            /\ TypeError = TypeError).
  { exists (JList []). split; [reflexivity|]. split; [discriminate | reflexivity]. }
  split; [exact Validation.ascii_upper_not_missing|]. split; [exact H|].
  exact (proj2 (read_translation_failures ascii_upper Validation.ascii_upper_not_missing
                  (fun _ => Ok (JList [])) (py_str "EN") TypeError)
           (or_intror (or_intror (or_introl H)))).
Defined.

Lemma language_code_required_witness :
  (forall s, ascii_upper s <> py_str "(missing)")
  /\ ((∅ : gmap str json) !! py_str "languageCode" = None
      \/ (exists v, (∅ : gmap str json) !! py_str "languageCode" = Some v
                    /\ forall s, v <> JStr s))
  /\ validate_langcode_matches_content ascii_upper
       (py_str "translation_(missing).json") (JObj ∅)
     = Raise (ValueError "Invalid languageCode").
Proof.
  assert (H : (∅ : gmap str json) !! py_str "languageCode" = None
              \/ (exists v, (∅ : gmap str json) !! py_str "languageCode" = Some v
                            /\ forall s, v <> JStr s)) by (left; reflexivity).
  split; [exact Validation.ascii_upper_not_missing|]. split; [exact H|].
  exact (language_code_required ascii_upper Validation.ascii_upper_not_missing _ _ H).
Defined.

Lemma short_filename_code_witness :
  (forall s, ascii_upper s <> py_str "(missing)")
  /\ (length (py_str "en.json") <= 17)%nat
  /\ (validate_langcode_matches_content ascii_upper (py_str "en.json")
        (JObj {[ py_str "languageCode" := JStr [] ]}) = Ok tt
      <-> ({[ py_str "languageCode" := JStr [] ]} : gmap str json)
            !! py_str "languageCode"
          = Some (JStr (ascii_upper []))).
Proof.
  assert (Hlen : (length (py_str "en.json") <= 17)%nat) by (simpl; lia).
  split; [exact Validation.ascii_upper_not_missing|]. split; [exact Hlen|].
  exact (short_filename_code ascii_upper Validation.ascii_upper_not_missing _ _ Hlen).
Defined.

End Reading.

(** ** Glyphs *)

Module Glyphs.

Lemma get_cell_blank (glyph : Glyph) (x y : Z) :
  src_w glyph <= 0 \/ src_h glyph <= 0 -> get_cell glyph x y = Ok false.
Proof.
  intros H. unfold get_cell.
  destruct (Z.ltb_spec (x - src_left glyph) 0); [reflexivity|].
  destruct (Z.geb_spec (x - src_left glyph) (src_w glyph)); [reflexivity|].
  cbn [orb].
  destruct (Z.ltb_spec (y - (dst_h - src_h glyph - src_bottom glyph - 3)) 0);
    [reflexivity|].
  destruct (Z.geb_spec (y - (dst_h - src_h glyph - src_bottom glyph - 3)) (src_h glyph));
    [reflexivity|].
  lia.
Qed.

Lemma blank_glyph_bytes (glyph : Glyph) :
  src_w glyph <= 0 \/ src_h glyph <= 0 ->
  get_cjk_glyph_bytes glyph = Ok (replicate 24 0).
Proof.
  intros H.
  assert (Hcol : forall block c rs, column_loop glyph block c rs 0 = Ok 0).
  { intros block c rs. induction rs as [|r rs IH]; [reflexivity|].
    cbn [column_loop]. rewrite (get_cell_blank glyph _ _ H). cbn [bind]. exact IH. }
  assert (Hcells : forall cells s,
            cells_loop glyph cells s = Ok (s ++ replicate (length cells) 0)).
  { induction cells as [|[block c] cells IH]; intros s; cbn [cells_loop].
    - simpl. rewrite app_nil_r. reflexivity.
    - rewrite Hcol. cbn [bind]. rewrite IH, <- app_assoc. reflexivity. }
  unfold get_cjk_glyph_bytes. rewrite Hcells. reflexivity.
Qed.

(** A glyph of the font without width or without height takes no pixel:
    [get_cjk_glyph] returns the text of 24 zero bytes for it, whatever
    its [data] are, even none: they are not read. *)
Theorem blank_glyph (cjk_font : gmap Z Glyph) (sym : N) (glyph : Glyph) :
  cjk_font !! Z.of_N sym = Some glyph ->
  src_w glyph <= 0 \/ src_h glyph <= 0 ->
  get_cjk_glyph cjk_font sym
  = Ok ("0x00,0x00,0x00,0x00,0x00,0x00,0x00,0x00,0x00,0x00,0x00,0x00,"
        +:+ "0x00,0x00,0x00,0x00,0x00,0x00,0x00,0x00,0x00,0x00,0x00,0x00,").
Proof.
  intros Hg H. unfold get_cjk_glyph.
  rewrite Hg, (blank_glyph_bytes glyph H). reflexivity.
Qed.

Lemma blank_glyph_witness :
  ({[ 20013 := {| data := []; src_left := 0; src_bottom := 0;
                  src_w := 0; src_h := 5 |} ]} : gmap Z Glyph) !! Z.of_N 20013
  = Some {| data := []; src_left := 0; src_bottom := 0; src_w := 0; src_h := 5 |}
  /\ (src_w {| data := []; src_left := 0; src_bottom := 0; src_w := 0; src_h := 5 |}
      <= 0
      \/ src_h {| data := []; src_left := 0; src_bottom := 0; src_w := 0; src_h := 5 |}
         <= 0)
  /\ get_cjk_glyph
       {[ 20013 := {| data := []; src_left := 0; src_bottom := 0;
                      src_w := 0; src_h := 5 |} ]} 20013%N
     = Ok ("0x00,0x00,0x00,0x00,0x00,0x00,0x00,0x00,0x00,0x00,0x00,0x00,"
           +:+ "0x00,0x00,0x00,0x00,0x00,0x00,0x00,0x00,0x00,0x00,0x00,0x00,").
Proof.
  assert (H : src_w {| data := []; src_left := 0; src_bottom := 0;
                       src_w := 0; src_h := 5 |} <= 0
              \/ src_h {| data := []; src_left := 0; src_bottom := 0;
                          src_w := 0; src_h := 5 |} <= 0) by (left; simpl; lia).
  split; [reflexivity|]. split; [exact H|].
  exact (blank_glyph {[ 20013 := {| data := []; src_left := 0; src_bottom := 0;
                                    src_w := 0; src_h := 5 |} ]} 20013 _ eq_refl H).
Defined.

Lemma string_length_append (s t : string) :
  String.length (s +:+ t) = (String.length s + String.length t)%nat.
Proof. induction s as [|c s IH]; simpl; [reflexivity|]. rewrite IH. reflexivity. Qed.

Lemma hex_digit_length (d : Z) : String.length (hex_digit d) = 1%nat.
Proof.
  destruct d as [|p|p]; [reflexivity | | reflexivity].
  do 4 (destruct p; try reflexivity).
Qed.

Lemma glyph_text_length (bs : list Z) (s : string) :
  String.length (foldl (fun s b => s +:+ "0x" +:+ format_02X b +:+ ",") s bs)
  = (String.length s + 5 * length bs)%nat.
Proof.
  revert s. induction bs as [|b bs IH]; intros s; simpl; [lia|].
  rewrite IH. rewrite !string_length_append. unfold format_02X.
  rewrite string_length_append, !hex_digit_length. simpl. lia.
Qed.

(** The line of a glyph in the font table: for a glyph that the font
    holds with one row of data for each row of its bounding box,
    [get_cjk_glyph] returns a text of 120 characters, five for each of
    the 24 bytes. *)
Theorem get_cjk_glyph_length (cjk_font : gmap Z Glyph) (sym : N) (glyph : Glyph) :
  cjk_font !! Z.of_N sym = Some glyph ->
  Z.of_nat (length (data glyph)) = src_h glyph ->
  exists text, get_cjk_glyph cjk_font sym = Ok text /\ String.length text = 120%nat.
Proof.
  intros Hg Hrows.
  pose proof (Rasterizer.get_cjk_glyph_bytes_map glyph Hrows) as Hb.
  exists (foldl (fun s b => s +:+ "0x" +:+ format_02X b +:+ ",") String.EmptyString
            (map (fun bc => Rasterizer.column_byte glyph bc.1 bc.2) glyph_cells)).
  split; [apply (Rasterizer.get_cjk_glyph_text _ _ _ _ Hg Hb)|].
  rewrite glyph_text_length. reflexivity.
Qed.

Lemma get_cjk_glyph_length_witness :
  ({[ 20013 := Rasterizer.sample_glyph ]} : gmap Z Glyph) !! Z.of_N 20013
  = Some Rasterizer.sample_glyph
  /\ Z.of_nat (length (data Rasterizer.sample_glyph)) = src_h Rasterizer.sample_glyph
  /\ exists text,
       get_cjk_glyph {[ 20013 := Rasterizer.sample_glyph ]} 20013%N = Ok text
       /\ String.length text = 120%nat.
Proof.
  split; [reflexivity|]. split; [reflexivity|].
  exact (get_cjk_glyph_length {[ 20013 := Rasterizer.sample_glyph ]} 20013
           Rasterizer.sample_glyph eq_refl eq_refl).
Defined.

End Glyphs.
